(** * rxddit-discord-bot: link transformer, conversation ledger, reaction handler

    A shallow embedding of [src/linkUtils.ts] (link detection and conversion),
    [src/database.ts] (the SQLite-backed ledger, class [MessageDatabase]) and the
    [MessageCreate] and [MessageReactionAdd] handlers of [src/bot.ts], followed
    by the properties of the specification that were checked against them and
    by further properties of the code. *)

From Stdlib Require Import String Ascii List ZArith NArith Bool Lia Arith.
From Stdlib Require Import Sorted Permutation.
Import ListNotations.

Set Implicit Arguments.

(** ** JavaScript values used by the program *)

Module JS.

(** A JavaScript string is a sequence of UTF-16 code units. *)
Definition char16 := N.
Definition jsstring := list char16.

(** An ASCII literal as a JavaScript string. *)
Fixpoint str (s : string) : jsstring :=
  match s with
  | EmptyString => []
  | String a s' => N_of_ascii a :: str s'
  end.

Fixpoint eqb (a b : jsstring) : bool :=
  match a, b with
  | [], [] => true
  | x :: a', y :: b' => N.eqb x y && eqb a' b'
  | _, _ => false
  end.

Definition eq_dec : forall a b : jsstring, {a = b} + {a <> b} :=
  list_eq_dec N.eq_dec.

(** [a || b] on a possibly missing string: the empty string and
    [null]/[undefined] are falsy. *)
Definition or_else (a : option jsstring) (b : jsstring) : jsstring :=
  match a with
  | Some (c :: s) => c :: s
  | _ => b
  end.

(** Exceptions the modelled code can raise. *)
Inductive exn :=
| NotNullConstraint (column : string)
| ForeignKeyConstraint.

Inductive result (A : Type) :=
| Ok (a : A)
| Throw (e : exn).
Arguments Ok {A} a.
Arguments Throw {A} e.

End JS.

Import JS.

(** ** database.ts *)

Module Ledger.

(** [interface StoredMessage]: a row of table [messages] as [getMessage]
    returns it ([is_reverted] read back through [Boolean]). *)
Record StoredMessage := {
  messageId : jsstring;
  channelId : jsstring;
  guildId : jsstring;
  authorId : jsstring;
  authorTag : jsstring;
  originalContent : jsstring;
  convertedContent : jsstring;
  originalLinks : jsstring;
  convertedLinks : jsstring;
  botMessageId : jsstring;
  createdAt : Z;
  isReverted : bool
}.

(** [Omit<StoredMessage, 'isReverted'>], the argument of [storeMessage]. *)
Record MessageInput := {
  in_messageId : jsstring;
  in_channelId : jsstring;
  in_guildId : jsstring;
  in_authorId : jsstring;
  in_authorTag : jsstring;
  in_originalContent : jsstring;
  in_convertedContent : jsstring;
  in_originalLinks : jsstring;
  in_convertedLinks : jsstring;
  in_botMessageId : jsstring;
  in_createdAt : Z
}.

(** The row [storeMessage] writes: the eleven bound values and the literal
    [0] for [is_reverted]. *)
Definition row_of_input (m : MessageInput) : StoredMessage := {|
  messageId := in_messageId m;
  channelId := in_channelId m;
  guildId := in_guildId m;
  authorId := in_authorId m;
  authorTag := in_authorTag m;
  originalContent := in_originalContent m;
  convertedContent := in_convertedContent m;
  originalLinks := in_originalLinks m;
  convertedLinks := in_convertedLinks m;
  botMessageId := in_botMessageId m;
  createdAt := in_createdAt m;
  isReverted := false
|}.

Definition set_reverted (m : StoredMessage) : StoredMessage := {|
  messageId := messageId m;
  channelId := channelId m;
  guildId := guildId m;
  authorId := authorId m;
  authorTag := authorTag m;
  originalContent := originalContent m;
  convertedContent := convertedContent m;
  originalLinks := originalLinks m;
  convertedLinks := convertedLinks m;
  botMessageId := botMessageId m;
  createdAt := createdAt m;
  isReverted := true
|}.

(** [interface StoredReaction]: a row of table [reactions] as [getReactions]
    returns it.  Column [user_id] is read back under the property name
    [odId] ([user_id as odId]). *)
Record StoredReaction := {
  id : Z;
  r_messageId : jsstring;
  odId : jsstring;
  userTag : jsstring;
  emoji : jsstring;
  reactedAt : Z;
  isRevertReaction : bool
}.

(** The object handed to [storeReaction] at run time.  TypeScript's
    [Omit<StoredReaction, 'id'>] is erased, so each property the call sites
    of the repository write or the method reads is either present or
    [undefined]; [o_userId] is the property [userId] that two of the three
    handlers in [bot.ts] write and [storeReaction] never reads. *)
Record ReactionObject := {
  o_messageId : option jsstring;
  o_odId : option jsstring;
  o_userId : option jsstring;
  o_userTag : option jsstring;
  o_emoji : option jsstring;
  o_reactedAt : option Z;
  o_isRevertReaction : bool
}.

(** An object of the declared type [Omit<StoredReaction, 'id'>]. *)
Record ReactionInput := {
  ri_messageId : jsstring;
  ri_odId : jsstring;
  ri_userTag : jsstring;
  ri_emoji : jsstring;
  ri_reactedAt : Z;
  ri_isRevertReaction : bool
}.

Definition object_of_input (r : ReactionInput) : ReactionObject := {|
  o_messageId := Some (ri_messageId r);
  o_odId := Some (ri_odId r);
  o_userId := None;
  o_userTag := Some (ri_userTag r);
  o_emoji := Some (ri_emoji r);
  o_reactedAt := Some (ri_reactedAt r);
  o_isRevertReaction := ri_isRevertReaction r
|}.

(** The row a well-typed argument becomes under the key [rowid]. *)
Definition row_of_reaction (rowid : Z) (r : ReactionInput) : StoredReaction :=
  {| id := rowid; r_messageId := ri_messageId r; odId := ri_odId r;
     userTag := ri_userTag r; emoji := ri_emoji r;
     reactedAt := ri_reactedAt r;
     isRevertReaction := ri_isRevertReaction r |}.

(** The database behind a [MessageDatabase]: the two tables in rowid order,
    the [sqlite_sequence] counter of the AUTOINCREMENT key of [reactions],
    and the connection's [foreign_keys] setting.  The class never issues the
    pragma, so the setting is the driver's default; better-sqlite3 builds
    SQLite with [SQLITE_DEFAULT_FOREIGN_KEYS=1], see [fresh]. *)
Record Db := {
  messages : list StoredMessage;
  reactions : list StoredReaction;
  reaction_seq : Z;
  foreign_keys : bool
}.

(** [new MessageDatabase(path)] on a new file: [initialize] creates the two
    empty tables. *)
Definition fresh : Db := {|
  messages := [];
  reactions := [];
  reaction_seq := 0;
  foreign_keys := true
|}.

Definition has_id (mid : jsstring) (m : StoredMessage) : bool :=
  JS.eqb (messageId m) mid.

(** [hasMessage]: [SELECT 1 FROM messages WHERE message_id = ?]. *)
Definition hasMessage (mid : jsstring) (db : Db) : bool :=
  existsb (has_id mid) (messages db).

(** [getMessage]: the row with that primary key, or [null]. *)
Definition getMessage (mid : jsstring) (db : Db) : option StoredMessage :=
  find (has_id mid) (messages db).

(** [storeMessage]: [INSERT OR REPLACE].  The conflicting row, if any, is
    deleted and the new row is appended with [is_reverted = 0].  The foreign
    key of [reactions] is checked when the statement ends, when the parent
    key is present again, so the statement never fails on it. *)
Definition storeMessage (m : MessageInput) (db : Db) : Db := {|
  messages :=
    filter (fun x => negb (has_id (in_messageId m) x)) (messages db)
      ++ [row_of_input m];
  reactions := reactions db;
  reaction_seq := reaction_seq db;
  foreign_keys := foreign_keys db
|}.

(** [markAsReverted]:
    [UPDATE messages SET is_reverted = 1 WHERE message_id = ?] and
    [result.changes > 0].  [changes] counts the rows the WHERE clause
    selects, whatever value [is_reverted] had. *)
Definition markAsReverted (mid : jsstring) (db : Db) : bool * Db :=
  let changes := length (filter (has_id mid) (messages db)) in
  (Nat.ltb 0 changes,
   {| messages :=
        map (fun x => if has_id mid x then set_reverted x else x)
            (messages db);
      reactions := reactions db;
      reaction_seq := reaction_seq db;
      foreign_keys := foreign_keys db |}).

Definition refers_to (mid : jsstring) (r : StoredReaction) : bool :=
  JS.eqb (r_messageId r) mid.

(** [deleteMessage]: [DELETE FROM messages WHERE message_id = ?].  With
    foreign keys enforced the statement fails when it would leave a reaction
    without its parent row. *)
Definition deleteMessage (mid : jsstring) (db : Db) : result bool * Db :=
  let changes := length (filter (has_id mid) (messages db)) in
  if foreign_keys db && Nat.ltb 0 changes
     && existsb (refers_to mid) (reactions db)
  then (Throw ForeignKeyConstraint, db)
  else
    (Ok (Nat.ltb 0 changes),
     {| messages := filter (fun x => negb (has_id mid x)) (messages db);
        reactions := reactions db;
        reaction_seq := reaction_seq db;
        foreign_keys := foreign_keys db |}).

(** The rowid an AUTOINCREMENT insert gets: one more than the largest rowid
    the table ever held. *)
Definition max_id (rs : list StoredReaction) : Z :=
  fold_right (fun r acc => Z.max (id r) acc) 0%Z rs.

Definition next_id (db : Db) : Z :=
  (Z.max (reaction_seq db) (max_id (reactions db)) + 1)%Z.

(** [storeReaction]: [INSERT INTO reactions (...) VALUES (?, ?, ?, ?, ?, ?)]
    with [reaction.messageId], [reaction.odId], [reaction.userTag],
    [reaction.emoji], [reaction.reactedAt] and
    [reaction.isRevertReaction ? 1 : 0].  An [undefined] property reaches a
    NOT NULL column as no value and the statement is rejected; so is a row
    whose [message_id] has no parent when foreign keys are enforced.  The
    result is [lastInsertRowid]. *)
Definition storeReaction (reaction : ReactionObject) (db : Db)
  : result Z * Db :=
  match o_messageId reaction with
  | None => (Throw (NotNullConstraint "message_id"), db)
  | Some mid =>
  match o_odId reaction with
  | None => (Throw (NotNullConstraint "user_id"), db)
  | Some uid =>
  match o_userTag reaction with
  | None => (Throw (NotNullConstraint "user_tag"), db)
  | Some tag =>
  match o_emoji reaction with
  | None => (Throw (NotNullConstraint "emoji"), db)
  | Some em =>
  match o_reactedAt reaction with
  | None => (Throw (NotNullConstraint "reacted_at"), db)
  | Some at_ =>
    if foreign_keys db && negb (hasMessage mid db)
    then (Throw ForeignKeyConstraint, db)
    else
      let rowid := next_id db in
      (Ok rowid,
       {| messages := messages db;
          reactions := reactions db ++
            [ {| id := rowid; r_messageId := mid; odId := uid;
                 userTag := tag; emoji := em; reactedAt := at_;
                 isRevertReaction := o_isRevertReaction reaction |} ];
          reaction_seq := rowid;
          foreign_keys := foreign_keys db |})
  end end end end end.

(** [ORDER BY reacted_at ASC]: rows with equal keys stay in rowid order. *)
Fixpoint insert_by_time (r : StoredReaction) (l : list StoredReaction)
  : list StoredReaction :=
  match l with
  | [] => [r]
  | x :: l' =>
      if (reactedAt r <? reactedAt x)%Z then r :: x :: l'
      else x :: insert_by_time r l'
  end.

Definition order_by_time (l : list StoredReaction) : list StoredReaction :=
  fold_left (fun acc r => insert_by_time r acc) l [].

(** [getReactions]. *)
Definition getReactions (mid : jsstring) (db : Db) : list StoredReaction :=
  order_by_time (filter (refers_to mid) (reactions db)).

Definition older_than (cutoff : Z) (m : StoredMessage) : bool :=
  (createdAt m <? cutoff)%Z.

(** [cleanupOldMessages(daysOld)], with [now] the value of [Date.now()]:
    first [DELETE FROM reactions WHERE message_id IN (SELECT message_id FROM
    messages WHERE created_at < ?)], then [DELETE FROM messages WHERE
    created_at < ?]; the result is the second statement's [changes].  The
    second statement is subject to the foreign key check like any delete
    from [messages]. *)
Definition cutoffTime (now daysOld : Z) : Z :=
  (now - daysOld * 24 * 60 * 60 * 1000)%Z.

Definition cleanupOldMessages (now daysOld : Z) (db : Db) : result Z * Db :=
  let cutoff := cutoffTime now daysOld in
  let old_ids := map messageId (filter (older_than cutoff) (messages db)) in
  let db1 :=
    {| messages := messages db;
       reactions :=
         filter (fun r => negb (existsb (JS.eqb (r_messageId r)) old_ids))
                (reactions db);
       reaction_seq := reaction_seq db;
       foreign_keys := foreign_keys db |} in
  let deleted := filter (older_than cutoff) (messages db1) in
  let kept := filter (fun m => negb (older_than cutoff m)) (messages db1) in
  if foreign_keys db1
     && existsb (fun r =>
          existsb (fun m => refers_to (messageId m) r) deleted
          && negb (existsb (fun m => refers_to (messageId m) r) kept))
          (reactions db1)
  then (Throw ForeignKeyConstraint, db1)
  else
    (Ok (Z.of_nat (length deleted)),
     {| messages := kept;
        reactions := reactions db1;
        reaction_seq := reaction_seq db1;
        foreign_keys := foreign_keys db1 |}).

(** The reactions the first statement of the cleanup keeps. *)
Definition survives (cutoff : Z) (db : Db) (r : StoredReaction) : bool :=
  negb (existsb (JS.eqb (r_messageId r))
          (map messageId (filter (older_than cutoff) (messages db)))).

(** [getStats]: three counting queries. *)
Record Stats := {
  totalMessages : nat;
  totalReactions : nat;
  revertedCount : nat
}.

Definition getStats (db : Db) : Stats := {|
  totalMessages := length (messages db);
  totalReactions := length (reactions db);
  revertedCount := length (filter isReverted (messages db))
|}.

(** [ORDER BY created_at DESC]: the newest row first.  SQLite leaves the
    order of rows with equal keys to the query plan; here they stay in rowid
    order, and no property below depends on it. *)
Fixpoint insert_by_created (m : StoredMessage) (l : list StoredMessage)
  : list StoredMessage :=
  match l with
  | [] => [m]
  | x :: l' =>
      if (createdAt x <? createdAt m)%Z then m :: x :: l'
      else x :: insert_by_created m l'
  end.

Definition order_by_created (l : list StoredMessage) : list StoredMessage :=
  fold_left (fun acc m => insert_by_created m acc) l [].

(** [LIMIT ?] with an integer, as every caller passes: a negative bound
    is no bound. *)
Definition limit_rows (limit : Z) (l : list StoredMessage)
  : list StoredMessage :=
  if (limit <? 0)%Z then l else firstn (Z.to_nat limit) l.

(** The default value of the parameter [limit]. *)
Definition limit_or_default (limit : option Z) : Z :=
  match limit with
  | Some n => n
  | None => 50%Z
  end.

(** [getMessagesByAuthor(authorId, limit = 50)]:
    [WHERE author_id = ? ORDER BY created_at DESC LIMIT ?]. *)
Definition getMessagesByAuthor (author : jsstring) (limit : option Z)
  (db : Db) : list StoredMessage :=
  limit_rows (limit_or_default limit)
    (order_by_created
       (filter (fun m => JS.eqb (authorId m) author) (messages db))).

(** [getMessagesByChannel(channelId, limit = 50)]:
    [WHERE channel_id = ? ORDER BY created_at DESC LIMIT ?]. *)
Definition getMessagesByChannel (channel : jsstring) (limit : option Z)
  (db : Db) : list StoredMessage :=
  limit_rows (limit_or_default limit)
    (order_by_created
       (filter (fun m => JS.eqb (channelId m) channel) (messages db))).


(** Every reaction row has its parent row: the constraint
    [FOREIGN KEY (message_id) REFERENCES messages(message_id)]. *)
Definition references_ok (db : Db) : Prop :=
  forall r, In r (reactions db) -> hasMessage (r_messageId r) db = true.

(** Two records agree in every column but [is_reverted]. *)
Definition same_but_flag (a b : StoredMessage) : Prop :=
  messageId a = messageId b
  /\ channelId a = channelId b
  /\ guildId a = guildId b
  /\ authorId a = authorId b
  /\ authorTag a = authorTag b
  /\ originalContent a = originalContent b
  /\ convertedContent a = convertedContent b
  /\ originalLinks a = originalLinks b
  /\ convertedLinks a = convertedLinks b
  /\ botMessageId a = botMessageId b
  /\ createdAt a = createdAt b.

(** No two rows of [messages] share the primary key [message_id]. *)
Definition keys_unique (db : Db) : Prop :=
  NoDup (map messageId (messages db)).

(** The operations of the class that change the database, and the state
    each leaves behind (a statement that fails leaves it unchanged). *)
Inductive operation :=
| OpStoreMessage (m : MessageInput)
| OpMarkAsReverted (mid : jsstring)
| OpDeleteMessage (mid : jsstring)
| OpStoreReaction (r : ReactionObject)
| OpCleanup (now daysOld : Z).

Definition apply (op : operation) (db : Db) : Db :=
  match op with
  | OpStoreMessage m => storeMessage m db
  | OpMarkAsReverted mid => snd (markAsReverted mid db)
  | OpDeleteMessage mid => snd (deleteMessage mid db)
  | OpStoreReaction r => snd (storeReaction r db)
  | OpCleanup now daysOld => snd (cleanupOldMessages now daysOld db)
  end.

Definition run (ops : list operation) (db : Db) : Db :=
  fold_left (fun d op => apply op d) ops db.

End Ledger.

(** ** linkUtils.ts *)

Module LinkUtils.

(** The class [\s] of ECMAScript: white space and line terminators. *)
Definition is_space (c : char16) : bool :=
  existsb (N.eqb c)
    [9; 10; 11; 12; 13; 32; 160; 5760; 8232; 8233; 8239; 8287; 12288; 65279]%N
  || ((8192 <=? c)%N && (c <=? 8202)%N).

(** Canonicalisation of a code unit under flag [i] (without [u]).  The
    literals of the patterns below are ASCII; a code unit matches an ASCII
    literal exactly when it is that character in either case, which is what
    comparing these images decides. *)
Definition canonicalize (c : char16) : char16 :=
  if ((97 <=? c) && (c <=? 122))%N then (c - 32)%N else c.

Definition char_matches (p c : char16) : bool :=
  N.eqb (canonicalize p) (canonicalize c).

(** The regular expressions the module uses: literal runs, [r?], [r1|r2],
    concatenation and [[^\s]+].  Groups capture nothing that is read. *)
Inductive regex :=
| Lit (l : jsstring)
| Opt (r : regex)
| Alt (r1 r2 : regex)
| Seq (r1 r2 : regex)
| NotSpacePlus.

(** Backtracking matcher in continuation style: [k] matches what follows,
    the result is the input left after the whole match.  Quantifiers are
    greedy and alternatives are tried left to right. *)
Fixpoint match_lit (l s : jsstring) (k : jsstring -> option jsstring)
  : option jsstring :=
  match l with
  | [] => k s
  | p :: l' =>
      match s with
      | c :: s' => if char_matches p c then match_lit l' s' k else None
      | [] => None
      end
  end.

Fixpoint match_plus (s : jsstring) (k : jsstring -> option jsstring)
  : option jsstring :=
  match s with
  | [] => None
  | c :: s' =>
      if is_space c then None
      else match match_plus s' k with
           | Some rest => Some rest
           | None => k s'
           end
  end.

Fixpoint match_re (r : regex) (s : jsstring)
  (k : jsstring -> option jsstring) : option jsstring :=
  match r with
  | Lit l => match_lit l s k
  | Opt r1 =>
      match match_re r1 s k with
      | Some rest => Some rest
      | None => k s
      end
  | Alt r1 r2 =>
      match match_re r1 s k with
      | Some rest => Some rest
      | None => match_re r2 s k
      end
  | Seq r1 r2 => match_re r1 s (fun s' => match_re r2 s' k)
  | NotSpacePlus => match_plus s k
  end.

(** One attempt at the start of [s]: the input after the match. *)
Definition exec (r : regex) (s : jsstring) : option jsstring :=
  match_re r s Some.

Definition matched (s rest : jsstring) : jsstring :=
  firstn (length s - length rest) s.

(** [s.match(r)] for a global [r] whose [lastIndex] is 0: every match, left
    to right, each search resuming where the last match ended (one further
    after an empty match).  [skip] counts the code units of the last match
    still to be passed over.  No match gives the empty list, where
    JavaScript gives [null] and the callers push nothing. *)
Fixpoint scan (r : regex) (skip : nat) (s : jsstring) : list jsstring :=
  match s with
  | [] =>
      match skip, exec r [] with
      | 0, Some _ => [[]]
      | _, _ => []
      end
  | c :: s' =>
      match skip with
      | S n => scan r n s'
      | 0 =>
          match exec r s with
          | Some rest =>
              let m := matched s rest in
              m :: scan r (length m - 1) s'
          | None => scan r 0 s'
          end
      end
  end.

Definition matchAll (r : regex) (s : jsstring) : list jsstring :=
  scan r 0 s.

(** [s.replace(r, f)] for a global [r]: the same walk, each match replaced
    by [f] of it and everything else copied. *)
Fixpoint subst (r : regex) (f : jsstring -> jsstring) (skip : nat)
  (s : jsstring) : jsstring :=
  match s with
  | [] =>
      match skip, exec r [] with
      | 0, Some _ => f []
      | _, _ => []
      end
  | c :: s' =>
      match skip with
      | S n => subst r f n s'
      | 0 =>
          match exec r s with
          | Some rest =>
              match matched s rest with
              | [] => f [] ++ c :: subst r f 0 s'
              | m => f m ++ subst r f (length m - 1) s'
              end
          | None => c :: subst r f 0 s'
          end
      end
  end.

Definition replaceAll (r : regex) (f : jsstring -> jsstring) (s : jsstring)
  : jsstring :=
  subst r f 0 s.

(** [[...new Set(links)]]: the distinct elements in insertion order. *)
Fixpoint set_from (seen l : list jsstring) : list jsstring :=
  match l with
  | [] => []
  | x :: l' =>
      if existsb (JS.eqb x) seen then set_from seen l'
      else x :: set_from (x :: seen) l'
  end.

Definition scheme : regex := Seq (Lit (str "http")) (Opt (Lit (str "s"))).

(** [/https?:\/\/(www\.)?reddit\.com/gi] and
    [/https?:\/\/(old|new)\.reddit\.com/gi] *)
Definition HOST_WWW : regex :=
  Seq scheme (Seq (Lit (str "://"))
    (Seq (Opt (Lit (str "www."))) (Lit (str "reddit.com")))).

Definition HOST_OLD_NEW : regex :=
  Seq scheme (Seq (Lit (str "://"))
    (Seq (Alt (Lit (str "old")) (Lit (str "new")))
         (Lit (str ".reddit.com")))).

(** [REDDIT_PATTERNS]: the hosts followed by [\/r\/[^\s]+]. *)
Definition PATTERN_WWW : regex :=
  Seq HOST_WWW (Seq (Lit (str "/r/")) NotSpacePlus).

Definition PATTERN_OLD_NEW : regex :=
  Seq HOST_OLD_NEW (Seq (Lit (str "/r/")) NotSpacePlus).

Definition REDDIT_PATTERNS : list regex := [PATTERN_WWW; PATTERN_OLD_NEW].

(** [ROBOT_EMOJI], U+1F916 as its surrogate pair. *)
Definition ROBOT_EMOJI : jsstring := [55358; 56598]%N.

Definition RXDDIT : jsstring := str "https://rxddit.com".

(** [detectRedditLinks] *)
Definition detectRedditLinks (content : jsstring) : list jsstring :=
  let links :=
    fold_left (fun links pattern => links ++ matchAll pattern content)
              REDDIT_PATTERNS [] in
  set_from [] links.

(** [convertToRxddit] *)
Definition convertToRxddit (url : jsstring) : jsstring :=
  replaceAll HOST_OLD_NEW (fun _ => RXDDIT)
    (replaceAll HOST_WWW (fun _ => RXDDIT) url).

(** [convertMessageLinks] *)
Definition convertMessageLinks (content : jsstring) : jsstring :=
  fold_left (fun convertedContent pattern =>
               replaceAll pattern convertToRxddit convertedContent)
            REDDIT_PATTERNS content.

End LinkUtils.

(** ** [JSON.stringify] of an array of strings *)

Module Json.

(** A lower-case hexadecimal digit. *)
Definition hex_digit (n : N) : char16 :=
  if (n <? 10)%N then (48 + n)%N else (87 + n)%N.

(** [UnicodeEscape]: a backslash, the letter u and four hexadecimal
    digits. *)
Definition unicode_escape (c : char16) : jsstring :=
  [92; 117; hex_digit (c / 4096); hex_digit ((c / 256) mod 16);
   hex_digit ((c / 16) mod 16); hex_digit (c mod 16)]%N.

Definition is_leading_surrogate (c : char16) : bool :=
  ((55296 <=? c) && (c <=? 56319))%N.

Definition is_trailing_surrogate (c : char16) : bool :=
  ((56320 <=? c) && (c <=? 57343))%N.

(** The body of [QuoteJSONString]: the two-character escapes of the
    table, [UnicodeEscape] for the other code units below space and for a
    surrogate without its partner, and every other code point as it is. *)
Fixpoint quote_units (s : jsstring) : jsstring :=
  match s with
  | [] => []
  | c :: s' =>
      if (c =? 8)%N then [92; 98]%N ++ quote_units s'
      else if (c =? 9)%N then [92; 116]%N ++ quote_units s'
      else if (c =? 10)%N then [92; 110]%N ++ quote_units s'
      else if (c =? 12)%N then [92; 102]%N ++ quote_units s'
      else if (c =? 13)%N then [92; 114]%N ++ quote_units s'
      else if (c =? 34)%N then [92; 34]%N ++ quote_units s'
      else if (c =? 92)%N then [92; 92]%N ++ quote_units s'
      else if (c <? 32)%N then unicode_escape c ++ quote_units s'
      else if is_leading_surrogate c then
        match s' with
        | d :: s'' =>
            if is_trailing_surrogate d then c :: d :: quote_units s''
            else unicode_escape c ++ quote_units s'
        | [] => unicode_escape c
        end
      else if is_trailing_surrogate c then unicode_escape c ++ quote_units s'
      else c :: quote_units s'
  end.

Definition QuoteJSONString (s : jsstring) : jsstring :=
  34%N :: quote_units s ++ [34%N].

(** The elements of an array, separated by commas. *)
Fixpoint join_elements (l : list jsstring) : jsstring :=
  match l with
  | [] => []
  | [x] => x
  | x :: l' => x ++ 44%N :: join_elements l'
  end.

(** [JSON.stringify(a)] for an array [a] of strings, without indentation. *)
Definition stringify (a : list jsstring) : jsstring :=
  91%N :: join_elements (map QuoteJSONString a) ++ [93%N].

(** A reader for the texts [stringify] writes: an array of string
    literals with nothing between the tokens.  It is there to show that
    nothing is lost in writing; white space and the other JSON values are
    not texts it accepts. *)
Definition hex_value (c : char16) : option N :=
  if ((48 <=? c) && (c <=? 57))%N then Some (c - 48)%N
  else if ((97 <=? c) && (c <=? 102))%N then Some (c - 87)%N
  else None.

Definition unescape (e : char16) : option char16 :=
  if (e =? 98)%N then Some 8%N
  else if (e =? 116)%N then Some 9%N
  else if (e =? 110)%N then Some 10%N
  else if (e =? 102)%N then Some 12%N
  else if (e =? 114)%N then Some 13%N
  else if (e =? 34)%N then Some 34%N
  else if (e =? 92)%N then Some 92%N
  else None.

(** The code units of a string literal, read behind its opening quote, and
    what follows the closing quote. *)
Fixpoint read_units (s : jsstring) : option (jsstring * jsstring) :=
  match s with
  | [] => None
  | c :: s1 =>
      if (c =? 34)%N then Some ([], s1)
      else if (c =? 92)%N then
        match s1 with
        | [] => None
        | e :: s2 =>
            if (e =? 117)%N then
              match s2 with
              | h1 :: h2 :: h3 :: h4 :: s6 =>
                  match hex_value h1, hex_value h2, hex_value h3,
                        hex_value h4, read_units s6 with
                  | Some a, Some b, Some c', Some d, Some (t, rest) =>
                      Some ((4096 * a + 256 * b + 16 * c' + d)%N :: t, rest)
                  | _, _, _, _, _ => None
                  end
              | _ => None
              end
            else
              match unescape e, read_units s2 with
              | Some x, Some (t, rest) => Some (x :: t, rest)
              | _, _ => None
              end
        end
      else
        match read_units s1 with
        | Some (t, rest) => Some (c :: t, rest)
        | None => None
        end
  end.

(** The elements behind the opening quote of the first of them. *)
Fixpoint read_elements (fuel : nat) (s : jsstring)
  : option (list jsstring) :=
  match fuel with
  | 0 => None
  | S fuel' =>
      match read_units s with
      | Some (x, (93 :: [])%N) => Some [x]
      | Some (x, (44 :: 34 :: rest)%N) =>
          match read_elements fuel' rest with
          | Some l => Some (x :: l)
          | None => None
          end
      | _ => None
      end
  end.

Definition read_array (s : jsstring) : option (list jsstring) :=
  match s with
  | (91 :: 93 :: [])%N => Some []
  | (91 :: 34 :: s1)%N => read_elements (length s1) s1
  | _ => None
  end.

End Json.

(** ** bot.ts: the [MessageReactionAdd] handlers *)

Module Bot.
Import Ledger LinkUtils.

(** What the handlers read of [User | PartialUser] and of
    [MessageReaction | PartialMessageReaction].  [fetch_ok] tells whether
    [reaction.fetch()] of a partial reaction resolves. *)
Record User := {
  user_id : jsstring;
  user_tag : option jsstring;
  user_bot : bool
}.

Record Reaction := {
  partial : bool;
  fetch_ok : bool;
  emoji_name : option jsstring;
  message_id : jsstring
}.

(** How far a handler got.  After [Reverted] the handler goes on to the
    platform calls (delete the bot's message, remove the bot's reaction),
    which do not touch the database. *)
Inductive outcome :=
| Ignored
| NotAuthor
| AlreadyReverted
| Reverted
| Raised (e : exn).

Definition is_robot (name : option jsstring) : bool :=
  match name with
  | Some n => JS.eqb n ROBOT_EMOJI
  | None => false
  end.

(** The handler of the current [bot.ts]: the reaction is on the original
    message, the record is found by [getMessage], the reaction is stored
    under the property name [userId], and [markAsReverted] decides. *)
Definition onReactionAdd (reaction : Reaction) (user : User) (now : Z)
  (db : Db) : outcome * Db :=
  if user_bot user then (Ignored, db)
  else if partial reaction && negb (fetch_ok reaction) then (Ignored, db)
  else if negb (is_robot (emoji_name reaction)) then (Ignored, db)
  else
    let messageId := message_id reaction in
    match getMessage messageId db with
    | None => (Ignored, db)
    | Some storedMessage =>
        let isAuthorReaction :=
          JS.eqb (user_id user) (authorId storedMessage) in
        match storeReaction
                {| o_messageId := Some messageId;
                   o_odId := None;
                   o_userId := Some (user_id user);
                   o_userTag := Some (or_else (user_tag user) (str "Unknown"));
                   o_emoji := Some ROBOT_EMOJI;
                   o_reactedAt := Some now;
                   o_isRevertReaction := isAuthorReaction |} db with
        | (Throw e, db1) => (Raised e, db1)
        | (Ok _, db1) =>
            if negb isAuthorReaction then (NotAuthor, db1)
            else
              let (didRevert, db2) := markAsReverted messageId db1 in
              if didRevert then (Reverted, db2) else (AlreadyReverted, db2)
        end
    end.

(** The earlier handler kept in [bot.ts]: it reads [isReverted] first,
    stores the reaction under the property name [odId], and marks the
    record after the platform calls of the revert, which [platform_ok]
    stands for (a rejected call skips the rest of the [try] block). *)
Definition onReactionAdd_checked (reaction : Reaction) (user : User)
  (now : Z) (platform_ok : bool) (db : Db) : outcome * Db :=
  if user_bot user then (Ignored, db)
  else if partial reaction && negb (fetch_ok reaction) then (Ignored, db)
  else if negb (is_robot (emoji_name reaction)) then (Ignored, db)
  else
    let messageId := message_id reaction in
    match getMessage messageId db with
    | None => (Ignored, db)
    | Some storedMessage =>
        if isReverted storedMessage then (AlreadyReverted, db)
        else
          match storeReaction
                  {| o_messageId := Some messageId;
                     o_odId := Some (user_id user);
                     o_userId := None;
                     o_userTag :=
                       Some (or_else (user_tag user) (str "Unknown"));
                     o_emoji := Some ROBOT_EMOJI;
                     o_reactedAt := Some now;
                     o_isRevertReaction :=
                       JS.eqb (user_id user) (authorId storedMessage) |}
                  db with
          | (Throw e, db1) => (Raised e, db1)
          | (Ok _, db1) =>
              if negb (JS.eqb (user_id user) (authorId storedMessage))
              then (NotAuthor, db1)
              else if platform_ok
              then (Reverted, snd (markAsReverted messageId db1))
              else (Reverted, db1)
          end
    end.


(** *** The [MessageCreate] handler and the cleanup *)

(** What the handler reads of the [Message]. *)
Record Message := {
  m_id : jsstring;
  m_content : jsstring;
  m_author_id : jsstring;
  m_author_tag : jsstring;
  m_author_bot : bool;
  m_guild_id : option jsstring;
  m_channel_id : jsstring;
  m_channel_text_based : bool;
  m_channel_dm_based : bool
}.

(** What the platform answers while the handler runs: [client.user], whether
    the guild's member cache holds the bot, the two permission tests, the
    message [channel.send] resolves with (or its rejection), and whether
    [message.react] resolves. *)
Record Platform := {
  client_user : option jsstring;
  bot_member_cached : bool;
  can_send_messages : bool;
  send_result : option jsstring;
  can_add_reactions : bool;
  react_ok : bool
}.

(** What the handler brought about on the platform. *)
Inductive action :=
| Sent (channel text : jsstring)
| Reacted (message emoji : jsstring).

(** Where the handler stopped. *)
Inductive handled :=
| Skipped
| DirectMessage
| ChannelNotSupported
| BotUserMissing
| NoSendPermission
| Rejected
| Converted
| ConvertedWithoutReaction.

(** [`${message.author}`]: discord.js renders a user as its mention. *)
Definition mention (user : jsstring) : jsstring :=
  str "<@" ++ user ++ str ">".

(** The text of the bot's message,
    [`*${message.author} posted:*\n${convertedContent}`]. *)
Definition posted_text (author convertedContent : jsstring) : jsstring :=
  str "*" ++ mention author ++ str " posted:*" ++ 10%N :: convertedContent.

(** The handler of [MessageCreate] that answers with the converted text.
    A rejected platform call leaves the [try] block for its [catch], which
    only logs.  The handler does not read the ledger; [db] is the ledger at
    the time [channel.send] has resolved, when the record is written.  The
    earlier handler kept in [bot.ts] differs in one place: it asserts
    [client.user] instead of testing it, so that a missing user raises
    inside the [try] block, with the same actions and the same ledger. *)
Definition onMessageCreate (message : Message) (platform : Platform)
  (now : Z) (db : Db) : handled * list action * Db :=
  if m_author_bot message then (Skipped, [], db)
  else
    match m_content message with
    | [] => (Skipped, [], db)
    | _ :: _ =>
    let redditLinks := detectRedditLinks (m_content message) in
    match redditLinks with
    | [] => (Skipped, [], db)
    | _ :: _ =>
      let convertedContent := convertMessageLinks (m_content message) in
      let convertedLinks := map convertToRxddit redditLinks in
      match m_guild_id message with
      | None => (DirectMessage, [], db)
      | Some guild =>
        if negb (m_channel_text_based message) || m_channel_dm_based message
        then (ChannelNotSupported, [], db)
        else
          match client_user platform with
          | None => (BotUserMissing, [], db)
          | Some _ =>
            if negb (bot_member_cached platform)
               || negb (can_send_messages platform)
            then (NoSendPermission, [], db)
            else
              match send_result platform with
              | None => (Rejected, [], db)
              | Some botMessage =>
                let sent :=
                  Sent (m_channel_id message)
                       (posted_text (m_author_id message) convertedContent) in
                let db1 :=
                  storeMessage
                    {| in_messageId := m_id message;
                       in_channelId := m_channel_id message;
                       in_guildId := guild;
                       in_authorId := m_author_id message;
                       in_authorTag := m_author_tag message;
                       in_originalContent := m_content message;
                       in_convertedContent := convertedContent;
                       in_originalLinks := Json.stringify redditLinks;
                       in_convertedLinks := Json.stringify convertedLinks;
                       in_botMessageId := botMessage;
                       in_createdAt := now |} db in
                if can_add_reactions platform then
                  if react_ok platform
                  then (Converted,
                        [sent; Reacted (m_id message) ROBOT_EMOJI], db1)
                  else (Rejected, [sent], db1)
                else (ConvertedWithoutReaction, [sent], db1)
              end
          end
      end
    end
    end.

(** [MESSAGE_RETENTION_DAYS] *)
Definition MESSAGE_RETENTION_DAYS : Z := 30.

(** [runCleanup], with [now] the value of [Date.now()]: the number it
    logs, if it logs. *)
Definition runCleanup (now : Z) (db : Db) : result (option Z) * Db :=
  match cleanupOldMessages now MESSAGE_RETENTION_DAYS db with
  | (Ok deleted, db') =>
      (Ok (if (0 <? deleted)%Z then Some deleted else None), db')
  | (Throw e, db') => (Throw e, db')
  end.

End Bot.

(** ** Notions the properties of the link transformer are stated with *)

Module LinkSpec.
Import LinkUtils.

(** [in_order ms s]: the strings [ms] lie in [s] one after the other,
    without overlap, in this order. *)
Inductive in_order : list jsstring -> jsstring -> Prop :=
| in_order_nil (s : jsstring) : in_order [] s
| in_order_cons (gap m : jsstring) (ms : list jsstring) (rest : jsstring) :
    in_order ms rest -> in_order (m :: ms) (gap ++ m ++ rest).

(** Position of the first element equal to [x]. *)
Fixpoint first_index (x : jsstring) (l : list jsstring) : option nat :=
  match l with
  | [] => None
  | y :: l' =>
      if JS.eqb x y then Some 0 else option_map S (first_index x l')
  end.

(** Both occur in [l] and [a] comes first. *)
Definition precedes (a b : jsstring) (l : list jsstring) : Prop :=
  match first_index a l, first_index b l with
  | Some i, Some j => i < j
  | _, _ => False
  end.

Fixpoint is_prefix (a s : jsstring) : bool :=
  match a, s with
  | [], _ => true
  | x :: a', c :: s' => N.eqb x c && is_prefix a' s'
  | _ :: _, [] => false
  end.

(** Where [a] first occurs in the text [s]. *)
Fixpoint first_occurrence (a s : jsstring) : option nat :=
  if is_prefix a s then Some 0
  else match s with
       | [] => None
       | _ :: s' => option_map S (first_occurrence a s')
       end.

(** A text cut into its recognized links and the code units between them:
    at each position the patterns are tried in the order of
    [REDDIT_PATTERNS], a link runs as far as its pattern matches, and the
    search resumes behind it. *)
Inductive segment :=
| Gap (c : char16)
| Link (m : jsstring).

Definition exec_any (s : jsstring) : option jsstring :=
  match exec PATTERN_WWW s with
  | Some rest => Some rest
  | None => exec PATTERN_OLD_NEW s
  end.

Fixpoint segments_from (skip : nat) (s : jsstring) : list segment :=
  match s with
  | [] => []
  | c :: s' =>
      match skip with
      | S n => segments_from n s'
      | 0 =>
          match exec_any s with
          | Some rest =>
              Link (matched s rest)
                :: segments_from (length (matched s rest) - 1) s'
          | None => Gap c :: segments_from 0 s'
          end
      end
  end.

Definition segments (s : jsstring) : list segment := segments_from 0 s.

Definition text_of (g : segment) : jsstring :=
  match g with
  | Gap c => [c]
  | Link m => m
  end.

(** A text ends or goes on with white space. *)
Definition boundary (s : jsstring) : bool :=
  match s with
  | [] => true
  | c :: _ => is_space c
  end.

Definition nonspace (c : char16) : Prop := is_space c = false.

(** A text starts with the letter [h] in either case. *)
Definition hstart (s : jsstring) : bool :=
  match s with
  | [] => false
  | c :: _ => char_matches 104%N c
  end.

(** [rejects x r]: no literal of [r] matches the code unit [x], and
    [[^\s]+] does not either. *)
Fixpoint rejects (x : char16) (r : regex) : bool :=
  match r with
  | Lit l => forallb (fun p => negb (char_matches p x)) l
  | Opt r1 => rejects x r1
  | Alt r1 r2 | Seq r1 r2 => rejects x r1 && rejects x r2
  | NotSpacePlus => is_space x
  end.

(** No literal of [r] matches white space. *)
Fixpoint nonspace_lits (r : regex) : bool :=
  match r with
  | Lit l => forallb (fun p => negb (is_space (canonicalize p))) l
  | Opt r1 => nonspace_lits r1
  | Alt r1 r2 | Seq r1 r2 => nonspace_lits r1 && nonspace_lits r2
  | NotSpacePlus => true
  end.

(** No match of [r] starts in [u] when [u] is followed by [v]. *)
Fixpoint quiet (r : regex) (u v : jsstring) : Prop :=
  match u with
  | [] => True
  | c :: u' => exec r (c :: u' ++ v) = None /\ quiet r u' v
  end.

(** What each pattern asks for after its first letter. *)
Definition scheme_tail : regex :=
  Seq (Lit (str "ttp")) (Opt (Lit (str "s"))).

Definition HOST_WWW_tail : regex :=
  Seq scheme_tail (Seq (Lit (str "://"))
    (Seq (Opt (Lit (str "www."))) (Lit (str "reddit.com")))).

Definition HOST_OLD_NEW_tail : regex :=
  Seq scheme_tail (Seq (Lit (str "://"))
    (Seq (Alt (Lit (str "old")) (Lit (str "new")))
         (Lit (str ".reddit.com")))).

Definition is_some {A} (o : option A) : bool :=
  match o with Some _ => true | None => false end.

Definition LINK_WWW_tail : regex := Seq HOST_WWW_tail (Lit (str "/r/")).
Definition LINK_OLD_NEW_tail : regex := Seq HOST_OLD_NEW_tail (Lit (str "/r/")).

(** [Q] asks for the letter h and then for a pattern without that letter,
    followed by [[^\s]+] when [plus]. *)
Definition h_initial (Q : regex) (plus : bool) : Prop :=
  (forall k, match_re Q [] k = None)
  /\ exists L,
       (forall c s k,
          match_re Q (c :: s) k
          = if char_matches 104%N c
            then match_re L s
                   (fun t => if plus then match_plus t k else k t)
            else None)
       /\ rejects 104%N L = true /\ rejects 72%N L = true.

(** What the proofs below use of a pattern of [REDDIT_PATTERNS]. *)
Definition link_pattern (P : regex) : Prop :=
  nonspace_lits P = true /\ h_initial P true.

(** And of a host pattern of [convertToRxddit]: it matches nowhere in
    the replacement, whatever follows. *)
Definition host_pattern (H : regex) : Prop :=
  h_initial H false /\ forall v, quiet H RXDDIT v.

(** [r] matches a text in at most one way: what it leaves to its
    continuation does not depend on the continuation, so backtracking
    into [r] finds nothing new. *)
Definition unambiguous (r : regex) : Prop :=
  forall s k,
    match_re r s k = match exec r s with Some t => k t | None => None end.

(** What [convertMessageLinks] is to put in the place of a segment. *)
Definition render (g : segment) : jsstring :=
  match g with
  | Gap c => [c]
  | Link m => convertToRxddit m
  end.

Definition segment_eq_dec : forall a b : segment, {a = b} + {a <> b}.
Proof.
  decide equality; [apply N.eq_dec | apply JS.eq_dec].
Defined.

End LinkSpec.

(** ** Sample data *)

Module Sample.
Import Ledger.

Definition message (mid author bot : string) (at_ : Z) : MessageInput := {|
  in_messageId := str mid;
  in_channelId := str "channel";
  in_guildId := str "guild";
  in_authorId := str author;
  in_authorTag := str "Author#0001";
  in_originalContent := str "https://reddit.com/r/test";
  in_convertedContent := str "https://rxddit.com/r/test";
  in_originalLinks := str "[]";
  in_convertedLinks := str "[]";
  in_botMessageId := str bot;
  in_createdAt := at_
|}.

Definition reaction (mid user : string) (at_ : Z) (revert : bool)
  : ReactionInput := {|
  ri_messageId := str mid;
  ri_odId := str user;
  ri_userTag := str "User#0001";
  ri_emoji := LinkUtils.ROBOT_EMOJI;
  ri_reactedAt := at_;
  ri_isRevertReaction := revert
|}.

(** One tracked message ["m1"] written by ["u1"]. *)
Definition one_message : Db := storeMessage (message "m1" "u1" "b1" 1000) fresh.


(** An old message with two reactions and a recent one with one. *)
Definition old_and_new : Db :=
  snd (storeReaction (object_of_input (reaction "new" "u4" 9100 false))
  (snd (storeReaction (object_of_input (reaction "old" "u3" 1200 false))
  (snd (storeReaction (object_of_input (reaction "old" "u2" 1100 false))
  (storeMessage (message "new" "u1" "b2" 9000)
  (storeMessage (message "old" "u1" "b1" 1000) fresh))))))).

End Sample.

(** * Properties *)

(** ** Strings *)

Lemma jseqb_eq (a b : jsstring) : JS.eqb a b = true <-> a = b.
Proof.
  revert b; induction a as [|x a IH]; intros [|y b]; simpl;
    try (split; intro H; [discriminate || reflexivity | discriminate || reflexivity]).
  rewrite andb_true_iff, N.eqb_eq, IH.
  split; [intros [-> ->]; reflexivity | intro H; inversion H; auto].
Qed.

Lemma jseqb_refl (a : jsstring) : JS.eqb a a = true.
Proof. apply jseqb_eq; reflexivity. Qed.

Lemma jseqb_neq (a b : jsstring) : JS.eqb a b = false <-> a <> b.
Proof.
  rewrite <- jseqb_eq. destruct (JS.eqb a b); split; congruence.
Qed.

Lemma jseqb_sym (a b : jsstring) : JS.eqb a b = JS.eqb b a.
Proof.
  destruct (JS.eqb a b) eqn:E.
  - apply jseqb_eq in E; subst; symmetry; apply jseqb_refl.
  - destruct (JS.eqb b a) eqn:E'; [|reflexivity].
    apply jseqb_eq in E'; subst. rewrite jseqb_refl in E; discriminate.
Qed.

(** ** The ledger *)

Module LedgerTheory.
Import Ledger.

Lemma has_id_true mid m : has_id mid m = true <-> messageId m = mid.
Proof. apply jseqb_eq. Qed.

Lemma has_id_row m : has_id (in_messageId m) (row_of_input m) = true.
Proof. apply jseqb_refl. Qed.

Lemma has_id_set_reverted mid m :
  has_id mid (set_reverted m) = has_id mid m.
Proof. reflexivity. Qed.

Lemma filter_none {A} (f : A -> bool) (l : list A) :
  filter f (filter (fun x => negb (f x)) l) = [].
Proof.
  induction l as [|x l IH]; simpl; [reflexivity|].
  destruct (f x) eqn:E; simpl; [assumption|].
  rewrite E; assumption.
Qed.

Lemma find_filter_none {A} (f : A -> bool) (l : list A) :
  find f (filter (fun x => negb (f x)) l) = None.
Proof.
  induction l as [|x l IH]; simpl; [reflexivity|].
  destruct (f x) eqn:E; simpl; [assumption|].
  rewrite E; assumption.
Qed.

Lemma find_app_none {A} (f : A -> bool) (l1 l2 : list A) :
  find f l1 = None -> find f (l1 ++ l2) = find f l2.
Proof.
  induction l1 as [|x l1 IH]; simpl; [reflexivity|].
  destruct (f x); [discriminate | exact IH].
Qed.

Lemma existsb_filter_length {A} (f : A -> bool) (l : list A) :
  Nat.ltb 0 (length (filter f l)) = existsb f l.
Proof.
  induction l as [|x l IH]; simpl; [reflexivity|].
  destruct (f x); simpl; [reflexivity | exact IH].
Qed.

(** What [storeMessage] leaves under the key it wrote. *)
Lemma storeMessage_one_row m db :
  filter (has_id (in_messageId m)) (messages (storeMessage m db))
  = [row_of_input m].
Proof.
  unfold storeMessage; simpl.
  rewrite filter_app, filter_none; simpl.
  now rewrite has_id_row.
Qed.

Lemma storeMessage_getMessage m db :
  getMessage (in_messageId m) (storeMessage m db) = Some (row_of_input m).
Proof.
  unfold getMessage, storeMessage; simpl.
  rewrite find_app_none by apply find_filter_none.
  simpl. now rewrite has_id_row.
Qed.

(** [markAsReverted] answers whether the key is present. *)
Lemma markAsReverted_result mid db :
  fst (markAsReverted mid db) = hasMessage mid db.
Proof. apply existsb_filter_length. Qed.

(** C2.  Storing [r1] and then [r2] under the same message id, with or
    without a revert in between and from any database, leaves exactly one
    row for that id; it holds the values of [r2], column by column, and is
    not reverted. *)
Theorem storeMessage_replaces (db : Db) (r1 r2 : MessageInput)
    (revert_between : bool) :
  in_messageId r1 = in_messageId r2 ->
  let db1 := storeMessage r1 db in
  let db2 :=
    if revert_between then snd (markAsReverted (in_messageId r1) db1)
    else db1 in
  let db3 := storeMessage r2 db2 in
  exists m,
    filter (fun x => JS.eqb (messageId x) (in_messageId r2)) (messages db3)
    = [m]
    /\ getMessage (in_messageId r2) db3 = Some m
    /\ messageId m = in_messageId r2
    /\ channelId m = in_channelId r2
    /\ guildId m = in_guildId r2
    /\ authorId m = in_authorId r2
    /\ authorTag m = in_authorTag r2
    /\ originalContent m = in_originalContent r2
    /\ convertedContent m = in_convertedContent r2
    /\ originalLinks m = in_originalLinks r2
    /\ convertedLinks m = in_convertedLinks r2
    /\ botMessageId m = in_botMessageId r2
    /\ createdAt m = in_createdAt r2
    /\ isReverted m = false
    /\ (revert_between = true ->
        option_map isReverted (getMessage (in_messageId r1) db2) = Some true).
Proof.
  intros Hid db1 db2 db3. subst db3.
  exists (row_of_input r2).
  split; [exact (storeMessage_one_row r2 db2)|].
  split; [apply storeMessage_getMessage|].
  do 12 (split; [reflexivity|]).
  intros ->. subst db2 db1. unfold getMessage, markAsReverted; simpl.
  rewrite map_app, find_app_none.
  + cbn [map find]. rewrite has_id_row.
    cbn [find]. rewrite has_id_set_reverted, has_id_row. reflexivity.
  + induction (messages db) as [|x l IH]; simpl; [reflexivity|].
    destruct (has_id (in_messageId r1) x) eqn:E; simpl; [exact IH|].
    rewrite E. rewrite E. exact IH.
Qed.


Lemma hasMessage_markAsReverted mid mid' db :
  hasMessage mid (snd (markAsReverted mid' db)) = hasMessage mid db.
Proof.
  unfold hasMessage, markAsReverted; cbn [snd messages].
  induction (messages db) as [|x l IH]; [reflexivity|].
  cbn [map existsb]. rewrite IH. f_equal.
  destruct (has_id mid' x); [apply has_id_set_reverted | reflexivity].
Qed.

Lemma hasMessage_storeMessage m db :
  hasMessage (in_messageId m) (storeMessage m db) = true.
Proof.
  unfold hasMessage, storeMessage; cbn [messages].
  rewrite existsb_app. cbn [existsb]. rewrite has_id_row.
  now rewrite orb_true_r.
Qed.

Lemma getMessage_markAsReverted mid db :
  getMessage mid (snd (markAsReverted mid db))
  = option_map set_reverted (getMessage mid db).
Proof.
  unfold getMessage, markAsReverted; cbn [snd messages].
  induction (messages db) as [|x l IH]; [reflexivity|].
  cbn [map find]. destruct (has_id mid x) eqn:E.
  - rewrite has_id_set_reverted, E. reflexivity.
  - rewrite E. exact IH.
Qed.

(** C1, as the code has it.  On a record just stored, the first
    [markAsReverted] returns true and marks the record, and the second call
    on the now reverted record returns true again. *)
Theorem markAsReverted_again_true (m : MessageInput) (db : Db) :
  let mid := in_messageId m in
  let first := markAsReverted mid (storeMessage m db) in
  let second := markAsReverted mid (snd first) in
  fst first = true
  /\ option_map isReverted (getMessage mid (snd first)) = Some true
  /\ fst second = true.
Proof.
  cbv zeta. repeat split.
  - rewrite markAsReverted_result. apply hasMessage_storeMessage.
  - rewrite getMessage_markAsReverted, storeMessage_getMessage. reflexivity.
  - rewrite markAsReverted_result, hasMessage_markAsReverted.
    apply hasMessage_storeMessage.
Qed.

(** The same at the sample record. *)
Example markAsReverted_m1_twice :
  let first := markAsReverted (str "m1") Sample.one_message in
  fst first = true /\ fst (markAsReverted (str "m1") (snd first)) = true.
Proof. vm_compute. split; reflexivity. Qed.



(** C10.  After any sequence of ledger operations, from any database,
    [getStats] never reports more reverted records than records. *)
Theorem getStats_reverted_le_total (ops : list operation) (db : Db) :
  let stats := getStats (run ops db) in
  revertedCount stats <= totalMessages stats.
Proof.
  cbv zeta. unfold getStats; cbn [revertedCount totalMessages].
  generalize (messages (run ops db)) as l.
  induction l as [|x l IH]; simpl; [lia|].
  destruct (isReverted x); simpl; lia.
Qed.

(** The counts follow the operations: a worked run. *)
Example getStats_after_run :
  getStats (run [OpStoreMessage (Sample.message "m1" "u1" "b1" 1);
                 OpStoreMessage (Sample.message "m2" "u1" "b2" 2);
                 OpMarkAsReverted (str "m1");
                 OpMarkAsReverted (str "m1");
                 OpStoreReaction
                   (object_of_input (Sample.reaction "m1" "u1" 3 true))]
                fresh)
  = {| totalMessages := 2; totalReactions := 1; revertedCount := 1 |}.
Proof. vm_compute. reflexivity. Qed.


Lemma storeMessage_replaces_sample :
  let r1 := Sample.message "m1" "u1" "b1" 1000 in
  let r2 := Sample.message "m1" "u9" "b7" 5000 in
  in_messageId r1 = in_messageId r2
  /\ getMessage (str "m1")
       (storeMessage r2
          (snd (markAsReverted (str "m1") (storeMessage r1 fresh))))
     = Some {| messageId := str "m1";
               channelId := str "channel";
               guildId := str "guild";
               authorId := str "u9";
               authorTag := str "Author#0001";
               originalContent := str "https://reddit.com/r/test";
               convertedContent := str "https://rxddit.com/r/test";
               originalLinks := str "[]";
               convertedLinks := str "[]";
               botMessageId := str "b7";
               createdAt := 5000;
               isReverted := false |}.
Proof.
  split; [reflexivity|].
  destruct (storeMessage_replaces fresh
              (Sample.message "m1" "u1" "b1" 1000)
              (Sample.message "m1" "u9" "b7" 5000) true eq_refl)
    as (m & _ & G & E1 & E2 & E3 & E4 & E5 & E6 & E7 & E8 & E9 & E10 & E11
          & E12 & _).
  etransitivity; [exact G|].
  destruct m. cbn in E1, E2, E3, E4, E5, E6, E7, E8, E9, E10, E11, E12.
  subst. reflexivity.
Defined.

(** *** Reactions *)

Lemma max_id_ge (rs : list StoredReaction) (x : StoredReaction) :
  In x rs -> (id x <= max_id rs)%Z.
Proof.
  induction rs as [|y rs IH]; simpl; [tauto|].
  intros [->|H]; [lia|]. specialize (IH H). lia.
Qed.

Lemma storeReaction_typed (r : ReactionInput) (db : Db) :
  storeReaction (object_of_input r) db
  = if foreign_keys db && negb (hasMessage (ri_messageId r) db)
    then (Throw ForeignKeyConstraint, db)
    else (Ok (next_id db),
          {| messages := messages db;
             reactions := reactions db ++ [row_of_reaction (next_id db) r];
             reaction_seq := next_id db;
             foreign_keys := foreign_keys db |}).
Proof. reflexivity. Qed.

(** With foreign keys enforced, a reaction for a message that is not in
    the ledger is rejected and nothing is written. *)
Lemma storeReaction_unknown_message (r : ReactionInput) (db : Db) :
  foreign_keys db = true ->
  hasMessage (ri_messageId r) db = false ->
  storeReaction (object_of_input r) db = (Throw ForeignKeyConstraint, db).
Proof.
  intros Hfk Hno. rewrite storeReaction_typed, Hfk, Hno. reflexivity.
Qed.

(** C9, the claim as stated fails: on the new database a reaction for a
    message that was never recorded raises and adds no row. *)
Lemma storeReaction_can_throw :
  ~ (forall (r : ReactionInput) (db : Db),
       exists n db', storeReaction (object_of_input r) db = (Ok n, db')).
Proof.
  intro H.
  destruct (H (Sample.reaction "ghost" "u2" 1 false) fresh) as (n & db' & E).
  rewrite storeReaction_unknown_message in E by reflexivity.
  discriminate E.
Qed.

(** C9, amended.  When the referenced record is in the ledger, reverted
    or not (or when the connection does not enforce foreign keys),
    [storeReaction] returns a new identifier and appends exactly one row
    holding the argument's values; the rows already there and the messages
    are left as they were. *)
Theorem storeReaction_appends (r : ReactionInput) (db : Db) :
  foreign_keys db = false \/ hasMessage (ri_messageId r) db = true ->
  let res := storeReaction (object_of_input r) db in
  fst res = Ok (next_id db)
  /\ reactions (snd res) = reactions db ++ [row_of_reaction (next_id db) r]
  /\ messages (snd res) = messages db
  /\ (forall x, In x (reactions db) -> (id x < next_id db)%Z).
Proof.
  intros H. cbv zeta. rewrite storeReaction_typed.
  assert (E : foreign_keys db && negb (hasMessage (ri_messageId r) db) = false).
  { destruct H as [-> | ->]; [reflexivity | apply andb_false_r]. }
  rewrite E. cbn [fst snd reactions messages].
  repeat split.
  intros x Hin. apply max_id_ge in Hin. unfold next_id. lia.
Qed.

Lemma storeReaction_appends_reverted :
  let db := snd (markAsReverted (str "m1") Sample.one_message) in
  let r := Sample.reaction "m1" "u2" 7 false in
  hasMessage (ri_messageId r) db = true
  /\ option_map isReverted (getMessage (str "m1") db) = Some true
  /\ fst (storeReaction (object_of_input r) db) = Ok 1%Z.
Proof.
  split; [reflexivity|]. split; [reflexivity|].
  apply (storeReaction_appends (Sample.reaction "m1" "u2" 7 false)
           (snd (markAsReverted (str "m1") Sample.one_message))).
  right; reflexivity.
Defined.


(** *** Retention cleanup *)

Lemma existsb_map {A B} (f : B -> bool) (g : A -> B) (l : list A) :
  existsb f (map g l) = existsb (fun x => f (g x)) l.
Proof. induction l as [|x l IH]; simpl; [reflexivity | now rewrite IH]. Qed.

Lemma existsb_all_false {A} (f : A -> bool) (l : list A) :
  (forall x, In x l -> f x = false) -> existsb f l = false.
Proof.
  induction l as [|x l IH]; simpl; intros H; [reflexivity|].
  rewrite (H x (or_introl eq_refl)), IH; auto.
Qed.

(** The second statement never trips the foreign key: the first one has
    removed every reaction of the rows it deletes. *)
Lemma cleanupOldMessages_eq (now daysOld : Z) (db : Db) :
  let cutoff := cutoffTime now daysOld in
  cleanupOldMessages now daysOld db
  = (Ok (Z.of_nat (length (filter (older_than cutoff) (messages db)))),
     {| messages := filter (fun m => negb (older_than cutoff m)) (messages db);
        reactions := filter (survives cutoff db) (reactions db);
        reaction_seq := reaction_seq db;
        foreign_keys := foreign_keys db |}).
Proof.
  cbv zeta. unfold cleanupOldMessages. cbn [messages reactions foreign_keys reaction_seq].
  match goal with
  | |- (if _ && ?c then _ else _) = _ => assert (E : c = false)
  end.
  { apply existsb_all_false. intros r Hin.
    apply filter_In in Hin. destruct Hin as [_ Hs].
    apply negb_true_iff in Hs. rewrite existsb_map in Hs.
    unfold refers_to. rewrite Hs. reflexivity. }
  rewrite E, andb_false_r. reflexivity.
Qed.

Lemma insert_by_time_In r l x :
  In x (insert_by_time r l) <-> x = r \/ In x l.
Proof.
  induction l as [|y l IH]; simpl; [intuition congruence|].
  destruct (reactedAt r <? reactedAt y)%Z; simpl; rewrite ?IH;
    intuition congruence.
Qed.

Lemma order_by_time_In l x : In x (order_by_time l) <-> In x l.
Proof.
  unfold order_by_time.
  enough (H : forall acc, In x (fold_left (fun a r => insert_by_time r a) l acc)
                          <-> In x l \/ In x acc).
  { rewrite H. simpl. tauto. }
  induction l as [|y l IH]; intros acc; simpl; [tauto|].
  rewrite IH, insert_by_time_In. intuition congruence.
Qed.

Lemma filter_filter_same {A} (f g : A -> bool) (l : list A) :
  (forall x, In x l -> f x = true -> g x = true) ->
  filter f (filter g l) = filter f l.
Proof.
  induction l as [|x l IH]; simpl; intros H; [reflexivity|].
  destruct (g x) eqn:G; simpl.
  - destruct (f x); rewrite IH; auto.
  - destruct (f x) eqn:F.
    + rewrite (H x (or_introl eq_refl) F) in G. discriminate.
    + apply IH; auto.
Qed.

Lemma filter_filter_none {A} (f g : A -> bool) (l : list A) :
  (forall x, In x l -> f x = true -> g x = false) ->
  filter f (filter g l) = [].
Proof.
  induction l as [|x l IH]; simpl; intros H; [reflexivity|].
  destruct (g x) eqn:G; simpl.
  - destruct (f x) eqn:F.
    + rewrite (H x (or_introl eq_refl) F) in G. discriminate.
    + apply IH; auto.
  - apply IH; auto.
Qed.

Lemma survives_false cutoff db r :
  survives cutoff db r = false <->
  exists m, In m (messages db) /\ older_than cutoff m = true
            /\ messageId m = r_messageId r.
Proof.
  unfold survives. rewrite negb_false_iff, existsb_map, existsb_exists.
  split.
  - intros (m & Hin & E). apply filter_In in Hin. apply jseqb_eq in E.
    exists m. intuition congruence.
  - intros (m & Hin & Hold & E). exists m. split.
    + apply filter_In; auto.
    + apply jseqb_eq; congruence.
Qed.

(** The cleanup keeps every remaining reaction's record. *)
Lemma cleanupOldMessages_references_ok (now daysOld : Z) (db : Db) :
  references_ok db ->
  references_ok (snd (cleanupOldMessages now daysOld db)).
Proof.
  rewrite cleanupOldMessages_eq. cbn [snd].
  intros Hok r Hr. cbn [reactions] in Hr. apply filter_In in Hr.
  destruct Hr as [Hin Hs].
  specialize (Hok r Hin). unfold hasMessage in *. cbn [messages].
  apply existsb_exists in Hok. destruct Hok as (m & Hm & Hid).
  apply existsb_exists. exists m. split; [|exact Hid].
  apply filter_In. split; [exact Hm|].
  destruct (older_than (cutoffTime now daysOld) m) eqn:Hold; [|reflexivity].
  assert (F : survives (cutoffTime now daysOld) db r = false).
  { apply survives_false. exists m. apply has_id_true in Hid. auto. }
  congruence.
Qed.

(** On any database: [cleanupOldMessages] does not fail and returns the
    number of records created before the cutoff; afterwards exactly the
    records not older than the cutoff remain, in their order; a purged id
    has no reactions left; the reactions of an id none of whose records was
    purged are returned as before; and if every reaction had its record
    before, every reaction has its record after. *)
Lemma cleanupOldMessages_any (now daysOld : Z) (db : Db) :
  let cutoff := cutoffTime now daysOld in
  let res := cleanupOldMessages now daysOld db in
  fst res = Ok (Z.of_nat (length (filter (older_than cutoff) (messages db))))
  /\ messages (snd res)
     = filter (fun m => negb (older_than cutoff m)) (messages db)
  /\ (forall m, In m (messages db) -> older_than cutoff m = true ->
        ~ In m (messages (snd res))
        /\ getReactions (messageId m) (snd res) = []
        /\ forall r, In r (reactions (snd res)) ->
                     r_messageId r <> messageId m)
  /\ (forall m, In m (messages db) -> older_than cutoff m = false ->
        In m (messages (snd res)))
  /\ (forall mid,
        (forall m, In m (messages db) -> messageId m = mid ->
                   older_than cutoff m = false) ->
        getReactions mid (snd res) = getReactions mid db)
  /\ (references_ok db -> references_ok (snd res)).
Proof.
  cbv zeta. rewrite cleanupOldMessages_eq. cbn [fst snd messages].
  split; [reflexivity|]. split; [reflexivity|].
  split; [|split; [|split]].
  - intros m Hin Hold. split; [|split].
    + intros H. apply filter_In in H. rewrite Hold in H. now destruct H.
    + unfold getReactions; cbn [reactions].
      rewrite filter_filter_none; [reflexivity|].
      intros r _ Hr. apply survives_false. exists m.
      unfold refers_to in Hr. apply jseqb_eq in Hr. auto.
    + cbn [reactions]. intros r Hr E. apply filter_In in Hr.
      destruct Hr as [_ Hs].
      assert (F : survives (cutoffTime now daysOld) db r = false).
      { apply survives_false. exists m. auto. }
      congruence.
  - intros m Hin Hold. apply filter_In. now rewrite Hold.
  - intros mid H. unfold getReactions; cbn [reactions].
    rewrite filter_filter_same; [reflexivity|].
    intros r _ Hr. unfold refers_to in Hr. apply jseqb_eq in Hr.
    destruct (survives (cutoffTime now daysOld) db r) eqn:S; [reflexivity|].
    apply survives_false in S. destruct S as (m & Hin & Hold & E).
    rewrite (H m Hin) in Hold by congruence. discriminate.
  - intros Hok.
    pose proof (cleanupOldMessages_references_ok now daysOld Hok) as H.
    now rewrite cleanupOldMessages_eq in H.
Qed.

(** The cascading purge of the specification at the sample ledger: the old
    record and its two reactions go, the recent record and its reaction
    stay. *)
Example cleanupOldMessages_sample :
  let res := cleanupOldMessages 500 0 Sample.old_and_new in
  fst res = Ok 0%Z
  /\ let res' := cleanupOldMessages (5000 + 30 * 86400000) 30
                   Sample.old_and_new in
     fst res' = Ok 1%Z
     /\ getReactions (str "old") (snd res') = []
     /\ hasMessage (str "old") (snd res') = false
     /\ hasMessage (str "new") (snd res') = true
     /\ length (getReactions (str "new") (snd res')) = 1.
Proof. vm_compute. repeat split; reflexivity. Qed.


(** *** Referential integrity of reachable ledgers *)

Lemma apply_foreign_keys op db : foreign_keys (apply op db) = foreign_keys db.
Proof.
  destruct op as [m|mid|mid|r|now d]; cbn [apply]; try reflexivity.
  - unfold deleteMessage.
    destruct (_ && _); reflexivity.
  - unfold storeReaction.
    destruct (o_messageId r), (o_odId r), (o_userTag r), (o_emoji r),
      (o_reactedAt r); try reflexivity.
    destruct (_ && _); reflexivity.
  - pose proof (cleanupOldMessages_eq now d db) as E. cbv zeta in E.
    rewrite E. reflexivity.
Qed.

Lemma existsb_filter_keep {A} (f g : A -> bool) (l : list A) :
  (forall x, In x l -> f x = true -> g x = true) ->
  existsb f (filter g l) = existsb f l.
Proof.
  induction l as [|x l IH]; simpl; intros H; [reflexivity|].
  destruct (g x) eqn:G; simpl.
  - rewrite IH; auto.
  - destruct (f x) eqn:F.
    + rewrite (H x (or_introl eq_refl) F) in G. discriminate.
    + apply IH; auto.
Qed.

Lemma existsb_false_In {A} (f : A -> bool) (l : list A) :
  existsb f l = false -> forall x, In x l -> f x = false.
Proof.
  intros H x Hx. destruct (f x) eqn:E; [|reflexivity].
  assert (C : existsb f l = true) by (apply existsb_exists; eauto).
  congruence.
Qed.

Lemma hasMessage_storeMessage_mono mid m db :
  hasMessage mid db = true -> hasMessage mid (storeMessage m db) = true.
Proof.
  unfold hasMessage, storeMessage; cbn [messages]. intros H.
  rewrite existsb_app; cbn [existsb]. rewrite orb_false_r.
  destruct (JS.eq_dec mid (in_messageId m)) as [->|Hne].
  - rewrite has_id_row. apply orb_true_r.
  - rewrite existsb_filter_keep; [now rewrite H|].
    intros x _ Hx. apply has_id_true in Hx. apply negb_true_iff.
    destruct (has_id (in_messageId m) x) eqn:E; [|reflexivity].
    apply has_id_true in E. congruence.
Qed.

Lemma apply_references_ok op db :
  foreign_keys db = true -> references_ok db -> references_ok (apply op db).
Proof.
  intros Hfk Hok.
  destruct op as [m|mid|mid|r|now d]; cbn [apply].
  - intros x Hx. apply hasMessage_storeMessage_mono. now apply Hok.
  - intros x Hx. rewrite hasMessage_markAsReverted. now apply Hok.
  - unfold deleteMessage. rewrite Hfk, existsb_filter_length. cbn [andb].
    destruct (existsb (has_id mid) (messages db)) eqn:Hm; cbn [andb].
    + destruct (existsb (refers_to mid) (reactions db)) eqn:Hr;
        cbn [snd]; [exact Hok|].
      intros x Hx. cbn [reactions] in Hx.
      unfold hasMessage; cbn [messages].
      rewrite existsb_filter_keep; [now apply Hok|].
      intros y _ Hy. apply has_id_true in Hy. apply negb_true_iff.
      destruct (has_id mid y) eqn:E; [|reflexivity].
      apply has_id_true in E.
      assert (F : refers_to mid x = true).
      { apply jseqb_eq. congruence. }
      rewrite (existsb_false_In _ _ Hr x Hx) in F. discriminate.
    + cbn [snd]. intros x Hx. cbn [reactions] in Hx.
      unfold hasMessage; cbn [messages].
      rewrite existsb_filter_keep; [now apply Hok|].
      intros y Hy Hy'. apply negb_true_iff.
      destruct (has_id mid y) eqn:E; [|reflexivity].
      assert (C : existsb (has_id mid) (messages db) = true)
        by (apply existsb_exists; eauto).
      congruence.
  - unfold storeReaction.
    destruct (o_messageId r) as [mid|]; [|exact Hok].
    destruct (o_odId r); [|exact Hok].
    destruct (o_userTag r); [|exact Hok].
    destruct (o_emoji r); [|exact Hok].
    destruct (o_reactedAt r); [|exact Hok].
    rewrite Hfk. cbn [andb].
    destruct (hasMessage mid db) eqn:Hm; cbn [negb snd]; [|exact Hok].
    intros x Hx. cbn [reactions] in Hx. apply in_app_or in Hx.
    destruct Hx as [Hx|[<-|[]]].
    + now apply Hok.
    + exact Hm.
  - now apply cleanupOldMessages_references_ok.
Qed.

(** Every ledger reached from the new database keeps each reaction's
    record: it is what the foreign key of [reactions] enforces. *)
Lemma run_references_ok (ops : list operation) (db : Db) :
  foreign_keys db = true -> references_ok db -> references_ok (run ops db).
Proof.
  revert db. induction ops as [|op ops IH]; intros db Hfk Hok; [exact Hok|].
  cbn [run fold_left]. apply IH.
  - now rewrite apply_foreign_keys.
  - now apply apply_references_ok.
Qed.

Lemma fresh_references_ok (ops : list operation) :
  references_ok (run ops fresh).
Proof. apply run_references_ok; [reflexivity | intros r []]. Qed.

(** *** Invariants of the ledgers reached from a new database *)

Lemma NoDup_map_filter {A B} (f : A -> B) (g : A -> bool) (l : list A) :
  NoDup (map f l) -> NoDup (map f (filter g l)).
Proof.
  induction l as [|x l IH]; cbn; intros H; [constructor|].
  inversion H as [|? ? Hx Hl]; subst.
  destruct (g x); cbn; [|now apply IH].
  constructor; [|now apply IH].
  intros Hin. apply Hx. apply in_map_iff in Hin.
  destruct Hin as (y & E & Hy). apply filter_In in Hy.
  apply in_map_iff. exists y. tauto.
Qed.

Lemma apply_keys_unique op db : keys_unique db -> keys_unique (apply op db).
Proof.
  unfold keys_unique. intros H.
  destruct op as [m|mid|mid|r|now d]; cbn [apply].
  - unfold storeMessage; cbn [messages]. rewrite map_app. cbn [map].
    apply NoDup_app.
    + now apply NoDup_map_filter.
    + repeat constructor. intros [].
    + intros x Hx [<-|[]]. apply in_map_iff in Hx.
      destruct Hx as (y & E & Hy). apply filter_In in Hy.
      destruct Hy as [_ Hy]. apply negb_true_iff in Hy.
      change (messageId (row_of_input m)) with (in_messageId m) in E.
      apply has_id_true in E. congruence.
  - unfold markAsReverted; cbn [snd messages]. rewrite map_map.
    erewrite map_ext; [exact H|].
    intros x. now destruct (has_id mid x).
  - unfold deleteMessage. destruct (_ && _); cbn [snd messages]; [exact H|].
    now apply NoDup_map_filter.
  - unfold storeReaction.
    destruct (o_messageId r), (o_odId r), (o_userTag r), (o_emoji r),
      (o_reactedAt r); try exact H.
    destruct (_ && _); exact H.
  - pose proof (cleanupOldMessages_eq now d db) as E. cbv zeta in E.
    rewrite E. cbn [snd messages]. now apply NoDup_map_filter.
Qed.

Lemma run_keys_unique (ops : list operation) (db : Db) :
  keys_unique db -> keys_unique (run ops db).
Proof.
  revert db. induction ops as [|op ops IH]; intros db H; [exact H|].
  cbn [run fold_left]. apply IH. now apply apply_keys_unique.
Qed.

Lemma keys_unique_same_row db m m' :
  keys_unique db -> In m (messages db) -> In m' (messages db) ->
  messageId m' = messageId m -> m' = m.
Proof.
  unfold keys_unique. induction (messages db) as [|x l IH]; cbn; [tauto|].
  intros H. inversion H as [|? ? Hx Hl]; subst.
  intros [->|Hm] [->|Hm'] E; auto.
  - exfalso. apply Hx. rewrite <- E. now apply in_map.
  - exfalso. apply Hx. rewrite E. now apply in_map.
Qed.

(** C6.  In every ledger reached from a new database, for every clock
    value [now] and age threshold [daysOld]: [cleanupOldMessages] does not
    fail and returns the number of records created before
    [now - daysOld * 86400000]; every such record is gone and so is every
    reaction that refers to it, so that [getReactions] of its id is empty;
    every record created at that time or later is still there and
    [getReactions] of its id returns what it returned before; and no
    reaction is left without its record. *)
Theorem cleanupOldMessages_spec (ops : list operation) (now daysOld : Z) :
  let db := run ops fresh in
  let res := cleanupOldMessages now daysOld db in
  fst res
  = Ok (Z.of_nat
          (length
             (filter (fun m => (createdAt m <? now - daysOld * 86400000)%Z)
                     (messages db))))
  /\ (forall m, In m (messages db) ->
        (createdAt m < now - daysOld * 86400000)%Z ->
        ~ In m (messages (snd res))
        /\ getReactions (messageId m) (snd res) = []
        /\ forall r, In r (reactions (snd res)) ->
                     r_messageId r <> messageId m)
  /\ (forall m, In m (messages db) ->
        (now - daysOld * 86400000 <= createdAt m)%Z ->
        In m (messages (snd res))
        /\ getReactions (messageId m) (snd res)
           = getReactions (messageId m) db)
  /\ (forall m, In m (messages (snd res)) ->
        In m (messages db) /\ (now - daysOld * 86400000 <= createdAt m)%Z)
  /\ references_ok (snd res).
Proof.
  cbv zeta.
  destruct (cleanupOldMessages_any now daysOld (run ops fresh))
    as (Hn & Hm & Hold & Hkeep & Hreact & Hok).
  assert (U : keys_unique (run ops fresh))
    by (apply run_keys_unique; constructor).
  assert (B : forall m,
            older_than (cutoffTime now daysOld) m
            = (createdAt m <? now - daysOld * 86400000)%Z).
  { intros m. unfold older_than, cutoffTime. f_equal. lia. }
  split; [|split; [|split; [|split]]].
  - rewrite Hn. do 3 f_equal. apply filter_ext. exact B.
  - intros m Hin Hlt. apply Hold; [exact Hin|].
    rewrite B. now apply Z.ltb_lt.
  - intros m Hin Hge.
    assert (Hnew : older_than (cutoffTime now daysOld) m = false)
      by (rewrite B; now apply Z.ltb_ge).
    split; [now apply Hkeep|].
    apply Hreact. intros m' Hin' E.
    rewrite (@keys_unique_same_row (run ops fresh) m m' U Hin Hin' E).
    exact Hnew.
  - intros m Hin. rewrite Hm in Hin. apply filter_In in Hin.
    destruct Hin as [Hin Hnew]. split; [exact Hin|].
    apply negb_true_iff in Hnew. rewrite B in Hnew.
    now apply Z.ltb_ge.
  - apply Hok. apply fresh_references_ok.
Qed.


End LedgerTheory.

(** ** The reaction handlers *)

Module BotTheory.
Import Ledger LinkUtils Bot LedgerTheory.

Lemma getMessage_hasMessage mid db m :
  getMessage mid db = Some m -> hasMessage mid db = true.
Proof.
  unfold getMessage, hasMessage. intros H. apply find_some in H.
  apply existsb_exists. exists m. exact H.
Qed.



(** C8, as the code has it.  The handler writes the reactor's id under
    the property [userId], [storeReaction] binds the property [odId], so the
    insert is rejected on [user_id NOT NULL]: whatever the event, the
    handler leaves table [reactions] as it was, and for a robot reaction of
    a user on a tracked message it ends in that exception. *)
Theorem onReactionAdd_records_nothing (reaction : Reaction) (user : User)
    (now : Z) (db : Db) :
  let res := onReactionAdd reaction user now db in
  snd res = db
  /\ (user_bot user = false ->
      partial reaction && negb (fetch_ok reaction) = false ->
      is_robot (emoji_name reaction) = true ->
      hasMessage (message_id reaction) db = true ->
      fst res = Raised (NotNullConstraint "user_id")
      /\ getReactions (message_id reaction) (snd res)
         = getReactions (message_id reaction) db).
Proof.
  cbv zeta. unfold onReactionAdd.
  destruct (user_bot user); [split; [reflexivity | discriminate]|].
  destruct (partial reaction && negb (fetch_ok reaction));
    [split; [reflexivity | discriminate]|].
  destruct (is_robot (emoji_name reaction)); cbn [negb];
    [|split; [reflexivity | discriminate]].
  destruct (getMessage (message_id reaction) db) as [m|] eqn:G.
  - cbn. split; [reflexivity|]. intros _ _ _ _. split; reflexivity.
  - split; [reflexivity|]. intros _ _ _ H.
    unfold getMessage in G. unfold hasMessage in H.
    apply existsb_exists in H. destruct H as (m & Hin & Hm).
    eapply find_none in G; [|exact Hin]. congruence.
Qed.

(** The event of the specification's scenario: ["u2"] reacts with the robot
    emoji to the tracked message ["m1"]. *)
Example onReactionAdd_sample :
  let reaction := {| partial := false; fetch_ok := true;
                     emoji_name := Some ROBOT_EMOJI;
                     message_id := str "m1" |} in
  let user := {| user_id := str "u2"; user_tag := Some (str "U#2");
                 user_bot := false |} in
  let res := onReactionAdd reaction user 2000 Sample.one_message in
  fst res = Raised (NotNullConstraint "user_id")
  /\ getReactions (str "m1") (snd res) = [].
Proof. vm_compute. split; reflexivity. Qed.

(** The earlier handler names the property as [storeReaction] reads it,
    and there the reactor's id comes back from [getReactions]. *)
Lemma onReactionAdd_checked_round_trip (reaction : Reaction) (user : User)
    (now : Z) (platform_ok : bool) (db : Db) (m : StoredMessage) :
  user_bot user = false ->
  partial reaction && negb (fetch_ok reaction) = false ->
  is_robot (emoji_name reaction) = true ->
  getMessage (message_id reaction) db = Some m ->
  isReverted m = false ->
  exists row,
    In row (getReactions (message_id reaction)
              (snd (onReactionAdd_checked reaction user now platform_ok db)))
    /\ odId row = user_id user
    /\ id row = next_id db.
Proof.
  intros Hbot Hpart Hrobot Hget Hrev.
  unfold onReactionAdd_checked.
  rewrite Hbot, Hpart, Hrobot, Hget, Hrev. cbn [negb].
  unfold storeReaction.
  cbn [o_messageId o_odId o_userTag o_emoji o_reactedAt o_isRevertReaction].
  rewrite (getMessage_hasMessage _ _ Hget). rewrite andb_false_r.
  exists {| id := next_id db; r_messageId := message_id reaction;
            odId := user_id user;
            userTag := or_else (user_tag user) (str "Unknown");
            emoji := ROBOT_EMOJI; reactedAt := now;
            isRevertReaction := JS.eqb (user_id user) (authorId m) |}.
  split; [|split; reflexivity].
  unfold getReactions. apply order_by_time_In. apply filter_In.
  split; [|apply jseqb_refl].
  destruct (negb (JS.eqb _ _)); [|destruct platform_ok]; cbn [snd reactions];
    apply in_or_app; right; left; reflexivity.
Qed.

End BotTheory.

(** ** The link transformer *)

Module LinkTheory.
Import LinkUtils LinkSpec.

#[local] Arguments char_matches : simpl never.
#[local] Arguments is_space : simpl never.
#[local] Arguments canonicalize : simpl never.

(** *** The matcher *)

Lemma match_re_ext (r : regex) (s : jsstring)
    (k1 k2 : jsstring -> option jsstring) :
  (forall t, k1 t = k2 t) -> match_re r s k1 = match_re r s k2.
Proof.
  revert s k1 k2.
  induction r as [l|r IH|r1 IH1 r2 IH2|r1 IH1 r2 IH2|]; intros s k1 k2 H; cbn [match_re].
  - revert s. induction l as [|p l IHl]; intros s; cbn [match_lit]; [apply H|].
    destruct s as [|c s]; [reflexivity|].
    destruct (char_matches p c); [apply IHl | reflexivity].
  - rewrite (IH s k1 k2 H), H. reflexivity.
  - rewrite (IH1 s k1 k2 H), (IH2 s k1 k2 H). reflexivity.
  - apply IH1. intros t. apply IH2, H.
  - induction s as [|c s IHs]; cbn [match_plus]; [reflexivity|].
    rewrite IHs, H. reflexivity.
Qed.

(** A successful match hands a suffix of its input to the continuation. *)
Lemma match_lit_suffix l s k res :
  match_lit l s k = Some res ->
  exists pre t, s = pre ++ t /\ k t = Some res /\ length pre = length l.
Proof.
  revert s. induction l as [|p l IH]; intros s H; cbn [match_lit] in H.
  - exists [], s. auto.
  - destruct s as [|c s]; [discriminate|].
    destruct (char_matches p c); [|discriminate].
    destruct (IH s H) as (pre & t & -> & Hk & Hl).
    exists (c :: pre), t. cbn. auto.
Qed.

Lemma match_plus_suffix s k res :
  match_plus s k = Some res ->
  exists pre t, s = pre ++ t /\ k t = Some res /\ pre <> [].
Proof.
  induction s as [|c s IH]; cbn [match_plus]; [discriminate|].
  destruct (is_space c); [discriminate|].
  destruct (match_plus s k) as [r|] eqn:E.
  - intros [= <-]. destruct (IH eq_refl) as (pre & t & -> & Hk & _).
    exists (c :: pre), t. repeat split; [exact Hk | discriminate].
  - intros H. exists [c], s. repeat split; [exact H | discriminate].
Qed.

Lemma match_re_suffix r s k res :
  match_re r s k = Some res ->
  exists pre t, s = pre ++ t /\ k t = Some res.
Proof.
  revert s k res.
  induction r as [l|r IH|r1 IH1 r2 IH2|r1 IH1 r2 IH2|]; intros s k res H;
    cbn [match_re] in H.
  - destruct (match_lit_suffix _ _ _ H) as (pre & t & ? & ? & _); eauto.
  - destruct (match_re r s k) eqn:E.
    + injection H as ->. eauto.
    + exists [], s. auto.
  - destruct (match_re r1 s k) eqn:E.
    + injection H as ->. eauto.
    + eauto.
  - destruct (IH1 _ _ _ H) as (pre1 & t1 & -> & H1).
    destruct (IH2 _ _ _ H1) as (pre2 & t & -> & H2).
    exists (pre1 ++ pre2), t. now rewrite app_assoc.
  - destruct (match_plus_suffix _ _ H) as (pre & t & ? & ? & _); eauto.
Qed.

Lemma matched_app pre rest : matched (pre ++ rest) rest = pre.
Proof.
  unfold matched. rewrite length_app.
  replace (length pre + length rest - length rest) with (length pre) by lia.
  rewrite firstn_app, firstn_all, Nat.sub_diag. cbn. apply app_nil_r.
Qed.

Lemma exec_split r s rest :
  exec r s = Some rest -> s = matched s rest ++ rest.
Proof.
  unfold exec. intros H.
  destruct (match_re_suffix _ _ _ H) as (pre & t & -> & [= ->]).
  now rewrite matched_app.
Qed.

(** *** The walk of a global pattern *)

Lemma in_order_weaken ms c s : in_order ms s -> in_order ms (c :: s).
Proof.
  intros H. destruct H as [s|gap m ms rest H]; [constructor|].
  change (c :: gap ++ m ++ rest) with ((c :: gap) ++ m ++ rest).
  now constructor.
Qed.

Lemma scan_in_order r s : forall skip, in_order (scan r skip s) (skipn skip s).
Proof.
  induction s as [|c s IH]; intros skip.
  - cbn [scan]. destruct skip, (exec r []); try constructor.
    cbn. change (@nil char16) with ([] ++ [] ++ @nil char16) at 2.
    repeat constructor.
  - cbn [scan]. destruct skip as [|n]; [|apply IH].
    cbn [skipn]. destruct (exec r (c :: s)) as [rest|] eqn:E.
    + pose proof (exec_split _ _ E) as Hs.
      destruct (matched (c :: s) rest) as [|c' m] eqn:Em.
      * cbn. change (c :: s) with ([] ++ [] ++ c :: s).
        constructor. apply in_order_weaken. apply (IH 0).
      * replace (length (c' :: m) - 1) with (length m) by (cbn; lia).
        cbn in Hs. injection Hs as Hc Hs. subst c'.
        specialize (IH (length m)). rewrite Hs in IH at 2.
        rewrite skipn_app, skipn_all, Nat.sub_diag in IH. cbn in IH.
        rewrite Hs at 2.
        change (c :: m ++ rest) with ([] ++ (c :: m) ++ rest).
        now constructor.
    + apply in_order_weaken. apply (IH 0).
Qed.

(** The matches [matchAll] returns lie in the text in the order
    returned. *)
Lemma matchAll_in_order r s : in_order (matchAll r s) s.
Proof. apply (scan_in_order r s 0). Qed.

(** *** Sets in insertion order *)

Lemma existsb_eqb_In x l : existsb (JS.eqb x) l = true <-> In x l.
Proof.
  rewrite existsb_exists. split.
  - intros (y & Hin & E). apply jseqb_eq in E. now subst.
  - intros H. exists x. split; [exact H | apply jseqb_refl].
Qed.

Lemma set_from_In seen l x :
  In x (set_from seen l) <-> In x l /\ ~ In x seen.
Proof.
  revert seen. induction l as [|y l IH]; intros seen; cbn [set_from].
  - cbn. tauto.
  - destruct (existsb (JS.eqb y) seen) eqn:E.
    + apply existsb_eqb_In in E. rewrite IH. cbn.
      intuition (subst; tauto).
    + assert (Hy : ~ In y seen).
      { intros H. apply existsb_eqb_In in H. congruence. }
      cbn. rewrite IH. cbn.
      destruct (JS.eq_dec y x) as [->|Hne]; intuition congruence.
Qed.

Lemma set_from_NoDup seen l : NoDup (set_from seen l).
Proof.
  revert seen. induction l as [|y l IH]; intros seen; cbn [set_from].
  - constructor.
  - destruct (existsb (JS.eqb y) seen); [apply IH|].
    constructor; [|apply IH].
    rewrite set_from_In. cbn. tauto.
Qed.

Lemma first_index_In x l : first_index x l <> None <-> In x l.
Proof.
  induction l as [|y l IH]; cbn; [tauto|].
  destruct (JS.eqb x y) eqn:E.
  - apply jseqb_eq in E. subst. split; [auto | discriminate].
  - apply jseqb_neq in E.
    destruct (first_index x l); cbn; split; intros H.
    + right. apply IH. discriminate.
    + discriminate.
    + congruence.
    + destruct H as [H|H]; [congruence|]. apply IH in H. congruence.
Qed.

Lemma first_index_set_from seen l a b :
  ~ In a seen -> ~ In b seen ->
  (precedes a b (set_from seen l) <-> precedes a b l).
Proof.
  unfold precedes. revert seen.
  induction l as [|y l IH]; intros seen Ha Hb; cbn [set_from first_index];
    [tauto|].
  destruct (existsb (JS.eqb y) seen) eqn:E.
  - apply existsb_eqb_In in E.
    assert (JS.eqb a y = false) as -> by (apply jseqb_neq; congruence).
    assert (JS.eqb b y = false) as -> by (apply jseqb_neq; congruence).
    rewrite (IH seen Ha Hb).
    destruct (first_index a l), (first_index b l); cbn; try tauto. lia.
  - cbn [first_index].
    destruct (JS.eqb a y) eqn:Ea; destruct (JS.eqb b y) eqn:Eb.
    + tauto.
    + apply jseqb_eq in Ea. apply jseqb_neq in Eb. subst y.
      assert (Hin : first_index b (set_from (a :: seen) l) <> None
                    <-> first_index b l <> None).
      { rewrite !first_index_In, set_from_In. cbn. intuition congruence. }
      destruct (first_index b (set_from (a :: seen) l)),
        (first_index b l); cbn; try tauto; try lia.
      * exfalso. apply (proj1 Hin); [discriminate | reflexivity].
      * exfalso. apply (proj2 Hin); [discriminate | reflexivity].
    + destruct (first_index a (set_from (y :: seen) l)),
        (first_index a l); cbn; try tauto; lia.
    + apply jseqb_neq in Ea. apply jseqb_neq in Eb.
      assert (Ha' : ~ In a (y :: seen)) by (cbn; intuition congruence).
      assert (Hb' : ~ In b (y :: seen)) by (cbn; intuition congruence).
      specialize (IH (y :: seen) Ha' Hb').
      destruct (first_index a (set_from (y :: seen) l)),
        (first_index b (set_from (y :: seen) l)),
        (first_index a l), (first_index b l); cbn in *; try tauto; lia.
Qed.

Lemma detectRedditLinks_unfold content :
  detectRedditLinks content
  = set_from [] (matchAll PATTERN_WWW content
                   ++ matchAll PATTERN_OLD_NEW content).
Proof. reflexivity. Qed.

(** C4, the claim as stated fails: an [old.reddit.com] link that comes
    first in the text is listed after a bare [reddit.com] link. *)
Lemma detectRedditLinks_not_by_appearance :
  ~ (forall (content a b : jsstring) (i j : nat),
       In a (detectRedditLinks content) ->
       In b (detectRedditLinks content) ->
       first_occurrence a content = Some i ->
       first_occurrence b content = Some j ->
       i < j ->
       precedes a b (detectRedditLinks content)).
Proof.
  intros H.
  assert (P : precedes (str "https://old.reddit.com/r/a")
                (str "https://reddit.com/r/b")
                (detectRedditLinks
                   (str "https://old.reddit.com/r/a https://reddit.com/r/b"))).
  { apply (H _ _ _ 0 27); [vm_compute; tauto | vm_compute; tauto
                          | reflexivity | reflexivity | lia]. }
  vm_compute in P. lia.
Qed.

(** C4, amended.  [detectRedditLinks] returns each matched link once;
    the links are listed pattern by pattern, those of the
    [reddit.com]/[www.reddit.com] pattern before those of the
    [old.]/[new.reddit.com] pattern, a link standing where it is first met
    in that list; and the matches of one pattern are met in the order in
    which they lie in the text. *)
Theorem detectRedditLinks_order (content : jsstring) :
  let hits := matchAll PATTERN_WWW content
                ++ matchAll PATTERN_OLD_NEW content in
  NoDup (detectRedditLinks content)
  /\ (forall x, In x (detectRedditLinks content) <-> In x hits)
  /\ (forall a b, precedes a b (detectRedditLinks content)
                  <-> precedes a b hits)
  /\ in_order (matchAll PATTERN_WWW content) content
  /\ in_order (matchAll PATTERN_OLD_NEW content) content.
Proof.
  cbv zeta. rewrite detectRedditLinks_unfold.
  split; [apply set_from_NoDup|].
  split; [intros x; rewrite set_from_In; cbn; tauto|].
  split; [intros a b; apply first_index_set_from; auto|].
  split; apply matchAll_in_order.
Qed.

(** *** Matching in a context *)

(** If [r] cannot take [x], what follows [x] plays no part in a match. *)
Lemma match_lit_ctx l x :
  forallb (fun p => negb (char_matches p x)) l = true ->
  forall u v k,
    match_lit l (u ++ x :: v) k = match_lit l u (fun t => k (t ++ x :: v)).
Proof.
  induction l as [|p l IH]; intros Hl u v k; cbn [match_lit]; [reflexivity|].
  cbn [forallb] in Hl. apply andb_true_iff in Hl. destruct Hl as [Hp Hl].
  destruct u as [|c u]; cbn [app].
  - apply negb_true_iff in Hp. now rewrite Hp.
  - destruct (char_matches p c); [apply IH, Hl | reflexivity].
Qed.

Lemma match_plus_ctx x :
  is_space x = true ->
  forall u v k,
    match_plus (u ++ x :: v) k = match_plus u (fun t => k (t ++ x :: v)).
Proof.
  intros Hx u v k. induction u as [|c u IH]; cbn [app match_plus].
  - now rewrite Hx.
  - rewrite IH. reflexivity.
Qed.

Lemma match_re_ctx r x :
  rejects x r = true ->
  forall u v k,
    match_re r (u ++ x :: v) k = match_re r u (fun t => k (t ++ x :: v)).
Proof.
  induction r as [l|r IH|r1 IH1 r2 IH2|r1 IH1 r2 IH2|]; cbn [rejects match_re];
    intros H u v k.
  - now apply match_lit_ctx.
  - now rewrite IH.
  - apply andb_true_iff in H. destruct H as [H1 H2].
    now rewrite IH1, IH2.
  - apply andb_true_iff in H. destruct H as [H1 H2].
    rewrite IH1 by exact H1. apply match_re_ext. intros t. now apply IH2.
  - now apply match_plus_ctx.
Qed.

(** Whether a match succeeds depends on the continuation only through
    whether the continuation succeeds. *)
Lemma match_re_is_some r s k1 k2 :
  (forall t, is_some (k1 t) = is_some (k2 t)) ->
  is_some (match_re r s k1) = is_some (match_re r s k2).
Proof.
  revert s k1 k2.
  induction r as [l|r IH|r1 IH1 r2 IH2|r1 IH1 r2 IH2|]; intros s k1 k2 H;
    cbn [match_re].
  - revert s. induction l as [|p l IHl]; intros s; cbn [match_lit]; [apply H|].
    destruct s as [|c s]; [reflexivity|].
    destruct (char_matches p c); [apply IHl | reflexivity].
  - specialize (IH s k1 k2 H). specialize (H s).
    destruct (match_re r s k1), (match_re r s k2); cbn in *;
      congruence.
  - specialize (IH1 s k1 k2 H). specialize (IH2 s k1 k2 H).
    destruct (match_re r1 s k1), (match_re r1 s k2); cbn in *;
      congruence.
  - apply IH1. intros t. apply IH2, H.
  - induction s as [|c s IHs]; cbn [match_plus]; [reflexivity|].
    destruct (is_space c); [reflexivity|]. specialize (H s).
    destruct (match_plus s k1), (match_plus s k2); cbn in *; congruence.
Qed.

Lemma match_re_map r s k (f : jsstring -> jsstring) :
  match_re r s (fun t => option_map f (k t)) = option_map f (match_re r s k).
Proof.
  revert s k.
  induction r as [l|r IH|r1 IH1 r2 IH2|r1 IH1 r2 IH2|]; intros s k;
    cbn [match_re].
  - revert s. induction l as [|p l IHl]; intros s; cbn [match_lit];
      [reflexivity|].
    destruct s as [|c s]; [reflexivity|].
    destruct (char_matches p c); [apply IHl | reflexivity].
  - rewrite IH. destruct (match_re r s k); reflexivity.
  - rewrite IH1, IH2. destruct (match_re r1 s k); reflexivity.
  - rewrite <- IH1. apply match_re_ext. intros t. apply IH2.
  - induction s as [|c s IHs]; cbn [match_plus]; [reflexivity|].
    destruct (is_space c); [reflexivity|].
    rewrite IHs. destruct (match_plus s k); reflexivity.
Qed.

Lemma exec_ctx r x u v :
  rejects x r = true ->
  exec r (u ++ x :: v) = option_map (fun t => t ++ x :: v) (exec r u).
Proof.
  intros H. unfold exec. rewrite match_re_ctx by exact H.
  apply (match_re_map r u Some).
Qed.

(** *** White space *)

Lemma is_space_canonicalize c : is_space c = true -> canonicalize c = c.
Proof.
  unfold canonicalize. intros H.
  destruct ((97 <=? c) && (c <=? 122))%N eqn:E; [|reflexivity].
  apply andb_true_iff in E. destruct E as [E1 E2].
  apply N.leb_le in E1, E2. exfalso.
  unfold is_space in H. apply orb_true_iff in H. destruct H as [H|H].
  - apply existsb_exists in H. destruct H as (k & Hk & E).
    apply N.eqb_eq in E. subst k. cbn in Hk.
    repeat (destruct Hk as [Hk|Hk]; [subst c; lia|]). exact Hk.
  - apply andb_true_iff in H. destruct H as [H _]. apply N.leb_le in H. lia.
Qed.

Lemma char_matches_space p c :
  is_space c = true -> is_space (canonicalize p) = false ->
  char_matches p c = false.
Proof.
  intros Hc Hp. unfold char_matches.
  rewrite (is_space_canonicalize _ Hc).
  apply N.eqb_neq. intros E. congruence.
Qed.

Lemma nonspace_lits_rejects r c :
  nonspace_lits r = true -> is_space c = true -> rejects c r = true.
Proof.
  intros Hr Hc.
  induction r as [l|r IH|r1 IH1 r2 IH2|r1 IH1 r2 IH2|];
    cbn [nonspace_lits rejects] in *.
  - rewrite forallb_forall in *. intros p Hp. specialize (Hr p Hp).
    apply negb_true_iff in Hr. apply negb_true_iff.
    now apply char_matches_space.
  - auto.
  - apply andb_true_iff in Hr. destruct Hr. rewrite IH1, IH2; auto.
  - apply andb_true_iff in Hr. destruct Hr. rewrite IH1, IH2; auto.
  - exact Hc.
Qed.

(** A pattern without white space in its literals matches inside one
    word. *)
Lemma match_lit_nonspace l s k res :
  forallb (fun p => negb (is_space (canonicalize p))) l = true ->
  match_lit l s k = Some res ->
  exists pre t, s = pre ++ t /\ k t = Some res /\ Forall nonspace pre.
Proof.
  revert s. induction l as [|p l IH]; intros s Hl H; cbn [match_lit] in H.
  - exists [], s. auto.
  - cbn [forallb] in Hl. apply andb_true_iff in Hl. destruct Hl as [Hp Hl].
    destruct s as [|c s]; [discriminate|].
    destruct (char_matches p c) eqn:E; [|discriminate].
    destruct (IH s Hl H) as (pre & t & -> & Hk & Hf).
    exists (c :: pre), t. repeat split; auto.
    constructor; [|exact Hf]. unfold nonspace.
    destruct (is_space c) eqn:Hc; [|reflexivity].
    apply negb_true_iff in Hp.
    rewrite (char_matches_space p c Hc Hp) in E. discriminate.
Qed.

Lemma match_plus_nonspace s k res :
  match_plus s k = Some res ->
  exists pre t, s = pre ++ t /\ k t = Some res
                /\ Forall nonspace pre /\ pre <> [].
Proof.
  induction s as [|c s IH]; cbn [match_plus]; [discriminate|].
  destruct (is_space c) eqn:Hc; [discriminate|].
  destruct (match_plus s k) as [r|] eqn:E.
  - intros [= <-]. destruct (IH eq_refl) as (pre & t & -> & Hk & Hf & _).
    exists (c :: pre), t. split; [reflexivity|]. split; [exact Hk|].
    split; [constructor; auto | discriminate].
  - intros H. exists [c], s. split; [reflexivity|]. split; [exact H|].
    split; [repeat constructor; exact Hc | discriminate].
Qed.

Lemma match_re_nonspace r s k res :
  nonspace_lits r = true ->
  match_re r s k = Some res ->
  exists pre t, s = pre ++ t /\ k t = Some res /\ Forall nonspace pre.
Proof.
  revert s k res.
  induction r as [l|r IH|r1 IH1 r2 IH2|r1 IH1 r2 IH2|]; intros s k res Hr H;
    cbn [match_re nonspace_lits] in *.
  - eapply match_lit_nonspace; eauto.
  - destruct (match_re r s k) eqn:E.
    + injection H as ->. eauto.
    + exists [], s. auto.
  - apply andb_true_iff in Hr. destruct Hr as [Hr1 Hr2].
    destruct (match_re r1 s k) eqn:E.
    + injection H as ->. eauto.
    + eauto.
  - apply andb_true_iff in Hr. destruct Hr as [Hr1 Hr2].
    destruct (IH1 _ _ _ Hr1 H) as (pre1 & t1 & -> & H1 & F1).
    destruct (IH2 _ _ _ Hr2 H1) as (pre2 & t & -> & H2 & F2).
    exists (pre1 ++ pre2), t. rewrite app_assoc. repeat split; auto.
    apply Forall_app; auto.
  - destruct (match_plus_nonspace _ _ H) as (pre & t & ? & ? & ? & _); eauto.
Qed.

(** The greedy [[^\s]+] at the end of a pattern runs to the end of the
    word. *)
Lemma match_plus_greedy s rest :
  match_plus s Some = Some rest -> boundary rest = true.
Proof.
  revert rest. induction s as [|c s IH]; intros rest; cbn [match_plus];
    [discriminate|].
  destruct (is_space c) eqn:Hc; [discriminate|].
  destruct (match_plus s Some) as [r|] eqn:E.
  - intros [= <-]. now apply IH.
  - intros [= <-]. destruct s as [|d s]; [reflexivity|].
    cbn [match_plus] in E. cbn. destruct (is_space d); [reflexivity|].
    destruct (match_plus s Some); discriminate.
Qed.

(** *** Patterns that start with the letter h *)

Lemma char_matches_h x :
  char_matches 104%N x = true -> x = 104%N \/ x = 72%N.
Proof.
  unfold char_matches. change (canonicalize 104%N) with 72%N.
  unfold canonicalize.
  destruct ((97 <=? x) && (x <=? 122))%N eqn:E; intros H;
    apply N.eqb_eq in H.
  - apply andb_true_iff in E. destruct E as [E1 E2].
    apply N.leb_le in E1, E2. left. lia.
  - right. congruence.
Qed.

Lemma hstart_inv v :
  hstart v = true ->
  exists x v', v = x :: v' /\ (x = 104%N \/ x = 72%N).
Proof.
  destruct v as [|x v']; cbn; [discriminate|].
  intros H. exists x, v'. split; [reflexivity | now apply char_matches_h].
Qed.

Lemma is_some_match_plus s :
  is_some (match_plus s Some) = negb (boundary s).
Proof.
  destruct s as [|c s]; cbn; [reflexivity|].
  destruct (is_space c); [reflexivity|].
  destruct (match_plus s Some); reflexivity.
Qed.

Section Initial.
(** [Q] asks for the letter h and then for [L], a pattern without that
    letter and without [[^\s]+], followed by [[^\s]+] when [plus]. *)
Variables (Q L : regex) (plus : bool).

Let after (k : jsstring -> option jsstring) (t : jsstring) :=
  if plus then match_plus t k else k t.

Hypothesis Q_peel : forall c s k,
  match_re Q (c :: s) k
  = if char_matches 104%N c then match_re L s (after k) else None.
Hypothesis Q_nil : forall k, match_re Q [] k = None.
Hypothesis L_h : rejects 104%N L = true /\ rejects 72%N L = true.

Lemma exec_nil : exec Q [] = None.
Proof. apply Q_nil. Qed.

Lemma exec_hstart s rest : exec Q s = Some rest -> hstart s = true.
Proof.
  unfold exec. destruct s as [|c s]; [now rewrite Q_nil|].
  rewrite Q_peel. cbn. destruct (char_matches 104%N c); [reflexivity | discriminate].
Qed.

Lemma exec_nonempty s rest : exec Q s = Some rest -> matched s rest <> [].
Proof.
  unfold exec. destruct s as [|c s]; [now rewrite Q_nil|].
  rewrite Q_peel. destruct (char_matches 104%N c); [|discriminate].
  intros H. apply match_re_suffix in H. destruct H as (pre & t & -> & H).
  assert (exists pre', t = pre' ++ rest) as (pre' & ->).
  { unfold after in H. destruct plus.
    - apply match_plus_suffix in H. destruct H as (p' & t' & -> & [= ->] & _).
      eauto.
    - injection H as ->. now exists []. }
  change (c :: pre ++ pre' ++ rest) with ((c :: pre) ++ pre' ++ rest).
  rewrite app_assoc, matched_app. discriminate.
Qed.

(** Before an h, what follows does not decide whether [Q] matches. *)
Lemma exec_before_h u v1 v2 :
  u <> [] -> hstart v1 = true -> hstart v2 = true ->
  is_some (exec Q (u ++ v1)) = is_some (exec Q (u ++ v2)).
Proof.
  intros Hu H1 H2. destruct u as [|c u]; [congruence|].
  apply hstart_inv in H1, H2.
  destruct H1 as (x1 & w1 & -> & Hx1), H2 as (x2 & w2 & -> & Hx2).
  unfold exec. cbn [app]. rewrite !Q_peel.
  destruct (char_matches 104%N c); [|reflexivity].
  assert (R1 : rejects x1 L = true) by (destruct Hx1 as [->| ->]; apply L_h).
  assert (R2 : rejects x2 L = true) by (destruct Hx2 as [->| ->]; apply L_h).
  rewrite (match_re_ctx _ _ R1), (match_re_ctx _ _ R2).
  apply match_re_is_some. intros t. unfold after. destruct plus; [|reflexivity].
  rewrite !is_some_match_plus. f_equal.
  destruct t as [|d t]; [|reflexivity]. cbn.
  destruct Hx1 as [->| ->], Hx2 as [->| ->]; reflexivity.
Qed.

(** Without the final [[^\s]+] the match before an h is the match of
    the text up to it. *)
Lemma exec_host_before_h u v :
  plus = false -> u <> [] -> hstart v = true ->
  exec Q (u ++ v) = option_map (fun t => t ++ v) (exec Q u).
Proof.
  intros Hp Hu Hv. destruct u as [|c u]; [congruence|].
  apply hstart_inv in Hv. destruct Hv as (x & w & -> & Hx).
  unfold exec. cbn [app]. rewrite !Q_peel.
  destruct (char_matches 104%N c); [|reflexivity].
  assert (R : rejects x L = true) by (destruct Hx as [->| ->]; apply L_h).
  rewrite (match_re_ctx _ _ R). unfold after. rewrite Hp.
  apply (match_re_map L u Some).
Qed.

End Initial.

Unset Implicit Arguments.

(** *** The patterns of [REDDIT_PATTERNS] *)

Lemma PATTERN_WWW_link : link_pattern PATTERN_WWW.
Proof.
  split; [reflexivity|]. split; [reflexivity|].
  exists LINK_WWW_tail. repeat split; reflexivity.
Qed.

Lemma PATTERN_OLD_NEW_link : link_pattern PATTERN_OLD_NEW.
Proof.
  split; [reflexivity|]. split; [reflexivity|].
  exists LINK_OLD_NEW_tail. repeat split; reflexivity.
Qed.

Lemma HOST_WWW_host : host_pattern HOST_WWW.
Proof.
  split.
  - split; [reflexivity|]. exists HOST_WWW_tail. repeat split; reflexivity.
  - intros v. cbn [RXDDIT str quiet app]. repeat split; reflexivity.
Qed.

Lemma HOST_OLD_NEW_host : host_pattern HOST_OLD_NEW.
Proof.
  split.
  - split; [reflexivity|]. exists HOST_OLD_NEW_tail. repeat split; reflexivity.
  - intros v. cbn [RXDDIT str quiet app]. repeat split; reflexivity.
Qed.

Lemma h_exec_nil Q plus : h_initial Q plus -> exec Q [] = None.
Proof. intros (H & _). apply H. Qed.

Lemma h_exec_some Q plus s rest :
  h_initial Q plus -> exec Q s = Some rest ->
  s = matched s rest ++ rest /\ matched s rest <> [] /\ hstart s = true.
Proof.
  intros (Hnil & L & Hpeel & Hh) H.
  split; [exact (exec_split _ _ H)|]. split.
  - exact (exec_nonempty Q L plus Hpeel Hnil Hh s H).
  - exact (exec_hstart Q L plus Hpeel Hnil Hh s H).
Qed.

Lemma h_exec_before_h Q plus u v1 v2 :
  h_initial Q plus -> u <> [] -> hstart v1 = true -> hstart v2 = true ->
  is_some (exec Q (u ++ v1)) = is_some (exec Q (u ++ v2)).
Proof.
  intros (Hnil & L & Hpeel & Hh). now apply (exec_before_h Q L plus).
Qed.

Lemma h_rest_shorter Q plus s rest :
  h_initial Q plus -> exec Q s = Some rest -> length rest < length s.
Proof.
  intros HQ H. destruct (h_exec_some _ _ _ _ HQ H) as (Hs & Hne & _).
  apply (f_equal (@length _)) in Hs. rewrite length_app in Hs.
  destruct (matched s rest); [congruence | cbn in Hs; lia].
Qed.

Lemma host_exec_before_h H u v :
  host_pattern H -> u <> [] -> hstart v = true ->
  exec H (u ++ v) = option_map (fun t => t ++ v) (exec H u).
Proof.
  intros ((Hnil & L & Hpeel & Hh) & _) Hu Hv.
  exact (@exec_host_before_h H L false Hpeel Hh u v eq_refl Hu Hv).
Qed.

Lemma link_exec_nil P : link_pattern P -> exec P [] = None.
Proof. intros (_ & H). exact (h_exec_nil _ _ H). Qed.

Lemma boundary_app_nonspace pre t :
  pre <> [] -> boundary (pre ++ t) = boundary pre.
Proof. destruct pre; [congruence | reflexivity]. Qed.

(** A link match is a non-empty run without white space that starts with
    h and ends where the word ends. *)
Lemma link_exec_some P s rest :
  link_pattern P -> exec P s = Some rest ->
  s = matched s rest ++ rest
  /\ matched s rest <> []
  /\ Forall nonspace (matched s rest)
  /\ boundary rest = true
  /\ hstart s = true.
Proof.
  intros (Hns & HP) H.
  destruct (h_exec_some _ _ _ _ HP H) as (Hs & Hne & Hst).
  destruct HP as (Hnil & L & Hpeel & Hh).
  repeat split; auto.
  - unfold exec in H. destruct (match_re_nonspace _ _ _ Hns H)
      as (pre & t & E & [= ->] & F).
    rewrite E, matched_app. exact F.
  - unfold exec in H. destruct s as [|c s]; [now rewrite Hnil in H|].
    rewrite Hpeel in H. destruct (char_matches 104%N c); [|discriminate].
    apply match_re_suffix in H. destruct H as (pre & t & _ & H).
    now apply match_plus_greedy in H.
Qed.

Lemma link_rest_shorter P s rest :
  link_pattern P -> exec P s = Some rest -> length rest < length s.
Proof.
  intros HP H. destruct (link_exec_some _ _ _ HP H) as (Hs & Hne & _).
  apply (f_equal (@length _)) in Hs. rewrite length_app in Hs.
  destruct (matched s rest); [congruence | cbn in Hs; lia].
Qed.

Lemma link_exec_space P u c v :
  link_pattern P -> is_space c = true ->
  exec P (u ++ c :: v) = option_map (fun t => t ++ c :: v) (exec P u).
Proof.
  intros (Hns & _) Hc. apply exec_ctx. now apply nonspace_lits_rejects.
Qed.

Lemma link_exec_before_h P u v1 v2 :
  link_pattern P -> u <> [] -> hstart v1 = true -> hstart v2 = true ->
  is_some (exec P (u ++ v1)) = is_some (exec P (u ++ v2)).
Proof.
  intros (_ & HP). now apply (h_exec_before_h P true).
Qed.

Lemma is_space_not_h c : is_space c = true -> char_matches 104%N c = false.
Proof. intros H. now apply char_matches_space. Qed.

Lemma hstart_boundary s : hstart s = true -> boundary s = false.
Proof.
  destruct s as [|c s]; cbn; [discriminate|]. intros H.
  destruct (is_space c) eqn:E; [|reflexivity].
  rewrite (is_space_not_h _ E) in H. discriminate.
Qed.

(** *** Walking a text *)

Section Walk.
Variables (r : regex) (f : jsstring -> jsstring).

Lemma subst_skip x rest :
  subst r f (length x) (x ++ rest) = subst r f 0 rest.
Proof. induction x as [|c x IH]; [reflexivity | exact IH]. Qed.

Lemma scan_skip x rest : scan r (length x) (x ++ rest) = scan r 0 rest.
Proof. induction x as [|c x IH]; [reflexivity | exact IH]. Qed.

Lemma subst_none c s :
  exec r (c :: s) = None -> subst r f 0 (c :: s) = c :: subst r f 0 s.
Proof. intros H. cbn [subst]. now rewrite H. Qed.

Lemma subst_some s rest :
  exec r s = Some rest -> matched s rest <> [] ->
  subst r f 0 s = f (matched s rest) ++ subst r f 0 rest.
Proof.
  intros H Hne. pose proof (exec_split _ _ H) as Hs.
  destruct s as [|c s]; [now destruct Hne|].
  cbn [subst]. rewrite H.
  destruct (matched (c :: s) rest) as [|c' m] eqn:Em; [congruence|].
  cbn in Hs. injection Hs as _ Hs. f_equal.
  replace (length (c' :: m) - 1) with (length m) by (cbn; lia).
  rewrite Hs at 1. apply subst_skip.
Qed.

Lemma scan_none c s :
  exec r (c :: s) = None -> scan r 0 (c :: s) = scan r 0 s.
Proof. intros H. cbn [scan]. now rewrite H. Qed.

Lemma scan_some s rest :
  exec r s = Some rest -> matched s rest <> [] ->
  scan r 0 s = matched s rest :: scan r 0 rest.
Proof.
  intros H Hne. pose proof (exec_split _ _ H) as Hs.
  destruct s as [|c s]; [now destruct Hne|].
  cbn [scan]. rewrite H. cbv zeta.
  destruct (matched (c :: s) rest) as [|c' m] eqn:Em; [congruence|].
  cbn in Hs. injection Hs as _ Hs. f_equal.
  replace (length (c' :: m) - 1) with (length m) by (cbn; lia).
  rewrite Hs at 1. apply scan_skip.
Qed.

Lemma subst_quiet u v :
  quiet r u v -> subst r f 0 (u ++ v) = u ++ subst r f 0 v.
Proof.
  induction u as [|c u IH]; cbn [quiet app]; [reflexivity|].
  intros [H Hq]. rewrite subst_none by exact H. now rewrite IH.
Qed.

(** Either nothing matches, or there is a first match. *)
Lemma first_match s :
  (quiet r s [] /\ exec r [] = None)
  \/ exists u rest' rest,
       s = u ++ rest' /\ quiet r u rest' /\ exec r rest' = Some rest.
Proof.
  induction s as [|c s IH].
  - destruct (exec r []) as [rest|] eqn:E.
    + right. exists [], [], rest. cbn. auto.
    + left. cbn. auto.
  - destruct (exec r (c :: s)) as [rest|] eqn:E.
    + right. exists [], (c :: s), rest. cbn. auto.
    + destruct IH as [[Hq Hn]|(u & rest' & rest & -> & Hq & Hx)].
      * left. cbn. rewrite app_nil_r. auto.
      * right. exists (c :: u), rest', rest. cbn. auto.
Qed.

Lemma matched_length s rest : length (matched s rest) <= length s.
Proof. unfold matched. rewrite length_firstn. lia. Qed.

(** When no match runs into [v], the walk of [w ++ v] is the walk of [w]
    followed by the walk of [v]. *)
Variable v : jsstring.
Hypothesis r_nil : exec r [] = None.
Hypothesis r_v : forall u,
  u <> [] -> exec r (u ++ v) = option_map (fun t => t ++ v) (exec r u).

Lemma subst_nil n : subst r f n [] = [].
Proof. cbn [subst]. rewrite r_nil. now destruct n. Qed.

Lemma subst_split w :
  forall n, n <= length w ->
    subst r f n (w ++ v) = subst r f n w ++ subst r f 0 v.
Proof.
  induction w as [|c w IH]; intros n Hn.
  - assert (n = 0) as -> by (cbn in Hn; lia).
    now rewrite subst_nil.
  - destruct n as [|n]; [|cbn [app subst]; apply IH; cbn in Hn; lia].
    change ((c :: w) ++ v) with (c :: w ++ v).
    cbn [subst].
    change (c :: w ++ v) with ((c :: w) ++ v).
    rewrite (r_v (c :: w)) by discriminate.
    destruct (exec r (c :: w)) as [t|] eqn:E; cbn [option_map].
    + pose proof (exec_split _ _ E) as Hs.
      assert (Em : matched ((c :: w) ++ v) (t ++ v) = matched (c :: w) t).
      { rewrite Hs at 1. rewrite <- app_assoc. now rewrite matched_app. }
      rewrite Em.
      pose proof (matched_length (c :: w) t) as Hl.
      destruct (matched (c :: w) t) as [|c' m].
      * rewrite <- app_assoc. cbn [app]. do 2 f_equal. apply IH. lia.
      * rewrite <- app_assoc. f_equal. apply IH. cbn in Hl |- *. lia.
    + cbn [app]. f_equal. apply IH. lia.
Qed.

End Walk.

(** *** The two passes of [convertMessageLinks] *)

Lemma hstart_app a b : hstart a = true -> hstart (a ++ b) = true.
Proof. destruct a; [discriminate | trivial]. Qed.

Lemma subst_const_hstart r s :
  hstart s = true -> hstart (replaceAll r (fun _ => RXDDIT) s) = true.
Proof.
  destruct s as [|c s]; [discriminate|]. intros H.
  unfold replaceAll. cbn [subst].
  destruct (exec r (c :: s)); [|exact H].
  destruct (matched (c :: s) j); reflexivity.
Qed.

Lemma convertToRxddit_hstart s :
  hstart s = true -> hstart (convertToRxddit s) = true.
Proof. intros H. unfold convertToRxddit. now do 2 apply subst_const_hstart. Qed.

Lemma matched_hstart s rest :
  hstart s = true -> matched s rest <> [] -> hstart (matched s rest) = true.
Proof.
  unfold matched. destruct s as [|c s]; [discriminate|].
  destruct (length (c :: s) - length rest); [now intros _ []|trivial].
Qed.

Lemma link_exec_alone P s rest :
  link_pattern P -> exec P s = Some rest ->
  exec P (matched s rest) = Some [] .
Proof.
  intros HP H.
  destruct (link_exec_some _ _ _ HP H) as (Hs & _ & _ & Hb & _).
  destruct rest as [|d v].
  - rewrite app_nil_r in Hs. now rewrite <- Hs.
  - cbn in Hb. rewrite Hs in H at 1.
    rewrite (link_exec_space _ _ _ _ HP Hb) in H.
    destruct (exec P (matched s (d :: v))) as [t|]; [|discriminate].
    cbn in H. injection H as H.
    apply (app_inv_tail (d :: v) t []) in H. now subst.
Qed.

Lemma replaceAll_link P (f : jsstring -> jsstring) s rest :
  link_pattern P -> exec P s = Some rest ->
  replaceAll P f s = f (matched s rest) ++ replaceAll P f rest.
Proof.
  intros HP H. apply subst_some; [exact H|].
  now destruct (link_exec_some _ _ _ HP H) as (_ & ? & _).
Qed.

Lemma replaceAll_whole_link P (f : jsstring -> jsstring) m :
  link_pattern P -> exec P m = Some [] -> replaceAll P f m = f m.
Proof.
  intros HP H. rewrite (replaceAll_link _ f _ _ HP H).
  pose proof (exec_split _ _ H) as Hs. rewrite app_nil_r in Hs.
  rewrite <- Hs. unfold replaceAll.
  rewrite subst_nil by now apply link_exec_nil. apply app_nil_r.
Qed.

Lemma replaceAll_boundary P (f : jsstring -> jsstring) s :
  link_pattern P -> boundary s = true -> boundary (replaceAll P f s) = true.
Proof.
  intros HP Hb. destruct s as [|c s].
  - unfold replaceAll. now rewrite subst_nil by now apply link_exec_nil.
  - cbn in Hb. unfold replaceAll. rewrite subst_none; [exact Hb|].
    destruct (exec P (c :: s)) as [rest|] eqn:E; [|reflexivity].
    destruct (link_exec_some _ _ _ HP E) as (_ & _ & _ & _ & Hh).
    cbn in Hh. rewrite (is_space_not_h _ Hb) in Hh. discriminate.
Qed.

Lemma option_map_app_nil (o : option jsstring) :
  option_map (fun t => t ++ []) o = o.
Proof. destruct o; cbn; now rewrite ?app_nil_r. Qed.

Lemma replaceAll_words P (f : jsstring -> jsstring) w v :
  link_pattern P -> boundary v = true ->
  replaceAll P f (w ++ v) = replaceAll P f w ++ replaceAll P f v.
Proof.
  intros HP Hv. unfold replaceAll. apply subst_split.
  - now apply link_exec_nil.
  - intros u _. destruct v as [|d v].
    + now rewrite app_nil_r, option_map_app_nil.
    + now apply link_exec_space.
  - lia.
Qed.

(** Replacing the matches of one pattern does not make another pattern
    match where it did not: both the matches and what replaces them start
    with h. *)
Lemma exec_after_subst Q plus r plus' (f : jsstring -> jsstring) c s :
  h_initial Q plus -> h_initial r plus' ->
  (forall m, hstart m = true -> hstart (f m) = true) ->
  exec Q (c :: s) = None ->
  exec Q (c :: replaceAll r f s) = None.
Proof.
  intros HQ Hr Hf H.
  destruct (first_match r s) as [[Hq _]|(u & rest' & rest & -> & Hq & Hx)].
  - unfold replaceAll. rewrite <- (app_nil_r s) at 1.
    rewrite subst_quiet by exact Hq.
    rewrite subst_nil by exact (h_exec_nil _ _ Hr).
    now rewrite app_nil_r.
  - unfold replaceAll. rewrite subst_quiet by exact Hq.
    destruct (h_exec_some _ _ _ _ Hr Hx) as (_ & Hne & Hh).
    rewrite (subst_some r f _ _ Hx Hne).
    assert (E : is_some (exec Q ((c :: u) ++ rest'))
                = is_some (exec Q ((c :: u) ++
                     f (matched rest' rest) ++ subst r f 0 rest))).
    { apply (h_exec_before_h Q plus); auto; [discriminate|].
      apply hstart_app, Hf. now apply matched_hstart. }
    cbn [app] in E. rewrite H in E. cbn [is_some] in E.
    destruct (exec Q (c :: u ++ f (matched rest' rest) ++ subst r f 0 rest));
      [discriminate E | reflexivity].
Qed.

Lemma exec_after_pass P Q c s :
  link_pattern P -> link_pattern Q ->
  exec Q (c :: s) = None ->
  exec Q (c :: replaceAll P convertToRxddit s) = None.
Proof.
  intros (_ & HP) (_ & HQ).
  apply (exec_after_subst Q true P true); auto.
  apply convertToRxddit_hstart.
Qed.

(** *** [convertToRxddit] leaves no host to convert *)

Lemma quiet_app r a b v :
  quiet r (a ++ b) v <-> quiet r a (b ++ v) /\ quiet r b v.
Proof.
  induction a as [|c a IH]; cbn [quiet app]; [tauto|].
  rewrite IH, <- app_assoc. tauto.
Qed.

Lemma replaceAll_quiet r (f : jsstring -> jsstring) s :
  exec r [] = None -> quiet r s [] -> replaceAll r f s = s.
Proof.
  intros Hn Hq. unfold replaceAll. rewrite <- (app_nil_r s) at 1.
  rewrite subst_quiet by exact Hq.
  rewrite subst_nil by exact Hn. apply app_nil_r.
Qed.

Lemma host_pass_keeps_quiet H H' :
  host_pattern H -> host_pattern H' ->
  forall s, quiet H s [] -> quiet H (replaceAll H' (fun _ => RXDDIT) s) [].
Proof.
  intros HH HH' s.
  remember (length s) as n eqn:Hn.
  revert s Hn. induction n as [n IH] using lt_wf_ind. intros s Hn Hq.
  destruct s as [|c s].
  - unfold replaceAll. rewrite subst_nil by exact (h_exec_nil _ _ (proj1 HH')).
    exact I.
  - destruct (exec H' (c :: s)) as [rest|] eqn:E.
    + destruct (h_exec_some _ _ _ _ (proj1 HH') E) as (Hs & Hne & _).
      unfold replaceAll. rewrite (subst_some _ _ _ _ E Hne).
      apply quiet_app. split.
      * rewrite app_nil_r. apply HH.
      * apply (IH (length rest)); [|reflexivity|].
        -- subst n. exact (h_rest_shorter _ _ _ _ (proj1 HH') E).
        -- rewrite Hs in Hq. now apply quiet_app in Hq.
    + unfold replaceAll. rewrite subst_none by exact E.
      cbn [quiet] in Hq |- *. destruct Hq as [Hx Hq].
      rewrite app_nil_r in Hx |- *. split.
      * apply (exec_after_subst H false H' false); auto;
          [apply HH | apply HH'].
      * apply (IH (length s)); [subst n; cbn; lia | reflexivity | exact Hq].
Qed.

Lemma host_pass_quiet H :
  host_pattern H ->
  forall s, quiet H (replaceAll H (fun _ => RXDDIT) s) [].
Proof.
  intros HH s.
  remember (length s) as n eqn:Hn.
  revert s Hn. induction n as [n IH] using lt_wf_ind. intros s Hn.
  destruct s as [|c s].
  - unfold replaceAll. rewrite subst_nil by exact (h_exec_nil _ _ (proj1 HH)).
    exact I.
  - destruct (exec H (c :: s)) as [rest|] eqn:E.
    + destruct (h_exec_some _ _ _ _ (proj1 HH) E) as (Hs & Hne & _).
      unfold replaceAll. rewrite (subst_some _ _ _ _ E Hne).
      apply quiet_app. split.
      * rewrite app_nil_r. apply HH.
      * apply (IH (length rest)); [|reflexivity].
        subst n. exact (h_rest_shorter _ _ _ _ (proj1 HH) E).
    + unfold replaceAll. rewrite subst_none by exact E.
      cbn [quiet]. rewrite app_nil_r. split.
      * apply (exec_after_subst H false H false); auto; apply HH.
      * apply (IH (length s)); [subst n; cbn; lia | reflexivity].
Qed.

Lemma convertToRxddit_quiet s :
  quiet HOST_WWW (convertToRxddit s) []
  /\ quiet HOST_OLD_NEW (convertToRxddit s) [].
Proof.
  unfold convertToRxddit. split.
  - apply host_pass_keeps_quiet;
      [apply HOST_WWW_host | apply HOST_OLD_NEW_host|].
    apply host_pass_quiet, HOST_WWW_host.
  - apply host_pass_quiet, HOST_OLD_NEW_host.
Qed.

(** Converting twice is converting once. *)
Lemma convertToRxddit_idempotent s :
  convertToRxddit (convertToRxddit s) = convertToRxddit s.
Proof.
  destruct (convertToRxddit_quiet s) as [H1 H2].
  unfold convertToRxddit at 1.
  rewrite (replaceAll_quiet HOST_WWW) by (reflexivity || exact H1).
  now rewrite (replaceAll_quiet HOST_OLD_NEW) by (reflexivity || exact H2).
Qed.

Lemma host_pass_split H x v :
  host_pattern H -> hstart v = true ->
  replaceAll H (fun _ => RXDDIT) (x ++ v)
  = replaceAll H (fun _ => RXDDIT) x ++ replaceAll H (fun _ => RXDDIT) v.
Proof.
  intros HH Hv. unfold replaceAll. apply subst_split.
  - exact (h_exec_nil _ _ (proj1 HH)).
  - intros u Hu. now apply host_exec_before_h.
  - lia.
Qed.

(** Conversion works on each side of an h on its own. *)
Lemma convertToRxddit_split x v :
  hstart v = true ->
  convertToRxddit (x ++ v) = convertToRxddit x ++ convertToRxddit v.
Proof.
  intros Hv. unfold convertToRxddit.
  rewrite (host_pass_split _ _ _ HOST_WWW_host Hv).
  apply host_pass_split; [apply HOST_OLD_NEW_host|].
  now apply subst_const_hstart.
Qed.

Lemma convertMessageLinks_unfold content :
  convertMessageLinks content
  = replaceAll PATTERN_OLD_NEW convertToRxddit
      (replaceAll PATTERN_WWW convertToRxddit content).
Proof. reflexivity. Qed.

(** *** A link is replaced by its conversion *)

Lemma match_re_mono r s k1 k2 :
  (forall t, is_some (k1 t) = true -> is_some (k2 t) = true) ->
  is_some (match_re r s k1) = true -> is_some (match_re r s k2) = true.
Proof.
  revert s k1 k2.
  induction r as [l|r IH|r1 IH1 r2 IH2|r1 IH1 r2 IH2|]; intros s k1 k2 H;
    cbn [match_re].
  - revert s. induction l as [|p l IHl]; intros s; cbn [match_lit]; [apply H|].
    destruct s as [|c s]; [trivial|].
    destruct (char_matches p c); [apply IHl | trivial].
  - specialize (IH s k1 k2 H). specialize (H s).
    destruct (match_re r s k1), (match_re r s k2); cbn in *; auto;
      discriminate (IH eq_refl).
  - specialize (IH1 s k1 k2 H). specialize (IH2 s k1 k2 H).
    destruct (match_re r1 s k1), (match_re r1 s k2); cbn in *; auto;
      discriminate (IH1 eq_refl).
  - apply IH1. intros t. apply IH2, H.
  - induction s as [|c s IHs]; cbn [match_plus]; [trivial|].
    destruct (is_space c); [trivial|]. specialize (H s).
    destruct (match_plus s k1), (match_plus s k2); cbn in *; auto;
      discriminate (IHs eq_refl).
Qed.

Lemma quiet_seq a b u v : quiet a u v -> quiet (Seq a b) u v.
Proof.
  induction u as [|c u IH]; cbn [quiet]; [trivial|].
  intros [H Hq]. split; [|now apply IH].
  destruct (exec (Seq a b) (c :: u ++ v)) as [rest|] eqn:E; [|reflexivity].
  assert (S : is_some (exec a (c :: u ++ v)) = true).
  { unfold exec in E |- *. cbn [match_re] in E.
    eapply match_re_mono; [|rewrite E; reflexivity]. reflexivity. }
  rewrite H in S. discriminate S.
Qed.

Lemma Forall_firstn_keep (Pr : char16 -> Prop) n (s : jsstring) :
  Forall Pr s -> Forall Pr (firstn n s).
Proof.
  revert n. induction s as [|c s IH]; intros [|n] H; cbn; auto.
  constructor; [exact (Forall_inv H) | apply IH, (Forall_inv_tail H)].
Qed.

Lemma subst_Forall (Pr : char16 -> Prop) r (f : jsstring -> jsstring) :
  (forall m, Forall Pr m -> Forall Pr (f m)) ->
  forall s n, Forall Pr s -> Forall Pr (subst r f n s).
Proof.
  intros Hf. induction s as [|c s IH]; intros n Hs.
  - cbn [subst]. destruct n, (exec r []); auto.
  - pose proof (Forall_inv_tail Hs) as Hs'.
    cbn [subst]. destruct n as [|n]; [|now apply IH].
    destruct (exec r (c :: s)) as [rest|].
    + assert (Hm : Forall Pr (matched (c :: s) rest))
        by (unfold matched; now apply Forall_firstn_keep).
      destruct (matched (c :: s) rest) as [|c' m] eqn:Em.
      * apply Forall_app. split; [now apply Hf|].
        constructor; [exact (Forall_inv Hs) | now apply IH].
      * apply Forall_app. split; [now apply Hf | now apply IH].
    + constructor; [exact (Forall_inv Hs) | now apply IH].
Qed.

Lemma RXDDIT_nonspace : Forall nonspace RXDDIT.
Proof. repeat constructor. Qed.

Lemma convertToRxddit_nonspace s :
  Forall nonspace s -> Forall nonspace (convertToRxddit s).
Proof.
  intros H. unfold convertToRxddit, replaceAll.
  apply subst_Forall; [intros; apply RXDDIT_nonspace|].
  apply subst_Forall; [intros; apply RXDDIT_nonspace | exact H].
Qed.

Lemma nonspace_boundary a rest :
  Forall nonspace (a ++ rest) -> boundary rest = true -> rest = [].
Proof.
  intros H Hb. destruct rest as [|d v]; [reflexivity|].
  apply Forall_app in H. destruct H as [_ H]. apply Forall_inv in H.
  cbn in Hb. unfold nonspace in H. congruence.
Qed.

(** A link matched as a whole on its own. *)
Lemma link_whole P m :
  link_pattern P -> exec P m = Some [] ->
  Forall nonspace m /\ hstart m = true /\ m <> [].
Proof.
  intros HP H. destruct (link_exec_some _ _ _ HP H) as (Hs & Hne & Hf & _ & Hh).
  rewrite app_nil_r in Hs. rewrite <- Hs in Hf, Hne. auto.
Qed.

Lemma convertMessageLinks_www m :
  exec PATTERN_WWW m = Some [] ->
  convertMessageLinks m = convertToRxddit m.
Proof.
  intros H. rewrite convertMessageLinks_unfold.
  rewrite (replaceAll_whole_link _ _ _ PATTERN_WWW_link H).
  apply replaceAll_quiet; [reflexivity|].
  apply (quiet_seq HOST_OLD_NEW). apply convertToRxddit_quiet.
Qed.

Lemma convertMessageLinks_old_new m :
  exec PATTERN_WWW m = None -> exec PATTERN_OLD_NEW m = Some [] ->
  convertMessageLinks m = convertToRxddit m.
Proof.
  intros E1 E2. rewrite convertMessageLinks_unfold.
  destruct (link_whole _ _ PATTERN_OLD_NEW_link E2) as (Hf & Hh & Hne).
  destruct (first_match PATTERN_WWW m)
    as [[Hq _]|(u & y & rest & -> & Hq & Hx)].
  - rewrite (replaceAll_quiet PATTERN_WWW) by (reflexivity || exact Hq).
    exact (replaceAll_whole_link _ _ _ PATTERN_OLD_NEW_link E2).
  - assert (Hu : u <> []) by (intros ->; cbn [app] in E1; congruence).
    destruct (link_exec_some _ _ _ PATTERN_WWW_link Hx)
      as (Hs & _ & _ & Hb & Hy).
    assert (rest = []) as ->.
    { apply (nonspace_boundary (u ++ matched y rest)); [|exact Hb].
      now rewrite <- app_assoc, <- Hs. }
    unfold replaceAll at 2. rewrite subst_quiet by exact Hq.
    fold (replaceAll PATTERN_WWW convertToRxddit y).
    rewrite (replaceAll_whole_link _ _ _ PATTERN_WWW_link Hx).
    apply Forall_app in Hf. destruct Hf as [Hfu Hfy].
    pose proof (convertToRxddit_hstart _ Hy) as Hcy.
    assert (E : exec PATTERN_OLD_NEW (u ++ convertToRxddit y) = Some []).
    { pose proof (link_exec_before_h PATTERN_OLD_NEW u y (convertToRxddit y)
                    PATTERN_OLD_NEW_link Hu Hy Hcy) as S.
      rewrite E2 in S. cbn [is_some] in S.
      destruct (exec PATTERN_OLD_NEW (u ++ convertToRxddit y))
        as [rest2|] eqn:E; [|discriminate S].
      destruct (link_exec_some _ _ _ PATTERN_OLD_NEW_link E)
        as (Hs2 & _ & _ & Hb2 & _).
      f_equal. apply (nonspace_boundary (matched (u ++ convertToRxddit y) rest2));
        [|exact Hb2].
      rewrite <- Hs2. apply Forall_app. split; [exact Hfu|].
      now apply convertToRxddit_nonspace. }
    rewrite (replaceAll_whole_link _ _ _ PATTERN_OLD_NEW_link E).
    rewrite (convertToRxddit_split _ _ Hcy), convertToRxddit_idempotent.
    now rewrite <- (convertToRxddit_split _ _ Hy).
Qed.

(** *** Segments *)

Lemma segments_from_skip x rest :
  segments_from (length x) (x ++ rest) = segments_from 0 rest.
Proof. induction x as [|c x IH]; [reflexivity | exact IH]. Qed.

Lemma segments_none c s :
  exec_any (c :: s) = None -> segments (c :: s) = Gap c :: segments s.
Proof. intros H. unfold segments. cbn [segments_from]. now rewrite H. Qed.

Lemma segments_some s rest :
  exec_any s = Some rest -> matched s rest <> [] ->
  s = matched s rest ++ rest ->
  segments s = Link (matched s rest) :: segments rest.
Proof.
  intros H Hne Hs. destruct s as [|c s]; [now destruct Hne|].
  unfold segments. cbn [segments_from]. rewrite H. f_equal.
  destruct (matched (c :: s) rest) as [|c' m] eqn:Em; [congruence|].
  cbn in Hs. injection Hs as _ Hs.
  replace (length (c' :: m) - 1) with (length m) by (cbn; lia).
  rewrite Hs at 1. apply segments_from_skip.
Qed.

Lemma exec_any_some s rest :
  exec_any s = Some rest ->
  exists P, link_pattern P /\ In P REDDIT_PATTERNS /\ exec P s = Some rest.
Proof.
  unfold exec_any. destruct (exec PATTERN_WWW s) as [t|] eqn:E.
  - intros [= ->]. exists PATTERN_WWW.
    split; [apply PATTERN_WWW_link | split; [now left | exact E]].
  - intros H. exists PATTERN_OLD_NEW.
    split; [apply PATTERN_OLD_NEW_link | split; [right; now left | exact H]].
Qed.

(** The segments of a text spell the text. *)
Lemma segments_text s : concat (map text_of (segments s)) = s.
Proof.
  remember (length s) as n eqn:Hn.
  revert s Hn. induction n as [n IH] using lt_wf_ind. intros s Hn.
  destruct s as [|c s]; [reflexivity|].
  destruct (exec_any (c :: s)) as [rest|] eqn:E.
  - destruct (exec_any_some _ _ E) as (P & HP & _ & Hx).
    destruct (link_exec_some _ _ _ HP Hx) as (Hs & Hne & _).
    rewrite (segments_some _ _ E Hne Hs). cbn [map concat text_of].
    rewrite (IH (length rest)); [now rewrite <- Hs | | reflexivity].
    subst n. now apply (link_rest_shorter P).
  - rewrite (segments_none _ _ E). cbn [map concat text_of app].
    f_equal. apply (IH (length s)); [subst n; cbn; lia | reflexivity].
Qed.

(** *** [convertMessageLinks], segment by segment *)

Lemma link_exec_none_alone P s rest :
  link_pattern P -> boundary rest = true ->
  exec P (s ++ rest) = None -> exec P s = None.
Proof.
  intros HP Hb H. destruct rest as [|d v].
  - now rewrite app_nil_r in H.
  - cbn in Hb. rewrite (link_exec_space _ _ _ _ HP Hb) in H.
    destruct (exec P s); [discriminate | reflexivity].
Qed.

Lemma exec_any_www s rest :
  exec PATTERN_WWW s = Some rest -> exec_any s = Some rest.
Proof. intros H. unfold exec_any. now rewrite H. Qed.

Lemma exec_any_old_new s o :
  exec PATTERN_WWW s = None -> exec PATTERN_OLD_NEW s = o -> exec_any s = o.
Proof. intros H1 H2. unfold exec_any. now rewrite H1. Qed.

(** [convertMessageLinks] copies the code units outside the links and
    puts [convertToRxddit] of each link in the link's place. *)
Lemma convertMessageLinks_segments s :
  convertMessageLinks s = concat (map render (segments s)).
Proof.
  remember (length s) as n eqn:Hn.
  revert s Hn. induction n as [n IH] using lt_wf_ind. intros s Hn.
  destruct s as [|c s]; [reflexivity|].
  rewrite convertMessageLinks_unfold.
  destruct (exec PATTERN_WWW (c :: s)) as [rest|] eqn:E1.
  - destruct (link_exec_some _ _ _ PATTERN_WWW_link E1)
      as (Hs & Hne & _ & Hb & _).
    rewrite (segments_some _ _ (exec_any_www _ _ E1) Hne Hs).
    cbn [map concat render].
    rewrite (replaceAll_link _ _ _ _ PATTERN_WWW_link E1).
    rewrite (replaceAll_words _ _ _ _ PATTERN_OLD_NEW_link
               (replaceAll_boundary _ _ _ PATTERN_WWW_link Hb)).
    rewrite (replaceAll_quiet PATTERN_OLD_NEW);
      [|reflexivity
       |apply (quiet_seq HOST_OLD_NEW), convertToRxddit_quiet].
    f_equal. rewrite <- convertMessageLinks_unfold.
    apply (IH (length rest)); [|reflexivity].
    subst n. exact (link_rest_shorter _ _ _ PATTERN_WWW_link E1).
  - destruct (exec PATTERN_OLD_NEW (c :: s)) as [rest|] eqn:E2.
    + destruct (link_exec_some _ _ _ PATTERN_OLD_NEW_link E2)
        as (Hs & Hne & _ & Hb & _).
      rewrite (segments_some _ _ (exec_any_old_new _ _ E1 E2) Hne Hs).
      cbn [map concat render].
      rewrite Hs at 1.
      rewrite (replaceAll_words _ _ _ _ PATTERN_WWW_link Hb).
      rewrite (replaceAll_words _ _ _ _ PATTERN_OLD_NEW_link
                 (replaceAll_boundary _ _ _ PATTERN_WWW_link Hb)).
      rewrite <- !convertMessageLinks_unfold.
      rewrite convertMessageLinks_old_new.
      * f_equal. apply (IH (length rest)); [|reflexivity].
        subst n. exact (link_rest_shorter _ _ _ PATTERN_OLD_NEW_link E2).
      * apply (link_exec_none_alone _ _ rest PATTERN_WWW_link Hb).
        now rewrite <- Hs.
      * exact (link_exec_alone _ _ _ PATTERN_OLD_NEW_link E2).
    + rewrite (segments_none _ _ (exec_any_old_new _ _ E1 E2)).
      cbn [map concat render app].
      unfold replaceAll at 2. rewrite subst_none by exact E1.
      unfold replaceAll at 1. rewrite subst_none
        by exact (exec_after_pass _ _ _ _ PATTERN_WWW_link
                    PATTERN_OLD_NEW_link E2).
      f_equal. apply (IH (length s)); [subst n; cbn; lia | reflexivity].
Qed.

(** *** The links of the segments are among the matches *)

Lemma link_exec_word P w rest r' :
  link_pattern P -> Forall nonspace w -> boundary rest = true ->
  exec P (w ++ rest) = Some r' -> r' = rest.
Proof.
  intros HP Hw Hb H.
  destruct (link_exec_some _ _ _ HP H) as (Hs & _ & _ & Hb' & _).
  destruct rest as [|d v].
  - rewrite app_nil_r in H, Hs.
    apply (nonspace_boundary (matched w r')); [|exact Hb'].
    now rewrite <- Hs.
  - cbn in Hb. rewrite (link_exec_space _ _ _ _ HP Hb) in H.
    destruct (exec P w) as [t|] eqn:E; [|discriminate].
    cbn in H. injection H as <-.
    destruct (link_exec_some _ _ _ HP E) as (Ht & _ & _ & Hbt & _).
    assert (t = []) as ->; [|reflexivity].
    apply (nonspace_boundary (matched w t)); [|exact Hbt].
    now rewrite <- Ht.
Qed.

(** Walking over a word, a pattern finds at most a link that ends with
    the word, and goes on behind the word. *)
Lemma scan_word P w rest :
  link_pattern P -> Forall nonspace w -> boundary rest = true ->
  exists pre, scan P 0 (w ++ rest) = pre ++ scan P 0 rest.
Proof.
  intros HP Hw Hb. induction w as [|c w IH]; [now exists []|].
  cbn [app]. destruct (exec P (c :: w ++ rest)) as [r'|] eqn:E.
  - assert (r' = rest) as -> by exact (link_exec_word _ (c :: w) _ _ HP Hw Hb E).
    destruct (link_exec_some _ _ _ HP E) as (_ & Hne & _).
    rewrite (scan_some _ _ _ E Hne). now exists [matched (c :: w ++ rest) rest].
  - rewrite (scan_none _ _ _ E). apply IH. exact (Forall_inv_tail Hw).
Qed.

Lemma segments_links_matched m s :
  In (Link m) (segments s) ->
  In m (matchAll PATTERN_WWW s) \/ In m (matchAll PATTERN_OLD_NEW s).
Proof.
  unfold matchAll.
  remember (length s) as n eqn:Hn.
  revert s Hn. induction n as [n IH] using lt_wf_ind. intros s Hn.
  destruct s as [|c s]; [intros []|].
  destruct (exec_any (c :: s)) as [rest|] eqn:E.
  - destruct (exec_any_some _ _ E) as (P & HP & HPin & Hx).
    destruct (link_exec_some _ _ _ HP Hx) as (Hs & Hne & Hf & Hb & _).
    rewrite (segments_some _ _ E Hne Hs).
    destruct (scan_word PATTERN_WWW _ _ PATTERN_WWW_link Hf Hb) as (p1 & S1).
    destruct (scan_word PATTERN_OLD_NEW _ _ PATTERN_OLD_NEW_link Hf Hb)
      as (p2 & S2).
    rewrite <- Hs in S1, S2.
    intros [[= <-]|Hin].
    + pose proof (scan_some _ _ _ Hx Hne) as S.
      destruct HPin as [<-|[<-|[]]]; [left | right]; rewrite S; now left.
    + destruct (IH (length rest)) with (s := rest) as [H|H]; auto.
      * subst n. exact (link_rest_shorter _ _ _ HP Hx).
      * left. rewrite S1. apply in_or_app. now right.
      * right. rewrite S2. apply in_or_app. now right.
  - rewrite (segments_none _ _ E). intros [[=]|Hin].
    unfold exec_any in E.
    destruct (exec PATTERN_WWW (c :: s)) eqn:E1; [discriminate|].
    rewrite (scan_none _ _ _ E1), (scan_none _ _ _ E).
    apply (IH (length s)); [subst n; cbn; lia | reflexivity | exact Hin].
Qed.

Lemma segments_links_recognized m s :
  In (Link m) (segments s) ->
  exists P, In P REDDIT_PATTERNS /\ exec P m = Some [].
Proof.
  remember (length s) as n eqn:Hn.
  revert s Hn. induction n as [n IH] using lt_wf_ind. intros s Hn.
  destruct s as [|c s]; [intros []|].
  destruct (exec_any (c :: s)) as [rest|] eqn:E.
  - destruct (exec_any_some _ _ E) as (P & HP & HPin & Hx).
    destruct (link_exec_some _ _ _ HP Hx) as (Hs & Hne & _).
    rewrite (segments_some _ _ E Hne Hs).
    intros [[= <-]|Hin].
    + exists P. split; [exact HPin | exact (link_exec_alone _ _ _ HP Hx)].
    + apply (IH (length rest)) with (s := rest); auto.
      subst n. exact (link_rest_shorter _ _ _ HP Hx).
  - rewrite (segments_none _ _ E). intros [[=]|Hin].
    apply (IH (length s)) with (s := s); auto. subst n; cbn; lia.
Qed.

Lemma count_occ_two_In (l : list segment) (g : segment) :
  2 <= count_occ segment_eq_dec l g -> In g l.
Proof. intros H. apply (count_occ_In segment_eq_dec). lia. Qed.

(** C7.  When a recognized link [L] occurs twice (or more) among the
    segments of a text, [detectRedditLinks] lists [L] exactly once, and
    [convertMessageLinks] returns the text with every link, so both
    occurrences of [L], replaced in place by its conversion and every code
    unit outside the links unchanged. *)
Theorem detect_once_convert_each (content L : jsstring) :
  2 <= count_occ segment_eq_dec (segments content) (Link L) ->
  count_occ JS.eq_dec (detectRedditLinks content) L = 1
  /\ (exists P, In P REDDIT_PATTERNS /\ exec P L = Some [])
  /\ concat (map text_of (segments content)) = content
  /\ convertMessageLinks content = concat (map render (segments content))
  /\ render (Link L) = convertToRxddit L
  /\ (forall c, render (Gap c) = text_of (Gap c)).
Proof.
  intros H. apply count_occ_two_In in H.
  split; [|split; [|split; [|split; [|split]]]].
  - rewrite detectRedditLinks_unfold.
    apply NoDup_count_occ'; [apply set_from_NoDup|].
    apply set_from_In. split; [|intros []]. apply in_or_app.
    now apply segments_links_matched.
  - now apply (segments_links_recognized L content).
  - apply segments_text.
  - apply convertMessageLinks_segments.
  - reflexivity.
  - reflexivity.
Qed.

Lemma detect_once_convert_each_sample :
  let content :=
    str "a: https://reddit.com/r/test https://reddit.com/r/test" in
  let L := str "https://reddit.com/r/test" in
  2 <= count_occ segment_eq_dec (segments content) (Link L)
  /\ count_occ JS.eq_dec (detectRedditLinks content) L = 1
  /\ convertMessageLinks content
     = str "a: https://rxddit.com/r/test https://rxddit.com/r/test".
Proof.
  assert (H : 2 <= count_occ segment_eq_dec
                (segments
                   (str "a: https://reddit.com/r/test https://reddit.com/r/test"))
                (Link (str "https://reddit.com/r/test")))
    by (vm_compute; lia).
  split; [exact H|].
  destruct (detect_once_convert_each _ _ H) as (H1 & _ & _ & H2 & _).
  split; [exact H1|]. rewrite H2. vm_compute. reflexivity.
Defined.

(** *** The host patterns match in one way *)

Lemma char_matches_canon p c :
  char_matches p c = true <-> canonicalize c = canonicalize p.
Proof. unfold char_matches. rewrite N.eqb_eq. split; congruence. Qed.

Lemma char_matches_excl p q c :
  canonicalize p <> canonicalize q ->
  char_matches p c = true -> char_matches q c = false.
Proof.
  rewrite char_matches_canon. intros Hpq E.
  destruct (char_matches q c) eqn:F; [|reflexivity].
  apply char_matches_canon in F. congruence.
Qed.

Lemma char_matches_slash c : char_matches 47%N c = true -> c = 47%N.
Proof.
  rewrite char_matches_canon. change (canonicalize 47%N) with 47%N.
  unfold canonicalize.
  destruct ((97 <=? c) && (c <=? 122))%N eqn:E; intros H; [|exact H].
  apply andb_true_iff in E. destruct E as [E1 E2].
  apply N.leb_le in E1, E2. lia.
Qed.

Lemma char_matches_r c :
  char_matches 114%N c = true -> c = 114%N \/ c = 82%N.
Proof.
  rewrite char_matches_canon. change (canonicalize 114%N) with 82%N.
  unfold canonicalize.
  destruct ((97 <=? c) && (c <=? 122))%N eqn:E; intros H; [|now right].
  apply andb_true_iff in E. destruct E as [E1 E2].
  apply N.leb_le in E1, E2. left. lia.
Qed.

Lemma unambiguous_Lit l : unambiguous (Lit l).
Proof.
  intros s k. unfold exec. cbn [match_re]. revert s.
  induction l as [|p l IH]; intros s; cbn [match_lit]; [reflexivity|].
  destruct s as [|c s]; [reflexivity|].
  destruct (char_matches p c); [apply IH | reflexivity].
Qed.

Lemma unambiguous_Seq a b :
  unambiguous a -> unambiguous b -> unambiguous (Seq a b).
Proof.
  intros Ha Hb s k. unfold exec. cbn [match_re].
  rewrite (Ha s (fun s' => match_re b s' k)),
          (Ha s (fun s' => match_re b s' Some)).
  destruct (exec a s) as [t|]; [apply Hb | reflexivity].
Qed.

(** [a?b] when [b] cannot start where [a] does. *)
Lemma unambiguous_Opt_Seq a b :
  unambiguous a -> unambiguous b ->
  (forall s t, exec a s = Some t -> exec b s = None) ->
  unambiguous (Seq (Opt a) b).
Proof.
  intros Ha Hb Hx s k. unfold exec. cbn [match_re].
  rewrite (Ha s (fun s' => match_re b s' k)),
          (Ha s (fun s' => match_re b s' Some)).
  change (match_re b s Some) with (exec b s). rewrite (Hb s k).
  destruct (exec a s) as [t|] eqn:E; [|reflexivity].
  rewrite (Hx _ _ E), (Hb t k).
  change (match_re b t Some) with (exec b t).
  destruct (exec b t) as [u|]; [destruct (k u)|]; reflexivity.
Qed.

(** [(a1|a2)b] when [a2] cannot start where [a1] does. *)
Lemma unambiguous_Alt_Seq a1 a2 b :
  unambiguous a1 -> unambiguous a2 -> unambiguous b ->
  (forall s t, exec a1 s = Some t -> exec a2 s = None) ->
  unambiguous (Seq (Alt a1 a2) b).
Proof.
  intros H1 H2 Hb Hx s k. unfold exec. cbn [match_re].
  rewrite (H1 s (fun s' => match_re b s' k)),
          (H1 s (fun s' => match_re b s' Some)),
          (H2 s (fun s' => match_re b s' k)),
          (H2 s (fun s' => match_re b s' Some)).
  destruct (exec a1 s) as [t|] eqn:E.
  - rewrite (Hx _ _ E), (Hb t k).
    change (match_re b t Some) with (exec b t).
    destruct (exec b t) as [u|]; [destruct (k u)|]; reflexivity.
  - destruct (exec a2 s) as [t|]; [apply Hb | reflexivity].
Qed.

Lemma unambiguous_assoc a b c :
  unambiguous (Seq a (Seq b c)) -> unambiguous (Seq (Seq a b) c).
Proof. intros H s k. exact (H s k). Qed.

(** Two literals that differ in their first code unit do not match at
    the same place. *)
Lemma exec_Lit_excl p l q l' s t :
  canonicalize p <> canonicalize q ->
  exec (Lit (p :: l)) s = Some t -> exec (Lit (q :: l')) s = None.
Proof.
  intros Hpq. unfold exec. cbn [match_re match_lit].
  destruct s as [|c s]; [discriminate|].
  destruct (char_matches p c) eqn:E; [|discriminate].
  now rewrite (char_matches_excl p q c Hpq E).
Qed.

(** [https?:\/\/] *)
Lemma scheme_sep_unambiguous : unambiguous (Seq scheme (Lit (str "://"))).
Proof.
  apply unambiguous_assoc, unambiguous_Seq; [apply unambiguous_Lit|].
  apply unambiguous_Opt_Seq; try apply unambiguous_Lit.
  intros s t. apply (exec_Lit_excl 115%N [] 58%N (str "//")).
  vm_compute. discriminate.
Qed.

Lemma www_host_unambiguous :
  unambiguous (Seq (Opt (Lit (str "www."))) (Lit (str "reddit.com"))).
Proof.
  apply unambiguous_Opt_Seq; try apply unambiguous_Lit.
  intros s t. apply (exec_Lit_excl 119%N (str "ww.") 114%N (str "eddit.com")).
  vm_compute. discriminate.
Qed.

Lemma old_new_host_unambiguous :
  unambiguous (Seq (Alt (Lit (str "old")) (Lit (str "new")))
                   (Lit (str ".reddit.com"))).
Proof.
  apply unambiguous_Alt_Seq; try apply unambiguous_Lit.
  intros s t. apply (exec_Lit_excl 111%N (str "ld") 110%N (str "ew")).
  vm_compute. discriminate.
Qed.

Lemma HOST_WWW_unambiguous : unambiguous HOST_WWW.
Proof.
  intros s k.
  exact (unambiguous_Seq _ _ scheme_sep_unambiguous www_host_unambiguous s k).
Qed.

Lemma HOST_OLD_NEW_unambiguous : unambiguous HOST_OLD_NEW.
Proof.
  intros s k.
  exact (unambiguous_Seq _ _ scheme_sep_unambiguous old_new_host_unambiguous
           s k).
Qed.

(** A match of one of [REDDIT_PATTERNS] is the match of its host pattern
    followed by [/r/] and the rest of the word. *)
Lemma exec_host_then_path H s :
  unambiguous H ->
  exec (Seq H (Seq (Lit (str "/r/")) NotSpacePlus)) s
  = match exec H s with
    | Some t => exec (Seq (Lit (str "/r/")) NotSpacePlus) t
    | None => None
    end.
Proof. intros U. unfold exec at 1. cbn [match_re]. apply U. Qed.

Lemma exec_path_shape t :
  exec (Seq (Lit (str "/r/")) NotSpacePlus) t = Some [] ->
  exists r tail,
    t = 47%N :: r :: 47%N :: tail /\ (r = 114%N \/ r = 82%N)
    /\ tail <> [] /\ Forall nonspace tail.
Proof.
  unfold exec. change (str "/r/") with [47%N; 114%N; 47%N].
  cbn [match_re match_lit].
  destruct t as [|a [|r [|b tail]]]; try discriminate;
    try (destruct (char_matches 47%N a); discriminate);
    try (destruct (char_matches 47%N a), (char_matches 114%N r);
         discriminate).
  destruct (char_matches 47%N a) eqn:Ea; [|discriminate].
  destruct (char_matches 114%N r) eqn:Er; [|discriminate].
  destruct (char_matches 47%N b) eqn:Eb; [|discriminate].
  intros H. apply char_matches_slash in Ea, Eb. subst a b.
  destruct (match_plus_nonspace _ _ H) as (pre & u & -> & [= ->] & Hf & Hne).
  rewrite app_nil_r. exists r, pre. repeat split; auto.
  now apply char_matches_r.
Qed.

(** After a common start that matches in one way, two patterns that
    exclude each other still do. *)
Lemma exec_prefix_excl a x y s t :
  unambiguous a ->
  (forall u v, exec x u = Some v -> exec y u = None) ->
  exec (Seq a x) s = Some t -> exec (Seq a y) s = None.
Proof.
  intros U Hxy. unfold exec. cbn [match_re].
  rewrite (U s (fun s' => match_re x s' Some)),
          (U s (fun s' => match_re y s' Some)).
  destruct (exec a s) as [u|]; [exact (Hxy u t) | discriminate].
Qed.

Lemma old_new_not_www u v :
  exec (Seq (Alt (Lit (str "old")) (Lit (str "new")))
            (Lit (str ".reddit.com"))) u = Some v ->
  exec (Seq (Opt (Lit (str "www."))) (Lit (str "reddit.com"))) u = None.
Proof.
  unfold exec. cbn [match_re].
  change (str "old") with (111%N :: str "ld").
  change (str "new") with (110%N :: str "ew").
  change (str "www.") with (119%N :: str "ww.").
  change (str "reddit.com") with (114%N :: str "eddit.com").
  destruct u as [|c u]; [discriminate|]. cbn [match_lit].
  assert (X : forall p q, canonicalize p <> canonicalize q ->
                char_matches p c = true -> char_matches q c = false)
    by (intros p q; apply char_matches_excl).
  destruct (char_matches 111%N c) eqn:Eo.
  - rewrite (X 111%N 119%N), (X 111%N 114%N); auto; vm_compute; discriminate.
  - destruct (char_matches 110%N c) eqn:En; [|discriminate].
    rewrite (X 110%N 119%N), (X 110%N 114%N); auto; vm_compute; discriminate.
Qed.

(** The two host patterns do not match at the same place. *)
Lemma exec_hosts_excl s t :
  exec HOST_OLD_NEW s = Some t -> exec HOST_WWW s = None.
Proof.
  exact (exec_prefix_excl (Seq scheme (Lit (str "://"))) _ _ s t
           scheme_sep_unambiguous old_new_not_www).
Qed.

(** *** [convertToRxddit] on a recognized link *)

Lemma exec_seq_prefix a b s rest :
  exec (Seq a b) s = Some rest -> is_some (exec a s) = true.
Proof.
  unfold exec. cbn [match_re]. intros E.
  eapply match_re_mono; [|rewrite E; reflexivity]. reflexivity.
Qed.

Lemma host_pass_some H s rest :
  host_pattern H -> exec H s = Some rest ->
  replaceAll H (fun _ => RXDDIT) s
  = RXDDIT ++ replaceAll H (fun _ => RXDDIT) rest.
Proof.
  intros HH E. destruct (h_exec_some _ _ _ _ (proj1 HH) E) as (_ & Hne & _).
  unfold replaceAll. now rewrite (subst_some _ _ _ _ E Hne).
Qed.

Lemma host_pass_RXDDIT H v :
  host_pattern H ->
  replaceAll H (fun _ => RXDDIT) (RXDDIT ++ v)
  = RXDDIT ++ replaceAll H (fun _ => RXDDIT) v.
Proof. intros HH. unfold replaceAll. apply subst_quiet, HH. Qed.

(** The host pattern that matches first is replaced, the rest is
    converted on its own. *)
Lemma convertToRxddit_www s rest :
  exec HOST_WWW s = Some rest ->
  convertToRxddit s = RXDDIT ++ convertToRxddit rest.
Proof.
  intros E. unfold convertToRxddit.
  rewrite (host_pass_some _ _ _ HOST_WWW_host E).
  apply host_pass_RXDDIT, HOST_OLD_NEW_host.
Qed.

Lemma convertToRxddit_old_new s rest :
  exec HOST_WWW s = None -> exec HOST_OLD_NEW s = Some rest ->
  convertToRxddit s = RXDDIT ++ convertToRxddit rest.
Proof.
  intros E1 E2. unfold convertToRxddit.
  destruct (first_match HOST_WWW s)
    as [[Hq _]|(u & y & ry & -> & Hq & Hy)].
  - destruct (h_exec_some _ _ _ _ (proj1 HOST_OLD_NEW_host) E2) as (Hs & _).
    assert (Hq' : quiet HOST_WWW rest []).
    { rewrite Hs in Hq. now apply quiet_app in Hq. }
    rewrite (replaceAll_quiet HOST_WWW _ s) by (reflexivity || exact Hq).
    rewrite (replaceAll_quiet HOST_WWW _ rest) by (reflexivity || exact Hq').
    exact (host_pass_some _ _ _ HOST_OLD_NEW_host E2).
  - assert (Hu : u <> []) by (intros ->; cbn [app] in E1; congruence).
    destruct (h_exec_some _ _ _ _ (proj1 HOST_WWW_host) Hy) as (_ & _ & Hh).
    rewrite (host_exec_before_h _ _ _ HOST_OLD_NEW_host Hu Hh) in E2.
    destruct (exec HOST_OLD_NEW u) as [t|] eqn:Eu; [|discriminate].
    cbn in E2. injection E2 as <-.
    pose proof (exec_split _ _ Eu) as Hs.
    assert (Hqt : quiet HOST_WWW t y).
    { rewrite Hs in Hq. now apply quiet_app in Hq. }
    assert (EA : forall w, quiet HOST_WWW w y ->
              replaceAll HOST_WWW (fun _ => RXDDIT) (w ++ y)
              = w ++ replaceAll HOST_WWW (fun _ => RXDDIT) y)
      by (intros w Hw; unfold replaceAll; now apply subst_quiet).
    rewrite (EA u Hq), (EA t Hqt).
    pose proof (subst_const_hstart HOST_WWW y Hh) as Hh'.
    assert (E : exec HOST_OLD_NEW
                  (u ++ replaceAll HOST_WWW (fun _ => RXDDIT) y)
                = Some (t ++ replaceAll HOST_WWW (fun _ => RXDDIT) y)).
    { rewrite (host_exec_before_h _ _ _ HOST_OLD_NEW_host Hu Hh').
      now rewrite Eu. }
    exact (host_pass_some _ _ _ HOST_OLD_NEW_host E).
Qed.

(** C5, the claim as stated fails: a reddit host inside the query string
    of a recognized link is rewritten too. *)
Lemma convertToRxddit_rewrites_inner_host :
  ~ (forall L rest : jsstring,
       (exists P, In P REDDIT_PATTERNS /\ exec P L = Some []) ->
       exec HOST_WWW L = Some rest \/ exec HOST_OLD_NEW L = Some rest ->
       convertToRxddit L = RXDDIT ++ rest).
Proof.
  intros H.
  specialize (H (str "https://reddit.com/r/a?u=https://old.reddit.com/r/b")
                (str "/r/a?u=https://old.reddit.com/r/b")).
  assert (E : convertToRxddit
                (str "https://reddit.com/r/a?u=https://old.reddit.com/r/b")
              = str "https://rxddit.com/r/a?u=https://rxddit.com/r/b")
    by (vm_compute; reflexivity).
  rewrite E in H.
  assert (F : str "https://rxddit.com/r/a?u=https://rxddit.com/r/b"
              <> RXDDIT ++ str "/r/a?u=https://old.reddit.com/r/b")
    by (vm_compute; discriminate).
  apply F, H.
  - exists PATTERN_WWW. split; [now left | vm_compute; reflexivity].
  - left. vm_compute. reflexivity.
Qed.

(** C5, amended.  For a recognized link [L] one of the host patterns
    matches a non-empty start of [L], its scheme and host; what follows is
    [/r/] (the letter in either case) and a non-empty run without white
    space; the conversion is [https://rxddit.com] followed by the
    conversion of what follows, and by what follows itself, unchanged, when
    no reddit host occurs in it. *)
Theorem convertToRxddit_link (L : jsstring) (P : regex) :
  In P REDDIT_PATTERNS -> exec P L = Some [] ->
  exists rest,
    (exec HOST_WWW L = Some rest
     \/ exec HOST_WWW L = None /\ exec HOST_OLD_NEW L = Some rest)
    /\ L = matched L rest ++ rest
    /\ matched L rest <> []
    /\ (exists r tail,
          rest = 47%N :: r :: 47%N :: tail /\ (r = 114%N \/ r = 82%N)
          /\ tail <> [] /\ Forall nonspace tail)
    /\ convertToRxddit L = RXDDIT ++ convertToRxddit rest
    /\ (quiet HOST_WWW rest [] -> quiet HOST_OLD_NEW rest [] ->
        convertToRxddit L = RXDDIT ++ rest).
Proof.
  intros HP E.
  assert (S : is_some (exec HOST_WWW L) = true
              \/ is_some (exec HOST_OLD_NEW L) = true).
  { destruct HP as [<-|[<-|[]]];
      [left | right]; exact (exec_seq_prefix _ _ _ _ E). }
  assert (D : exists rest,
            (exec HOST_WWW L = Some rest
             \/ exec HOST_WWW L = None /\ exec HOST_OLD_NEW L = Some rest)
            /\ L = matched L rest ++ rest /\ matched L rest <> []
            /\ convertToRxddit L = RXDDIT ++ convertToRxddit rest).
  { destruct (exec HOST_WWW L) as [rest|] eqn:E1.
    - exists rest.
      destruct (h_exec_some _ _ _ _ (proj1 HOST_WWW_host) E1) as (Hs & Hne & _).
      repeat split; auto. now apply convertToRxddit_www.
    - destruct S as [S|S]; [discriminate S|].
      destruct (exec HOST_OLD_NEW L) as [rest|] eqn:E2; [|discriminate S].
      exists rest.
      destruct (h_exec_some _ _ _ _ (proj1 HOST_OLD_NEW_host) E2)
        as (Hs & Hne & _).
      repeat split; auto. now apply convertToRxddit_old_new. }
  destruct D as (rest & Hx & Hs & Hne & Hc). exists rest.
  assert (Hp : exec (Seq (Lit (str "/r/")) NotSpacePlus) rest = Some []).
  { destruct HP as [<-|[<-|[]]].
    - change (exec (Seq HOST_WWW (Seq (Lit (str "/r/")) NotSpacePlus)) L
              = Some []) in E.
      rewrite (exec_host_then_path _ _ HOST_WWW_unambiguous) in E.
      destruct Hx as [Hx|[Hx _]]; rewrite Hx in E;
        [exact E | discriminate E].
    - change (exec (Seq HOST_OLD_NEW (Seq (Lit (str "/r/")) NotSpacePlus)) L
              = Some []) in E.
      rewrite (exec_host_then_path _ _ HOST_OLD_NEW_unambiguous) in E.
      destruct Hx as [Hx|[_ Hx]].
      + destruct (exec HOST_OLD_NEW L) as [t|] eqn:E2; [|discriminate E].
        rewrite (exec_hosts_excl _ _ E2) in Hx. discriminate Hx.
      + now rewrite Hx in E. }
  split; [exact Hx|]. split; [exact Hs|]. split; [exact Hne|].
  split; [exact (exec_path_shape _ Hp)|]. split; [exact Hc|].
  intros Q1 Q2. rewrite Hc. f_equal. unfold convertToRxddit.
  rewrite (replaceAll_quiet HOST_WWW) by (reflexivity || exact Q1).
  now rewrite (replaceAll_quiet HOST_OLD_NEW) by (reflexivity || exact Q2).
Qed.

Lemma convertToRxddit_link_sample :
  let L := str "http://WWW.Reddit.com/r/AskReddit/?sort=new" in
  exec PATTERN_WWW L = Some []
  /\ convertToRxddit L = str "https://rxddit.com/r/AskReddit/?sort=new".
Proof.
  assert (E : exec PATTERN_WWW
                (str "http://WWW.Reddit.com/r/AskReddit/?sort=new") = Some [])
    by (vm_compute; reflexivity).
  split; [exact E|].
  destruct (convertToRxddit_link
              (str "http://WWW.Reddit.com/r/AskReddit/?sort=new")
              PATTERN_WWW (or_introl eq_refl) E)
    as (rest & Hx & _ & _ & _ & _ & H).
  assert (Hr : rest = str "/r/AskReddit/?sort=new").
  { destruct Hx as [Hx|[Hx _]]; vm_compute in Hx;
      [injection Hx as <-; reflexivity | discriminate Hx]. }
  subst rest. rewrite H; [reflexivity | |];
    cbn [str quiet app]; repeat split; reflexivity.
Defined.

End LinkTheory.

(** ** The cases of [tests/linkUtils.test.ts], evaluated on the model *)

Module LinkTests.
Import LinkUtils.

Example detect_two_hosts :
  detectRedditLinks
    (str "Check https://reddit.com/r/test and https://old.reddit.com/r/test")
  = [str "https://reddit.com/r/test"; str "https://old.reddit.com/r/test"].
Proof. vm_compute. reflexivity. Qed.

Example detect_duplicate :
  detectRedditLinks
    (str "Same link twice: https://reddit.com/r/test and https://reddit.com/r/test")
  = [str "https://reddit.com/r/test"].
Proof. vm_compute. reflexivity. Qed.

Example detect_rejects_other_paths :
  detectRedditLinks
    (str "https://reddit.com/user/someone https://google.com https://twitter.com/reddit")
  = [].
Proof. vm_compute. reflexivity. Qed.

Example detect_keeps_case :
  detectRedditLinks (str "https://REDDIT.COM/r/test")
  = [str "https://REDDIT.COM/r/test"].
Proof. vm_compute. reflexivity. Qed.

Example convert_upgrades_scheme_and_host :
  convertToRxddit (str "http://WWW.REDDIT.COM/r/AskReddit?sort=new")
  = str "https://rxddit.com/r/AskReddit?sort=new".
Proof. vm_compute. reflexivity. Qed.

Example convert_message_two_hosts :
  convertMessageLinks
    (str "Check https://reddit.com/r/test and https://old.reddit.com/r/test")
  = str "Check https://rxddit.com/r/test and https://rxddit.com/r/test".
Proof. vm_compute. reflexivity. Qed.

Example convert_message_markdown :
  convertMessageLinks
    (str "**Bold** text with [link](https://reddit.com/r/test)")
  = str "**Bold** text with [link](https://rxddit.com/r/test)".
Proof. vm_compute. reflexivity. Qed.

Example convert_message_nested :
  convertMessageLinks
    (str "x https://old.reddit.com/r/x/https://reddit.com/r/y z")
  = str "x https://rxddit.com/r/x/https://rxddit.com/r/y z".
Proof. vm_compute. reflexivity. Qed.

End LinkTests.

(** ** The ledger's queries and the bookkeeping of its operations *)

Module LedgerLaws.
Import Ledger LedgerTheory.
Unset Implicit Arguments.

(** *** Ordered results *)

Lemma insert_by_created_perm m l :
  Permutation (insert_by_created m l) (m :: l).
Proof.
  induction l as [|x l IH]; cbn [insert_by_created]; [reflexivity|].
  destruct (createdAt x <? createdAt m)%Z; [reflexivity|].
  rewrite IH. apply perm_swap.
Qed.

Lemma order_by_created_perm l : Permutation (order_by_created l) l.
Proof.
  unfold order_by_created.
  assert (G : forall acc, Permutation
                (fold_left (fun acc m => insert_by_created m acc) l acc)
                (acc ++ l)).
  { induction l as [|x l IH]; intros acc; cbn [fold_left].
    - now rewrite app_nil_r.
    - rewrite IH, insert_by_created_perm. apply Permutation_middle. }
  exact (G []).
Qed.

Lemma insert_by_created_sorted m l :
  StronglySorted (fun a b => (createdAt b <= createdAt a)%Z) l ->
  StronglySorted (fun a b => (createdAt b <= createdAt a)%Z)
    (insert_by_created m l).
Proof.
  induction l as [|x l IH]; cbn [insert_by_created]; intros H.
  - repeat constructor.
  - apply StronglySorted_inv in H. destruct H as [Hl Hx].
    destruct (createdAt x <? createdAt m)%Z eqn:E.
    + apply Z.ltb_lt in E. constructor; [constructor; assumption|].
      constructor; [lia|]. rewrite Forall_forall in *.
      intros y Hy. specialize (Hx y Hy). cbn beta in Hx. lia.
    + apply Z.ltb_ge in E. constructor; [now apply IH|].
      rewrite Forall_forall in *. intros y Hy.
      apply (Permutation_in _ (insert_by_created_perm m l)) in Hy.
      destruct Hy as [<-|Hy]; [exact E | now apply Hx].
Qed.

Lemma order_by_created_sorted l :
  StronglySorted (fun a b => (createdAt b <= createdAt a)%Z)
    (order_by_created l).
Proof.
  unfold order_by_created.
  assert (G : forall acc,
            StronglySorted (fun a b => (createdAt b <= createdAt a)%Z) acc ->
            StronglySorted (fun a b => (createdAt b <= createdAt a)%Z)
              (fold_left (fun acc m => insert_by_created m acc) l acc)).
  { induction l as [|x l IH]; intros acc H; cbn [fold_left]; [exact H|].
    apply IH. now apply insert_by_created_sorted. }
  apply G. constructor.
Qed.

Lemma StronglySorted_app_inv {A} (R : A -> A -> Prop) (l1 l2 : list A) :
  StronglySorted R (l1 ++ l2) ->
  StronglySorted R l1
  /\ forall x y, In x l1 -> In y l2 -> R x y.
Proof.
  induction l1 as [|a l1 IH]; cbn [app]; intros H.
  - split; [constructor | intros x y []].
  - apply StronglySorted_inv in H. destruct H as [Hs Ha].
    destruct (IH Hs) as [H1 H2]. split.
    + constructor; [exact H1|]. rewrite Forall_forall in *.
      intros y Hy. apply Ha. apply in_or_app. now left.
    + intros x y [<-|Hx] Hy; [|now apply H2].
      rewrite Forall_forall in Ha. apply Ha. apply in_or_app. now right.
Qed.

(** What both queries by column do with the selected rows. *)
Lemma recent_rows (sel : StoredMessage -> bool) (n : Z)
    (rows : list StoredMessage) :
  let res := limit_rows n (order_by_created (filter sel rows)) in
  (forall m, In m res -> In m rows /\ sel m = true)
  /\ StronglySorted (fun a b => (createdAt b <= createdAt a)%Z) res
  /\ length res
     = (if (n <? 0)%Z then length (filter sel rows)
        else Nat.min (Z.to_nat n) (length (filter sel rows)))
  /\ exists rest,
       Permutation (res ++ rest) (filter sel rows)
       /\ forall x y, In x res -> In y rest ->
                      (createdAt y <= createdAt x)%Z.
Proof.
  cbv zeta. unfold limit_rows.
  pose proof (order_by_created_perm (filter sel rows)) as HP.
  pose proof (order_by_created_sorted (filter sel rows)) as HS.
  set (sorted := order_by_created (filter sel rows)) in *.
  destruct (n <? 0)%Z.
  - split; [|split; [exact HS|split]].
    + intros m Hm. apply (Permutation_in _ HP) in Hm.
      now apply filter_In in Hm.
    + now apply Permutation_length.
    + exists []. rewrite app_nil_r. split; [exact HP | intros x y _ []].
  - rewrite <- (firstn_skipn (Z.to_nat n) sorted) in HP, HS.
    destruct (StronglySorted_app_inv _ _ _ HS) as [H1 H2].
    split; [|split; [exact H1|split]].
    + intros m Hm.
      assert (Hin : In m (firstn (Z.to_nat n) sorted
                          ++ skipn (Z.to_nat n) sorted))
        by (apply in_or_app; now left).
      apply (Permutation_in _ HP) in Hin. now apply filter_In in Hin.
    + rewrite length_firstn.
      rewrite (firstn_skipn (Z.to_nat n) sorted) in HP.
      now rewrite (Permutation_length HP).
    + exists (skipn (Z.to_nat n) sorted). split; [exact HP | exact H2].
Qed.

(** X1.  [getMessagesByAuthor] returns stored records of that author only,
    the newest first, as many as the limit allows (all of them under a
    negative limit, fifty when no limit is given), and every record of the
    author it leaves out is no newer than any it returns. *)
Theorem getMessagesByAuthor_recent (author : jsstring) (limit : option Z)
    (db : Db) :
  let res := getMessagesByAuthor author limit db in
  let mine := filter (fun m => JS.eqb (authorId m) author) (messages db) in
  let n := match limit with Some n => n | None => 50%Z end in
  (forall m, In m res -> In m (messages db) /\ authorId m = author)
  /\ StronglySorted (fun a b => (createdAt b <= createdAt a)%Z) res
  /\ length res
     = (if (n <? 0)%Z then length mine
        else Nat.min (Z.to_nat n) (length mine))
  /\ exists rest,
       Permutation (res ++ rest) mine
       /\ forall x y, In x res -> In y rest ->
                      (createdAt y <= createdAt x)%Z.
Proof.
  cbv zeta. unfold getMessagesByAuthor.
  destruct (recent_rows (fun m => JS.eqb (authorId m) author)
              (limit_or_default limit) (messages db)) as (H1 & H2 & H3 & H4).
  split; [|split; [exact H2 | split; [exact H3 | exact H4]]].
  intros m Hm. destruct (H1 m Hm) as [Hin E].
  split; [exact Hin | now apply jseqb_eq].
Qed.

(** X2.  [getMessagesByChannel] returns stored records of that channel
    only, the newest first, as many as the limit allows (all of them under
    a negative limit, fifty when no limit is given), and every record of
    the channel it leaves out is no newer than any it returns. *)
Theorem getMessagesByChannel_recent (channel : jsstring) (limit : option Z)
    (db : Db) :
  let res := getMessagesByChannel channel limit db in
  let here := filter (fun m => JS.eqb (channelId m) channel) (messages db) in
  let n := match limit with Some n => n | None => 50%Z end in
  (forall m, In m res -> In m (messages db) /\ channelId m = channel)
  /\ StronglySorted (fun a b => (createdAt b <= createdAt a)%Z) res
  /\ length res
     = (if (n <? 0)%Z then length here
        else Nat.min (Z.to_nat n) (length here))
  /\ exists rest,
       Permutation (res ++ rest) here
       /\ forall x y, In x res -> In y rest ->
                      (createdAt y <= createdAt x)%Z.
Proof.
  cbv zeta. unfold getMessagesByChannel.
  destruct (recent_rows (fun m => JS.eqb (channelId m) channel)
              (limit_or_default limit) (messages db)) as (H1 & H2 & H3 & H4).
  split; [|split; [exact H2 | split; [exact H3 | exact H4]]].
  intros m Hm. destruct (H1 m Hm) as [Hin E].
  split; [exact Hin | now apply jseqb_eq].
Qed.

(** Records stored oldest first come back newest first, two of them under
    a limit of two, all of them under a negative limit. *)
Example getMessagesByAuthor_sample :
  let db := run [OpStoreMessage (Sample.message "a1" "target" "b1" 1000);
                 OpStoreMessage (Sample.message "a2" "target" "b2" 2000);
                 OpStoreMessage (Sample.message "o1" "other" "b3" 2500);
                 OpStoreMessage (Sample.message "a3" "target" "b4" 3000)]
                fresh in
  map messageId (getMessagesByAuthor (str "target") None db)
  = [str "a3"; str "a2"; str "a1"]
  /\ map messageId (getMessagesByAuthor (str "target") (Some 2%Z) db)
     = [str "a3"; str "a2"]
  /\ getMessagesByAuthor (str "nobody") None db = []
  /\ map messageId (getMessagesByChannel (str "channel") (Some (-1)%Z) db)
     = [str "a3"; str "o1"; str "a2"; str "a1"].
Proof. vm_compute. repeat split; reflexivity. Qed.

(** *** Reactions of a message *)

Lemma insert_by_time_perm r l : Permutation (insert_by_time r l) (r :: l).
Proof.
  induction l as [|x l IH]; cbn [insert_by_time]; [reflexivity|].
  destruct (reactedAt r <? reactedAt x)%Z; [reflexivity|].
  rewrite IH. apply perm_swap.
Qed.

Lemma order_by_time_perm l : Permutation (order_by_time l) l.
Proof.
  unfold order_by_time.
  assert (G : forall acc, Permutation
                (fold_left (fun acc r => insert_by_time r acc) l acc)
                (acc ++ l)).
  { induction l as [|x l IH]; intros acc; cbn [fold_left].
    - now rewrite app_nil_r.
    - rewrite IH, insert_by_time_perm. apply Permutation_middle. }
  exact (G []).
Qed.

Lemma insert_by_time_sorted r l :
  StronglySorted (fun a b => (reactedAt a <= reactedAt b)%Z) l ->
  StronglySorted (fun a b => (reactedAt a <= reactedAt b)%Z)
    (insert_by_time r l).
Proof.
  induction l as [|x l IH]; cbn [insert_by_time]; intros H.
  - repeat constructor.
  - apply StronglySorted_inv in H. destruct H as [Hl Hx].
    destruct (reactedAt r <? reactedAt x)%Z eqn:E.
    + apply Z.ltb_lt in E. constructor; [constructor; assumption|].
      constructor; [lia|]. rewrite Forall_forall in *.
      intros y Hy. specialize (Hx y Hy). cbn beta in Hx. lia.
    + apply Z.ltb_ge in E. constructor; [now apply IH|].
      rewrite Forall_forall in *. intros y Hy.
      apply (Permutation_in _ (insert_by_time_perm r l)) in Hy.
      destruct Hy as [<-|Hy]; [exact E | now apply Hx].
Qed.

Lemma order_by_time_sorted l :
  StronglySorted (fun a b => (reactedAt a <= reactedAt b)%Z)
    (order_by_time l).
Proof.
  unfold order_by_time.
  assert (G : forall acc,
            StronglySorted (fun a b => (reactedAt a <= reactedAt b)%Z) acc ->
            StronglySorted (fun a b => (reactedAt a <= reactedAt b)%Z)
              (fold_left (fun acc r => insert_by_time r acc) l acc)).
  { induction l as [|x l IH]; intros acc H; cbn [fold_left]; [exact H|].
    apply IH. now apply insert_by_time_sorted. }
  apply G. constructor.
Qed.

Lemma refers_to_true mid r : refers_to mid r = true <-> r_messageId r = mid.
Proof. apply jseqb_eq. Qed.

(** X3.  [getReactions] returns exactly the stored reactions of that
    message, each as often as it is stored, the earliest first; for a
    message without reactions, or an unknown one, the result is empty. *)
Theorem getReactions_sorted (mid : jsstring) (db : Db) :
  let res := getReactions mid db in
  Permutation res (filter (refers_to mid) (reactions db))
  /\ StronglySorted (fun a b => (reactedAt a <= reactedAt b)%Z) res
  /\ (forall r, In r res <-> In r (reactions db) /\ r_messageId r = mid)
  /\ (res = [] <->
      forall r, In r (reactions db) -> r_messageId r <> mid).
Proof.
  cbv zeta. unfold getReactions.
  pose proof (order_by_time_perm (filter (refers_to mid) (reactions db)))
    as HP.
  assert (HI : forall r,
            In r (order_by_time (filter (refers_to mid) (reactions db)))
            <-> In r (reactions db) /\ r_messageId r = mid).
  { intros r. rewrite order_by_time_In, filter_In, refers_to_true.
    reflexivity. }
  split; [exact HP|]. split; [apply order_by_time_sorted|].
  split; [exact HI|]. split.
  - intros E r Hr Hmid.
    assert (Hin : In r (order_by_time
                          (filter (refers_to mid) (reactions db))))
      by (apply HI; split; assumption).
    rewrite E in Hin. destruct Hin.
  - intros H.
    destruct (order_by_time (filter (refers_to mid) (reactions db)))
      as [|r l] eqn:E; [reflexivity|].
    destruct (proj1 (HI r) (or_introl eq_refl)) as [Hr Hmid].
    destruct (H r Hr Hmid).
Qed.

(** X4.  A reaction that [storeReaction] accepts is found by
    [getReactions] of its message under the identifier returned, besides
    the reactions found there before; what [getReactions] returns for any
    other message is unchanged. *)
Theorem storeReaction_getReactions (r : ReactionInput) (db db' : Db)
    (n : Z) :
  storeReaction (object_of_input r) db = (Ok n, db') ->
  In (row_of_reaction n r) (getReactions (ri_messageId r) db')
  /\ Permutation (getReactions (ri_messageId r) db')
       (row_of_reaction n r :: getReactions (ri_messageId r) db)
  /\ (forall mid, mid <> ri_messageId r ->
        getReactions mid db' = getReactions mid db)
  /\ (forall x, In x (reactions db) -> id x <> n).
Proof.
  rewrite storeReaction_typed.
  destruct (foreign_keys db && negb (hasMessage (ri_messageId r) db));
    [discriminate|].
  intros [= <- <-].
  assert (HP : Permutation
                 (getReactions (ri_messageId r)
                    {| messages := messages db;
                       reactions := reactions db
                                    ++ [row_of_reaction (next_id db) r];
                       reaction_seq := next_id db;
                       foreign_keys := foreign_keys db |})
                 (row_of_reaction (next_id db) r
                    :: getReactions (ri_messageId r) db)).
  { unfold getReactions; cbn [reactions]. rewrite filter_app.
    cbn [filter]. unfold refers_to at 2. cbn [row_of_reaction r_messageId].
    rewrite jseqb_refl.
    rewrite !order_by_time_perm. rewrite Permutation_app_comm.
    reflexivity. }
  split; [|split; [exact HP|split]].
  - apply (Permutation_in _ (Permutation_sym HP)). now left.
  - intros mid Hmid. unfold getReactions; cbn [reactions].
    rewrite filter_app. cbn [filter]. unfold refers_to at 2.
    cbn [row_of_reaction r_messageId].
    destruct (JS.eqb (ri_messageId r) mid) eqn:E.
    + apply jseqb_eq in E. congruence.
    + now rewrite app_nil_r.
  - intros x Hx E. pose proof (max_id_ge _ _ Hx) as Hle.
    unfold next_id in E. lia.
Qed.

Lemma storeReaction_getReactions_sample :
  let r := Sample.reaction "m1" "u2" 7 true in
  storeReaction (object_of_input r) Sample.one_message
  = (Ok 1%Z, snd (storeReaction (object_of_input r) Sample.one_message))
  /\ In (row_of_reaction 1 r)
        (getReactions (str "m1")
           (snd (storeReaction (object_of_input r) Sample.one_message))).
Proof.
  assert (E : storeReaction
                (object_of_input (Sample.reaction "m1" "u2" 7 true))
                Sample.one_message
              = (Ok 1%Z,
                 snd (storeReaction
                        (object_of_input (Sample.reaction "m1" "u2" 7 true))
                        Sample.one_message)))
    by (vm_compute; reflexivity).
  split; [exact E|].
  exact (proj1 (storeReaction_getReactions _ _ _ _ E)).
Defined.

(** *** Lookups and the operations on single records *)

Lemma find_filter_other (mid mid' : jsstring) (l : list StoredMessage) :
  mid' <> mid ->
  find (has_id mid') (filter (fun x => negb (has_id mid x)) l)
  = find (has_id mid') l.
Proof.
  intros Hne. induction l as [|x l IH]; [reflexivity|]. cbn [filter find].
  destruct (has_id mid x) eqn:E; cbn [negb find].
  - destruct (has_id mid' x) eqn:E'; [|exact IH].
    apply has_id_true in E, E'. congruence.
  - now rewrite IH.
Qed.

Lemma find_app_found {A} (f : A -> bool) (l1 l2 : list A) (x : A) :
  find f l1 = Some x -> find f (l1 ++ l2) = Some x.
Proof.
  induction l1 as [|y l1 IH]; cbn [app find]; [discriminate|].
  destruct (f y); [trivial | exact IH].
Qed.

(** [storeMessage] leaves the lookup of every other id as it was. *)
Lemma getMessage_storeMessage_other input db mid :
  mid <> in_messageId input ->
  getMessage mid (storeMessage input db) = getMessage mid db.
Proof.
  intros Hne. unfold getMessage, storeMessage; cbn [messages].
  pose proof (find_filter_other (in_messageId input) mid (messages db) Hne)
    as G.
  destruct (find (has_id mid) (messages db)) as [m0|].
  - now apply find_app_found.
  - rewrite find_app_none by exact G. cbn [find].
    destruct (has_id mid (row_of_input input)) eqn:E; [|reflexivity].
    apply has_id_true in E. cbn in E. congruence.
Qed.

Lemma hasMessage_getMessage mid db :
  hasMessage mid db = true <-> exists m, getMessage mid db = Some m.
Proof.
  unfold hasMessage, getMessage.
  induction (messages db) as [|x l IH]; cbn [existsb find].
  - split; [discriminate | intros (m & H); discriminate].
  - destruct (has_id mid x); cbn [orb]; [|exact IH].
    split; [eauto | reflexivity].
Qed.

Lemma getMessage_In mid db m :
  getMessage mid db = Some m -> In m (messages db) /\ messageId m = mid.
Proof.
  unfold getMessage. intros H. apply find_some in H.
  destruct H as [Hin E]. split; [exact Hin | now apply has_id_true].
Qed.

Lemma getMessage_unique mid db m :
  keys_unique db -> In m (messages db) -> messageId m = mid ->
  getMessage mid db = Some m.
Proof.
  intros U Hin E.
  destruct (getMessage mid db) as [m'|] eqn:G.
  - destruct (getMessage_In _ _ _ G) as [Hin' E'].
    f_equal. apply (@keys_unique_same_row db m m' U Hin Hin'). congruence.
  - unfold getMessage in G.
    pose proof (find_none _ _ G m Hin) as F.
    apply has_id_true in E. congruence.
Qed.

(** X5.  In every ledger reached from a new database, [getMessage] of an
    id returns the one stored record with that id, and nothing exactly when
    no record has that id, which is when [hasMessage] says no. *)
Theorem getMessage_the_record (ops : list operation) (mid : jsstring) :
  let db := run ops fresh in
  (forall m, getMessage mid db = Some m
             <-> In m (messages db) /\ messageId m = mid)
  /\ (getMessage mid db = None <-> hasMessage mid db = false)
  /\ (getMessage mid db = None
      <-> forall m, In m (messages db) -> messageId m <> mid).
Proof.
  cbv zeta.
  assert (U : keys_unique (run ops fresh))
    by (apply run_keys_unique; constructor).
  split; [|split].
  - intros m. split; [apply getMessage_In|].
    intros [Hin E]. now apply getMessage_unique.
  - pose proof (hasMessage_getMessage mid (run ops fresh)) as H.
    destruct (getMessage mid (run ops fresh)) as [m|],
             (hasMessage mid (run ops fresh)).
    + split; discriminate.
    + assert (X : false = true) by (apply H; eauto). discriminate X.
    + destruct (proj1 H eq_refl) as (m & X). discriminate X.
    + split; reflexivity.
  - split.
    + intros G m Hin E.
      rewrite (getMessage_unique _ _ _ U Hin E) in G. discriminate.
    + intros H. destruct (getMessage mid (run ops fresh)) as [m|] eqn:G;
        [|reflexivity].
      destruct (getMessage_In _ _ _ G) as [Hin E]. destruct (H m Hin E).
Qed.

(** X6.  [storeMessage] touches one record only: the lookup of every other
    id gives what it gave before, no id is lost, and the reactions of every
    message, the replaced one among them, are those of before. *)
Theorem storeMessage_frame (input : MessageInput) (db : Db) :
  let db' := storeMessage input db in
  (forall mid, mid <> in_messageId input ->
     getMessage mid db' = getMessage mid db)
  /\ (forall mid, hasMessage mid db = true -> hasMessage mid db' = true)
  /\ (forall mid, getReactions mid db' = getReactions mid db)
  /\ (forall m, In m (messages db') ->
        m = row_of_input input \/ In m (messages db))
  /\ (references_ok db -> references_ok db').
Proof.
  cbv zeta. split; [|split; [|split; [|split]]].
  - intros mid Hne. now apply getMessage_storeMessage_other.
  - intros mid. apply hasMessage_storeMessage_mono.
  - reflexivity.
  - intros m Hm. unfold storeMessage in Hm; cbn [messages] in Hm.
    apply in_app_or in Hm. destruct Hm as [Hm|[<-|[]]]; [|now left].
    apply filter_In in Hm. right. tauto.
  - intros Hok r Hr. apply hasMessage_storeMessage_mono. now apply Hok.
Qed.

(** X7.  [markAsReverted] returns whether the id is stored.  For a stored
    id the record found afterwards has [isReverted] true and every other
    column as before; an unknown id leaves the database as it was; every
    other lookup, the reactions and the number of records are unchanged,
    and a second call changes nothing further. *)
Theorem markAsReverted_sets_flag (mid : jsstring) (db : Db) :
  let res := markAsReverted mid db in
  fst res = hasMessage mid db
  /\ (fst res = true <-> exists m, getMessage mid db = Some m)
  /\ (hasMessage mid db = false -> snd res = db)
  /\ (getMessage mid db = None -> getMessage mid (snd res) = None)
  /\ (forall m, getMessage mid db = Some m ->
        exists m',
          getMessage mid (snd res) = Some m'
          /\ isReverted m' = true
          /\ messageId m' = messageId m
          /\ channelId m' = channelId m
          /\ guildId m' = guildId m
          /\ authorId m' = authorId m
          /\ authorTag m' = authorTag m
          /\ originalContent m' = originalContent m
          /\ convertedContent m' = convertedContent m
          /\ originalLinks m' = originalLinks m
          /\ convertedLinks m' = convertedLinks m
          /\ botMessageId m' = botMessageId m
          /\ createdAt m' = createdAt m)
  /\ (forall mid', mid' <> mid ->
        getMessage mid' (snd res) = getMessage mid' db)
  /\ reactions (snd res) = reactions db
  /\ length (messages (snd res)) = length (messages db)
  /\ snd (markAsReverted mid (snd res)) = snd res.
Proof.
  cbv zeta. split; [apply markAsReverted_result|].
  split; [rewrite markAsReverted_result; apply hasMessage_getMessage|].
  split; [|split; [|split; [|split; [|split; [|split]]]]].
  - intros H. unfold markAsReverted; cbn [snd]. destruct db as [ms rs sq fk].
    cbn [messages reactions reaction_seq foreign_keys] in *. f_equal.
    unfold hasMessage in H; cbn [messages] in H.
    pose proof (existsb_false_In _ _ H) as F.
    clear H. induction ms as [|x ms IH]; [reflexivity|]. cbn [map].
    rewrite (F x (or_introl eq_refl)). f_equal.
    apply IH. intros y Hy. apply F. now right.
  - intros H. rewrite getMessage_markAsReverted. now rewrite H.
  - intros m H. exists (set_reverted m).
    split; [rewrite getMessage_markAsReverted; now rewrite H|].
    split; [reflexivity | repeat split].
  - intros mid' Hne. unfold getMessage, markAsReverted; cbn [snd messages].
    induction (messages db) as [|x l IH]; [reflexivity|]. cbn [map find].
    destruct (has_id mid x) eqn:E.
    + rewrite has_id_set_reverted.
      destruct (has_id mid' x) eqn:E'; [|exact IH].
      apply has_id_true in E, E'. congruence.
    + destruct (has_id mid' x); [reflexivity | exact IH].
  - reflexivity.
  - unfold markAsReverted; cbn [snd messages]. apply length_map.
  - unfold markAsReverted; cbn [snd messages reactions reaction_seq
                                 foreign_keys].
    f_equal. rewrite map_map. apply map_ext. intros x.
    destruct (has_id mid x) eqn:E; [|now rewrite E].
    now rewrite has_id_set_reverted, E.
Qed.

Lemma getReactions_nil_iff mid db :
  getReactions mid db = [] <-> existsb (refers_to mid) (reactions db) = false.
Proof.
  unfold getReactions. split.
  - intros E. apply existsb_all_false. intros r Hr.
    destruct (refers_to mid r) eqn:F; [|reflexivity].
    assert (Hin : In r (order_by_time (filter (refers_to mid) (reactions db))))
      by (apply order_by_time_In, filter_In; split; assumption).
    rewrite E in Hin. destruct Hin.
  - intros E.
    destruct (order_by_time (filter (refers_to mid) (reactions db)))
      as [|r l] eqn:G; [reflexivity|].
    assert (Hin : In r (order_by_time (filter (refers_to mid) (reactions db))))
      by (rewrite G; now left).
    apply order_by_time_In, filter_In in Hin. destruct Hin as [Hin F].
    rewrite (existsb_false_In _ _ E r Hin) in F. discriminate.
Qed.

(** X8.  [deleteMessage] of a stored message that still has reactions is
    rejected by the foreign key of the reactions table when foreign keys
    are enforced, and nothing is deleted.  In every other case it returns
    whether the id was stored, the id is gone afterwards, every other
    lookup and all reactions are as before. *)
Theorem deleteMessage_cases (mid : jsstring) (db : Db) :
  let res := deleteMessage mid db in
  (foreign_keys db = true -> hasMessage mid db = true ->
   getReactions mid db <> [] ->
   res = (Throw ForeignKeyConstraint, db))
  /\ (foreign_keys db = false \/ hasMessage mid db = false
      \/ getReactions mid db = [] ->
      fst res = Ok (hasMessage mid db)
      /\ hasMessage mid (snd res) = false
      /\ getMessage mid (snd res) = None
      /\ (forall mid', mid' <> mid ->
            getMessage mid' (snd res) = getMessage mid' db)
      /\ reactions (snd res) = reactions db
      /\ (references_ok db -> getReactions mid db = [] ->
          references_ok (snd res))).
Proof.
  cbv zeta. unfold deleteMessage. rewrite existsb_filter_length.
  fold (hasMessage mid db). split.
  - intros Hfk Hhas Hre. rewrite Hfk, Hhas.
    destruct (existsb (refers_to mid) (reactions db)) eqn:E; [reflexivity|].
    apply getReactions_nil_iff in E. contradiction.
  - intros Hc.
    assert (C : foreign_keys db && hasMessage mid db
                && existsb (refers_to mid) (reactions db) = false).
    { destruct Hc as [->|[->|Hc]].
      - reflexivity.
      - now rewrite andb_false_r.
      - apply getReactions_nil_iff in Hc. rewrite Hc. apply andb_false_r. }
    rewrite C. cbn [fst snd].
    split; [reflexivity|]. split; [|split; [|split; [|split]]].
    + unfold hasMessage; cbn [messages]. apply existsb_all_false.
      intros x Hx. apply filter_In in Hx. destruct Hx as [_ Hx].
      now apply negb_true_iff in Hx.
    + unfold getMessage; cbn [messages]. apply find_filter_none.
    + intros mid' Hne. unfold getMessage; cbn [messages].
      now apply find_filter_other.
    + reflexivity.
    + intros Hok Hnil r Hr. cbn [reactions] in Hr.
      unfold hasMessage; cbn [messages].
      rewrite existsb_filter_keep; [now apply Hok|].
      intros x _ Hx. apply negb_true_iff.
      destruct (has_id mid x) eqn:F; [|reflexivity].
      apply has_id_true in F, Hx.
      apply getReactions_nil_iff in Hnil.
      pose proof (existsb_false_In _ _ Hnil r Hr) as G.
      unfold refers_to in G. apply jseqb_neq in G. congruence.
Qed.

(** A message with a reaction cannot be deleted on the new database; after
    the cleanup took the reaction away it can. *)
Example deleteMessage_sample :
  fst (deleteMessage (str "old") Sample.old_and_new)
  = Throw ForeignKeyConstraint
  /\ fst (deleteMessage (str "ghost") Sample.old_and_new) = Ok false
  /\ fst (deleteMessage (str "m1") Sample.one_message) = Ok true
  /\ getMessage (str "m1") (snd (deleteMessage (str "m1") Sample.one_message))
     = None.
Proof. vm_compute. repeat split; reflexivity. Qed.

(** *** What the statistics count *)

Lemma filter_split_length {A} (f : A -> bool) (l : list A) :
  length (filter f l) + length (filter (fun x => negb (f x)) l) = length l.
Proof.
  induction l as [|x l IH]; [reflexivity|]. cbn [filter].
  destruct (f x); cbn [negb length]; lia.
Qed.

Lemma NoDup_ids_tail mid x l :
  NoDup (map messageId (x :: l)) -> has_id mid x = true ->
  forall y, In y l -> has_id mid y = false.
Proof.
  cbn [map]. intros H Hx y Hy. inversion H as [|? ? Hnin _]; subst.
  destruct (has_id mid y) eqn:E; [|reflexivity].
  apply has_id_true in Hx, E. exfalso. apply Hnin.
  rewrite Hx, <- E. now apply in_map.
Qed.

Lemma filter_all_false {A} (f : A -> bool) (l : list A) :
  (forall x, In x l -> f x = false) -> filter f l = [].
Proof.
  induction l as [|x l IH]; intros H; [reflexivity|]. cbn [filter].
  rewrite (H x (or_introl eq_refl)). apply IH. intros y Hy. apply H.
  now right.
Qed.

Lemma filter_all_true {A} (f : A -> bool) (l : list A) :
  (forall x, In x l -> f x = true) -> filter f l = l.
Proof.
  induction l as [|x l IH]; intros H; [reflexivity|]. cbn [filter].
  rewrite (H x (or_introl eq_refl)). f_equal. apply IH. intros y Hy.
  apply H. now right.
Qed.

(** Without the row of a key, the rows that satisfy [p] are one fewer when
    that row satisfied [p]. *)
Lemma count_without_key (p : StoredMessage -> bool) mid l :
  NoDup (map messageId l) ->
  length (filter p l)
  = length (filter p (filter (fun x => negb (has_id mid x)) l))
    + match find (has_id mid) l with
      | Some m => if p m then 1 else 0
      | None => 0
      end.
Proof.
  induction l as [|x l IH]; intros H; [reflexivity|].
  cbn [filter find]. destruct (has_id mid x) eqn:E; cbn [negb].
  - rewrite (filter_all_true (fun y => negb (has_id mid y)) l).
    + destruct (p x); cbn [length]; lia.
    + intros y Hy. now rewrite (NoDup_ids_tail mid x l H E y Hy).
  - cbn [map] in H. inversion H as [|? ? _ Hl]; subst.
    cbn [filter]. specialize (IH Hl).
    destruct (p x); cbn [length]; lia.
Qed.

Lemma count_after_mark mid l :
  NoDup (map messageId l) ->
  length (filter isReverted
            (map (fun x => if has_id mid x then set_reverted x else x) l))
  = length (filter isReverted l)
    + match find (has_id mid) l with
      | Some m => if isReverted m then 0 else 1
      | None => 0
      end.
Proof.
  induction l as [|x l IH]; intros H; [reflexivity|].
  cbn [map filter find]. destruct (has_id mid x) eqn:E.
  - assert (Hl : map (fun y => if has_id mid y then set_reverted y else y) l
                 = l).
    { rewrite <- (map_id l) at 2. apply map_ext_in. intros y Hy.
      now rewrite (NoDup_ids_tail mid x l H E y Hy). }
    rewrite Hl. cbn [set_reverted isReverted].
    destruct (isReverted x); cbn [length]; lia.
  - cbn [map] in H. inversion H as [|? ? _ Hl]; subst. specialize (IH Hl).
    destruct (isReverted x); cbn [length]; lia.
Qed.

(** X9.  In every ledger reached from a new database the statistics follow
    the operations: storing a message adds one to the number of messages
    unless its id was stored already, and takes one from the number of
    reverted messages when it replaces a reverted record; marking a stored,
    not yet reverted message adds one to the reverted messages and any other
    marking changes no count; an accepted reaction adds one to the
    reactions; a cleanup takes the number it returns from the messages; a
    successful delete takes one. *)
Theorem getStats_bookkeeping (ops : list operation) :
  let db := run ops fresh in
  let s := getStats db in
  (forall input,
     let s' := getStats (storeMessage input db) in
     totalMessages s'
     = (if hasMessage (in_messageId input) db then totalMessages s
        else S (totalMessages s))
     /\ totalReactions s' = totalReactions s
     /\ revertedCount s
        = revertedCount s'
          + match getMessage (in_messageId input) db with
            | Some m => if isReverted m then 1 else 0
            | None => 0
            end)
  /\ (forall mid,
        let s' := getStats (snd (markAsReverted mid db)) in
        totalMessages s' = totalMessages s
        /\ totalReactions s' = totalReactions s
        /\ revertedCount s'
           = revertedCount s
             + match getMessage mid db with
               | Some m => if isReverted m then 0 else 1
               | None => 0
               end)
  /\ (forall reaction n db',
        storeReaction reaction db = (Ok n, db') ->
        totalMessages (getStats db') = totalMessages s
        /\ totalReactions (getStats db') = S (totalReactions s)
        /\ revertedCount (getStats db') = revertedCount s)
  /\ (forall now daysOld n db',
        cleanupOldMessages now daysOld db = (Ok n, db') ->
        (0 <= n)%Z
        /\ totalMessages (getStats db') + Z.to_nat n = totalMessages s)
  /\ (forall mid db',
        deleteMessage mid db = (Ok true, db') ->
        S (totalMessages (getStats db')) = totalMessages s).
Proof.
  cbv zeta.
  assert (U : keys_unique (run ops fresh))
    by (apply run_keys_unique; constructor).
  set (db := run ops fresh) in *. unfold keys_unique in U.
  split; [|split; [|split; [|split]]].
  - intros input. unfold getStats, storeMessage;
      cbn [totalMessages totalReactions revertedCount messages reactions].
    split; [|split; [reflexivity|]].
    + rewrite length_app. cbn [length].
      pose proof (filter_split_length (has_id (in_messageId input))
                    (messages db)) as HL.
      pose proof (count_without_key (fun _ => true) (in_messageId input)
                    (messages db) U) as HC.
      rewrite !(filter_all_true (fun _ => true)) in HC by reflexivity.
      unfold hasMessage. fold (getMessage (in_messageId input) db) in HC.
      destruct (existsb (has_id (in_messageId input)) (messages db)) eqn:E.
      * destruct (proj1 (hasMessage_getMessage (in_messageId input) db) E)
          as (m & G).
        rewrite G in HC. lia.
      * destruct (getMessage (in_messageId input) db) as [m|] eqn:G; [|lia].
        assert (X : hasMessage (in_messageId input) db = true)
          by (apply hasMessage_getMessage; eauto).
        unfold hasMessage in X. congruence.
    + rewrite filter_app. cbn [filter row_of_input isReverted].
      rewrite app_nil_r.
      exact (count_without_key isReverted (in_messageId input)
               (messages db) U).
  - intros mid. unfold getStats, markAsReverted;
      cbn [snd totalMessages totalReactions revertedCount messages
           reactions].
    split; [apply length_map|]. split; [reflexivity|].
    exact (count_after_mark mid (messages db) U).
  - intros reaction n db' H. unfold storeReaction in H.
    destruct (o_messageId reaction); [|discriminate].
    destruct (o_odId reaction); [|discriminate].
    destruct (o_userTag reaction); [|discriminate].
    destruct (o_emoji reaction); [|discriminate].
    destruct (o_reactedAt reaction); [|discriminate].
    destruct (foreign_keys db && negb (hasMessage j db)); [discriminate|].
    injection H as <- <-. unfold getStats;
      cbn [totalMessages totalReactions revertedCount messages reactions].
    rewrite length_app. cbn [length]. repeat split; lia.
  - intros now daysOld n db' H.
    pose proof (cleanupOldMessages_eq now daysOld db) as E. cbv zeta in E.
    rewrite E in H. injection H as <- <-. split; [lia|].
    unfold getStats; cbn [totalMessages messages].
    rewrite Nat2Z.id.
    pose proof (filter_split_length
                  (older_than (cutoffTime now daysOld)) (messages db)).
    lia.
  - intros mid db' H. unfold deleteMessage in H.
    destruct (foreign_keys db
              && (0 <? length (filter (has_id mid) (messages db)))
              && existsb (refers_to mid) (reactions db)); [discriminate|].
    injection H as H <-. unfold getStats; cbn [totalMessages messages].
    pose proof (count_without_key (fun _ => true) mid (messages db) U) as HC.
    rewrite !(filter_all_true (fun _ => true)) in HC by reflexivity.
    rewrite existsb_filter_length in H.
    destruct (proj1 (hasMessage_getMessage mid db) H) as (m & G).
    unfold getMessage in G. rewrite G in HC. lia.
Qed.

(** *** Cleanups one after the other *)

Lemma filter_filter_and {A} (f g h : A -> bool) (l : list A) :
  (forall x, In x l -> h x = f x && g x) ->
  filter f (filter g l) = filter h l.
Proof.
  induction l as [|x l IH]; intros H; [reflexivity|]. cbn [filter].
  rewrite (H x (or_introl eq_refl)).
  assert (IH' : filter f (filter g l) = filter h l)
    by (apply IH; intros y Hy; apply H; now right).
  destruct (g x); cbn [filter].
  - rewrite andb_true_r. destruct (f x); now rewrite IH'.
  - now rewrite andb_false_r.
Qed.

Lemma older_than_mono c1 c2 m :
  (c1 <= c2)%Z -> older_than c1 m = true -> older_than c2 m = true.
Proof.
  unfold older_than. intros H E. apply Z.ltb_lt in E. apply Z.ltb_lt. lia.
Qed.

Lemma survives_true cutoff db r :
  survives cutoff db r = true <->
  forall m, In m (messages db) -> older_than cutoff m = true ->
            messageId m <> r_messageId r.
Proof.
  split.
  - intros S m Hin Hold E.
    assert (F : survives cutoff db r = false)
      by (apply survives_false; eauto).
    congruence.
  - intros H. destruct (survives cutoff db r) eqn:S; [reflexivity|].
    apply survives_false in S. destruct S as (m & Hin & Hold & E).
    destruct (H m Hin Hold E).
Qed.

(** X10.  A cleanup after a cleanup with an earlier (or the same) cutoff
    leaves the database a single cleanup with the later cutoff leaves, and
    the two numbers returned add up to the number the single cleanup
    returns; with the same cutoff the second cleanup removes nothing. *)
Theorem cleanupOldMessages_twice (now1 days1 now2 days2 : Z) (db : Db) :
  (cutoffTime now1 days1 <= cutoffTime now2 days2)%Z ->
  let first := cleanupOldMessages now1 days1 db in
  let second := cleanupOldMessages now2 days2 (snd first) in
  let single := cleanupOldMessages now2 days2 db in
  snd second = snd single
  /\ (exists n1 n2 n,
        fst first = Ok n1 /\ fst second = Ok n2 /\ fst single = Ok n
        /\ (n1 + n2 = n)%Z)
  /\ (cutoffTime now1 days1 = cutoffTime now2 days2 ->
      second = (Ok 0%Z, snd first)).
Proof.
  intros Hle. cbv zeta.
  pose proof (cleanupOldMessages_eq now1 days1 db) as E1.
  pose proof (cleanupOldMessages_eq now2 days2 db) as E2.
  cbv zeta in E1, E2. rewrite E1, E2. cbn [snd fst].
  set (c1 := cutoffTime now1 days1) in *.
  set (c2 := cutoffTime now2 days2) in *.
  set (db1 := {| messages := filter (fun m => negb (older_than c1 m))
                               (messages db);
                 reactions := filter (survives c1 db) (reactions db);
                 reaction_seq := reaction_seq db;
                 foreign_keys := foreign_keys db |}).
  pose proof (cleanupOldMessages_eq now2 days2 db1) as E12.
  cbv zeta in E12. fold c2 in E12. rewrite E12. cbn [snd fst].
  assert (HM : filter (fun m => negb (older_than c2 m)) (messages db1)
               = filter (fun m => negb (older_than c2 m)) (messages db)).
  { unfold db1; cbn [messages]. apply filter_filter_same.
    intros x _ Hx. apply negb_true_iff in Hx. apply negb_true_iff.
    destruct (older_than c1 x) eqn:F; [|reflexivity].
    rewrite (older_than_mono c1 c2 x Hle F) in Hx. discriminate. }
  assert (HR : filter (survives c2 db1) (reactions db1)
               = filter (survives c2 db) (reactions db)).
  { unfold db1 at 2; cbn [reactions]. apply filter_filter_and.
    intros r _.
    destruct (survives c2 db r) eqn:S2; symmetry.
    - apply andb_true_iff. split; apply survives_true.
      + intros m Hm Hold. unfold db1 in Hm; cbn [messages] in Hm.
        apply filter_In in Hm. destruct Hm as [Hm _].
        exact (proj1 (survives_true c2 db r) S2 m Hm Hold).
      + intros m Hm Hold.
        exact (proj1 (survives_true c2 db r) S2 m Hm
                 (older_than_mono c1 c2 m Hle Hold)).
    - apply survives_false in S2. destruct S2 as (m & Hm & Hold & E).
      destruct (older_than c1 m) eqn:F.
      + assert (X : survives c1 db r = false)
          by (apply survives_false; eauto).
        rewrite X. apply andb_false_r.
      + assert (X : survives c2 db1 r = false).
        { apply survives_false. exists m. repeat split; auto.
          unfold db1; cbn [messages]. apply filter_In.
          split; [exact Hm | now rewrite F]. }
        now rewrite X. }
  split; [|split].
  - rewrite HM, HR. reflexivity.
  - do 3 eexists. repeat split.
    unfold db1; cbn [messages]. clear -Hle.
    induction (messages db) as [|x l IH]; [reflexivity|]. cbn [filter].
    destruct (older_than c1 x) eqn:F1.
    + rewrite (older_than_mono c1 c2 x Hle F1). cbn [negb length]. lia.
    + cbn [negb filter]. destruct (older_than c2 x); cbn [length]; lia.
  - intros Heq.
    assert (HO : filter (older_than c2) (messages db1) = []).
    { unfold db1; cbn [messages]. apply filter_all_false. intros x Hx.
      apply filter_In in Hx. destruct Hx as [_ Hx].
      apply negb_true_iff in Hx. now rewrite <- Heq. }
    assert (A : filter (fun m => negb (older_than c2 m)) (messages db1)
                = messages db1).
    { apply filter_all_true. intros x Hx. unfold db1 in Hx.
      cbn [messages] in Hx. apply filter_In in Hx. rewrite <- Heq. tauto. }
    assert (B : filter (survives c2 db1) (reactions db1) = reactions db1).
    { apply filter_all_true. intros r _. apply survives_true.
      intros m Hm Hold.
      pose proof (filter_In (older_than c2) m (messages db1)) as X.
      rewrite HO in X. destruct (proj2 X (conj Hm Hold)). }
    rewrite HO, A, B. reflexivity.
Qed.

Lemma cleanupOldMessages_twice_sample :
  let db := Sample.old_and_new in
  (cutoffTime 2000 0 <= cutoffTime 9500 0)%Z
  /\ fst (cleanupOldMessages 2000 0 db) = Ok 1%Z
  /\ snd (cleanupOldMessages 9500 0 (snd (cleanupOldMessages 2000 0 db)))
     = snd (cleanupOldMessages 9500 0 db).
Proof.
  assert (H : (cutoffTime 2000 0 <= cutoffTime 9500 0)%Z)
    by (vm_compute; discriminate).
  split; [exact H|]. split; [vm_compute; reflexivity|].
  exact (proj1 (cleanupOldMessages_twice 2000 0 9500 0 Sample.old_and_new H)).
Defined.

(** *** Identifiers of reactions *)

Lemma storeReaction_result reaction db :
  (exists e, storeReaction reaction db = (Throw e, db))
  \/ exists row,
       storeReaction reaction db
       = (Ok (next_id db),
          {| messages := messages db;
             reactions := reactions db ++ [row];
             reaction_seq := next_id db;
             foreign_keys := foreign_keys db |})
       /\ id row = next_id db.
Proof.
  unfold storeReaction.
  destruct (o_messageId reaction); [|left; eauto].
  destruct (o_odId reaction); [|left; eauto].
  destruct (o_userTag reaction); [|left; eauto].
  destruct (o_emoji reaction); [|left; eauto].
  destruct (o_reactedAt reaction); [|left; eauto].
  destruct (foreign_keys db && negb (hasMessage _ db)); [left; eauto|].
  right. eexists. split; reflexivity.
Qed.

Lemma storeReaction_Ok reaction db n :
  fst (storeReaction reaction db) = Ok n ->
  n = next_id db /\ reaction_seq (snd (storeReaction reaction db)) = n.
Proof.
  destruct (storeReaction_result reaction db) as [(e & E)|(row & E & _)];
    rewrite E; cbn [fst snd reaction_seq]; [discriminate|].
  intros [= <-]. split; reflexivity.
Qed.

Lemma next_id_above db : (reaction_seq db < next_id db)%Z.
Proof. unfold next_id. lia. Qed.

Lemma apply_reaction_seq op db :
  (reaction_seq db <= reaction_seq (apply op db))%Z.
Proof.
  destruct op as [m|mid|mid|r|now d]; cbn [apply].
  - reflexivity.
  - reflexivity.
  - unfold deleteMessage. destruct (_ && _); reflexivity.
  - destruct (storeReaction_result r db) as [(e & E)|(row & E & _)];
      rewrite E; cbn [snd reaction_seq]; [reflexivity|].
    pose proof (next_id_above db). lia.
  - pose proof (cleanupOldMessages_eq now d db) as E. cbv zeta in E.
    rewrite E. reflexivity.
Qed.

Lemma run_reaction_seq ops db :
  (reaction_seq db <= reaction_seq (run ops db))%Z.
Proof.
  revert db. induction ops as [|op ops IH]; intros db; [reflexivity|].
  cbn [run fold_left]. etransitivity; [apply apply_reaction_seq|].
  apply IH.
Qed.

Lemma apply_ids_bounded op db :
  (0 <= reaction_seq db)%Z ->
  (forall x, In x (reactions db) -> (0 < id x <= reaction_seq db)%Z) ->
  NoDup (map id (reactions db)) ->
  (forall x, In x (reactions (apply op db)) ->
             (0 < id x <= reaction_seq (apply op db))%Z)
  /\ NoDup (map id (reactions (apply op db))).
Proof.
  intros H0 Hb Hn.
  destruct op as [m|mid|mid|r|now d]; cbn [apply].
  - split; assumption.
  - split; assumption.
  - unfold deleteMessage. destruct (_ && _); split; assumption.
  - destruct (storeReaction_result r db) as [(e & E)|(row & E & Hrow)];
      rewrite E; cbn [snd reactions reaction_seq]; [split; assumption|].
    pose proof (next_id_above db) as Hlt. split.
    + intros x Hx. apply in_app_or in Hx. destruct Hx as [Hx|[<-|[]]].
      * specialize (Hb x Hx). lia.
      * lia.
    + rewrite map_app. cbn [map]. apply NoDup_app.
      * exact Hn.
      * repeat constructor. intros [].
      * intros a Ha [<-|[]]. apply in_map_iff in Ha.
        destruct Ha as (x & Ex & Hx). specialize (Hb x Hx). lia.
  - pose proof (cleanupOldMessages_eq now d db) as E. cbv zeta in E.
    rewrite E. cbn [snd reactions reaction_seq]. split.
    + intros x Hx. apply filter_In in Hx. apply Hb. tauto.
    + now apply NoDup_map_filter.
Qed.

Lemma run_ids_bounded ops db :
  (0 <= reaction_seq db)%Z ->
  (forall x, In x (reactions db) -> (0 < id x <= reaction_seq db)%Z) ->
  NoDup (map id (reactions db)) ->
  (forall x, In x (reactions (run ops db)) ->
             (0 < id x <= reaction_seq (run ops db))%Z)
  /\ NoDup (map id (reactions (run ops db))).
Proof.
  revert db. induction ops as [|op ops IH]; intros db H0 Hb Hn.
  - split; assumption.
  - cbn [run fold_left].
    destruct (apply_ids_bounded op db H0 Hb Hn) as [Hb' Hn'].
    apply IH; auto.
    pose proof (apply_reaction_seq op db). lia.
Qed.

(** X11.  In every ledger reached from a new database the stored reactions
    have distinct positive identifiers, and the identifiers [storeReaction]
    returns only grow: an identifier is never given out again, also after
    the reaction that held it was removed by a cleanup. *)
Theorem reaction_ids_never_reused (ops : list operation) :
  let db := run ops fresh in
  NoDup (map id (reactions db))
  /\ (forall x, In x (reactions db) -> (0 < id x)%Z)
  /\ (forall reaction n,
        fst (storeReaction reaction db) = Ok n ->
        (forall x, In x (reactions db) -> (id x < n)%Z)
        /\ forall later reaction' n',
             fst (storeReaction reaction'
                    (run later (snd (storeReaction reaction db)))) = Ok n' ->
             (n < n')%Z).
Proof.
  cbv zeta.
  destruct (run_ids_bounded ops fresh) as [Hb Hn];
    [reflexivity | intros x [] | constructor |].
  split; [exact Hn|]. split; [intros x Hx; apply (Hb x Hx)|].
  intros reaction n H.
  destruct (storeReaction_Ok _ _ _ H) as [-> Hseq]. split.
  - intros x Hx. specialize (Hb x Hx).
    pose proof (next_id_above (run ops fresh)). lia.
  - intros later reaction' n' H'.
    destruct (storeReaction_Ok _ _ _ H') as [-> _].
    pose proof (run_reaction_seq later
                  (snd (storeReaction reaction (run ops fresh)))) as Hm.
    pose proof (next_id_above
                  (run later (snd (storeReaction reaction (run ops fresh)))))
      as Hlt.
    lia.
Qed.

(** The identifier of a purged reaction is not given out again. *)
Example reaction_ids_sample :
  let db := snd (cleanupOldMessages 9500 0 Sample.old_and_new) in
  map id (reactions Sample.old_and_new) = [1; 2; 3]%Z
  /\ reactions db = []
  /\ fst (storeReaction
            (object_of_input (Sample.reaction "m9" "u1" 9600 false))
            (storeMessage (Sample.message "m9" "u1" "b9" 9600) db))
     = Ok 4%Z.
Proof. vm_compute. repeat split; reflexivity. Qed.

End LedgerLaws.

(** ** What conversion leaves behind, and texts taken word by word *)

Module LinkLaws.
Import LinkUtils LinkSpec LinkTheory.
Unset Implicit Arguments.

#[local] Arguments char_matches : simpl never.
#[local] Arguments is_space : simpl never.
#[local] Arguments canonicalize : simpl never.

(** [quiet], said with the places of a text. *)
Lemma quiet_suffixes r s :
  exec r [] = None ->
  (quiet r s [] <-> forall u v, s = u ++ v -> exec r v = None).
Proof.
  intros Hnil. induction s as [|c s IH]; cbn [quiet].
  - split; [|trivial]. intros _ u v E.
    symmetry in E. apply app_eq_nil in E. destruct E as [_ ->]. exact Hnil.
  - rewrite app_nil_r. split.
    + intros [H Hq] [|d u] v E; cbn [app] in E.
      * now subst v.
      * injection E as _ E. exact (proj1 IH Hq u v E).
    + intros H. split; [exact (H [] (c :: s) eq_refl)|].
      apply IH. intros u v E. apply (H (c :: u) v). cbn [app]. now f_equal.
Qed.

Lemma quiet_nil_r r u : quiet r u [] -> forall c t, u = c :: t ->
  exec r u = None.
Proof.
  intros H c t ->. cbn [quiet] in H. rewrite app_nil_r in H. tauto.
Qed.

(** A host pattern holds no white space, so what follows a word does not
    matter to it. *)
Lemma quiet_before_boundary H x v :
  nonspace_lits H = true -> exec H [] = None ->
  quiet H x [] -> boundary v = true -> quiet H x v.
Proof.
  intros HH Hnil Hq Hb. destruct v as [|d v]; [exact Hq|]. cbn in Hb.
  induction x as [|c x IH]; cbn [quiet] in *; [trivial|].
  destruct Hq as [E Hq]. rewrite app_nil_r in E. split; [|now apply IH].
  change (c :: x ++ d :: v) with ((c :: x) ++ d :: v).
  rewrite (exec_ctx H d (c :: x) v (nonspace_lits_rejects H d HH Hb)).
  now rewrite E.
Qed.

Lemma convertMessageLinks_nil : convertMessageLinks [] = [].
Proof. reflexivity. Qed.

(** No pattern of [REDDIT_PATTERNS] matches anywhere in a converted
    text. *)
Lemma convertMessageLinks_quiet s :
  quiet PATTERN_WWW (convertMessageLinks s) []
  /\ quiet PATTERN_OLD_NEW (convertMessageLinks s) [].
Proof.
  remember (length s) as n eqn:Hn.
  revert s Hn. induction n as [n IH] using lt_wf_ind. intros s Hn.
  destruct s as [|c s]; [rewrite convertMessageLinks_nil; split; exact I|].
  rewrite convertMessageLinks_segments.
  destruct (exec_any (c :: s)) as [rest|] eqn:E.
  - destruct (exec_any_some _ _ E) as (P0 & HP0 & _ & E0).
    destruct (link_exec_some _ _ _ HP0 E0) as (Hs & Hne & _ & Hb & _).
    rewrite (segments_some _ _ E Hne Hs). cbn [map concat render].
    rewrite <- convertMessageLinks_segments.
    assert (Hlt : length rest < n)
      by (subst n; exact (link_rest_shorter _ _ _ HP0 E0)).
    destruct (IH (length rest) Hlt rest eq_refl) as [IW IO].
    assert (Hb' : boundary (convertMessageLinks rest) = true).
    { rewrite convertMessageLinks_unfold.
      apply (replaceAll_boundary _ _ _ PATTERN_OLD_NEW_link).
      now apply (replaceAll_boundary _ _ _ PATTERN_WWW_link). }
    destruct (convertToRxddit_quiet (matched (c :: s) rest)) as [QW QO].
    split; apply quiet_app; (split; [|assumption]); rewrite app_nil_r.
    + apply (quiet_seq HOST_WWW).
      apply quiet_before_boundary; auto; reflexivity.
    + apply (quiet_seq HOST_OLD_NEW).
      apply quiet_before_boundary; auto; reflexivity.
  - rewrite (segments_none _ _ E). cbn [map concat render app].
    rewrite <- convertMessageLinks_segments.
    assert (Hlt : length s < n) by (subst n; cbn; lia).
    destruct (IH (length s) Hlt s eq_refl) as [IW IO].
    unfold exec_any in E.
    destruct (exec PATTERN_WWW (c :: s)) eqn:EW; [discriminate|].
    cbn [quiet]. rewrite app_nil_r. rewrite convertMessageLinks_unfold.
    split; (split; [|rewrite <- convertMessageLinks_unfold; assumption]).
    + apply (exec_after_pass _ _ _ _ PATTERN_OLD_NEW_link PATTERN_WWW_link).
      now apply (exec_after_pass _ _ _ _ PATTERN_WWW_link PATTERN_WWW_link).
    + apply (exec_after_pass _ _ _ _ PATTERN_OLD_NEW_link
               PATTERN_OLD_NEW_link).
      now apply (exec_after_pass _ _ _ _ PATTERN_WWW_link
                   PATTERN_OLD_NEW_link).
Qed.

Lemma scan_quiet r s : exec r [] = None -> quiet r s [] -> scan r 0 s = [].
Proof.
  intros Hnil. induction s as [|c s IH]; cbn [quiet]; intros H.
  - cbn [scan]. now rewrite Hnil.
  - rewrite app_nil_r in H. destruct H as [E Hq].
    rewrite (scan_none r c s E). now apply IH.
Qed.

Lemma scan_nil_quiet r s : scan r 0 s = [] -> quiet r s [].
Proof.
  induction s as [|c s IH]; cbn [quiet]; [trivial|]. intros H.
  rewrite app_nil_r. cbn [scan] in H.
  destruct (exec r (c :: s)) eqn:E; [discriminate|]. auto.
Qed.

Lemma scan_nil_exec r s : scan r 0 s = [] -> exec r [] = None.
Proof.
  induction s as [|c s IH]; cbn [scan].
  - destruct (exec r []); [discriminate | reflexivity].
  - destruct (exec r (c :: s)); [discriminate | exact IH].
Qed.

Lemma detectRedditLinks_nil_quiet c :
  detectRedditLinks c = [] <->
  quiet PATTERN_WWW c [] /\ quiet PATTERN_OLD_NEW c [].
Proof.
  rewrite detectRedditLinks_unfold. split.
  - intros H.
    assert (A : matchAll PATTERN_WWW c ++ matchAll PATTERN_OLD_NEW c = []).
    { destruct (matchAll PATTERN_WWW c ++ matchAll PATTERN_OLD_NEW c)
        as [|x l] eqn:E; [reflexivity|].
      assert (Hin : In x (set_from [] (x :: l)))
        by (apply set_from_In; split; [now left | intros []]).
      rewrite H in Hin. destruct Hin. }
    apply app_eq_nil in A. destruct A as [A1 A2].
    split; now apply scan_nil_quiet.
  - intros [H1 H2]. unfold matchAll.
    rewrite (scan_quiet _ _ (link_exec_nil _ PATTERN_WWW_link) H1).
    rewrite (scan_quiet _ _ (link_exec_nil _ PATTERN_OLD_NEW_link) H2).
    reflexivity.
Qed.

Lemma quiet_convertMessageLinks c :
  quiet PATTERN_WWW c [] -> quiet PATTERN_OLD_NEW c [] ->
  convertMessageLinks c = c.
Proof.
  intros H1 H2. rewrite convertMessageLinks_unfold.
  rewrite (replaceAll_quiet PATTERN_WWW)
    by (exact (link_exec_nil _ PATTERN_WWW_link) || exact H1).
  now rewrite (replaceAll_quiet PATTERN_OLD_NEW)
    by (exact (link_exec_nil _ PATTERN_OLD_NEW_link) || exact H2).
Qed.

(** X12.  [convertToRxddit] applied twice gives what it gives once; no
    reddit host is left at any place of its result; and it returns its
    argument unchanged exactly when no reddit host occurs in it. *)
Theorem convertToRxddit_settles (s : jsstring) :
  convertToRxddit (convertToRxddit s) = convertToRxddit s
  /\ (forall u v, convertToRxddit s = u ++ v ->
        exec HOST_WWW v = None /\ exec HOST_OLD_NEW v = None)
  /\ (convertToRxddit s = s <->
      forall u v, s = u ++ v ->
        exec HOST_WWW v = None /\ exec HOST_OLD_NEW v = None).
Proof.
  pose proof (h_exec_nil _ _ (proj1 HOST_WWW_host)) as NW.
  pose proof (h_exec_nil _ _ (proj1 HOST_OLD_NEW_host)) as NO.
  destruct (convertToRxddit_quiet s) as [QW QO].
  split; [apply convertToRxddit_idempotent|]. split.
  - intros u v E. split.
    + exact (proj1 (quiet_suffixes _ _ NW) QW u v E).
    + exact (proj1 (quiet_suffixes _ _ NO) QO u v E).
  - split.
    + intros E u v Hs. rewrite <- E in Hs. split.
      * exact (proj1 (quiet_suffixes _ _ NW) QW u v Hs).
      * exact (proj1 (quiet_suffixes _ _ NO) QO u v Hs).
    + intros H.
      assert (HW : quiet HOST_WWW s [])
        by (apply (quiet_suffixes _ _ NW); intros u v E; apply (H u v E)).
      assert (HO : quiet HOST_OLD_NEW s [])
        by (apply (quiet_suffixes _ _ NO); intros u v E; apply (H u v E)).
      unfold convertToRxddit.
      rewrite (replaceAll_quiet HOST_WWW) by assumption.
      now rewrite (replaceAll_quiet HOST_OLD_NEW) by assumption.
Qed.

(** X13.  [detectRedditLinks] finds nothing exactly when
    [convertMessageLinks] changes nothing, and exactly when no pattern of
    [REDDIT_PATTERNS] matches at any place of the text. *)
Theorem detectRedditLinks_nil_iff (content : jsstring) :
  (detectRedditLinks content = [] <-> convertMessageLinks content = content)
  /\ (detectRedditLinks content = [] <->
      forall u v P, In P REDDIT_PATTERNS -> content = u ++ v ->
                    exec P v = None).
Proof.
  pose proof (link_exec_nil _ PATTERN_WWW_link) as NW.
  pose proof (link_exec_nil _ PATTERN_OLD_NEW_link) as NO.
  split.
  - split.
    + intros H. apply detectRedditLinks_nil_quiet in H.
      now apply quiet_convertMessageLinks.
    + intros E. apply detectRedditLinks_nil_quiet. rewrite <- E.
      apply convertMessageLinks_quiet.
  - rewrite detectRedditLinks_nil_quiet. split.
    + intros [HW HO] u v P [<-|[<-|[]]] E.
      * exact (proj1 (quiet_suffixes _ _ NW) HW u v E).
      * exact (proj1 (quiet_suffixes _ _ NO) HO u v E).
    + intros H. split.
      * apply (quiet_suffixes _ _ NW). intros u v E.
        apply (H u v PATTERN_WWW); [now left | exact E].
      * apply (quiet_suffixes _ _ NO). intros u v E.
        apply (H u v PATTERN_OLD_NEW); [right; now left | exact E].
Qed.

(** X14.  In the text [convertMessageLinks] returns there is no link left
    to detect, no pattern of [REDDIT_PATTERNS] matches at any place of it,
    and converting it again changes nothing. *)
Theorem convertMessageLinks_settles (content : jsstring) :
  detectRedditLinks (convertMessageLinks content) = []
  /\ convertMessageLinks (convertMessageLinks content)
     = convertMessageLinks content
  /\ forall u v P, In P REDDIT_PATTERNS ->
       convertMessageLinks content = u ++ v -> exec P v = None.
Proof.
  destruct (convertMessageLinks_quiet content) as [HW HO].
  split; [apply detectRedditLinks_nil_quiet; split; assumption|].
  split; [now apply quiet_convertMessageLinks|].
  intros u v P [<-|[<-|[]]] E.
  - exact (proj1 (quiet_suffixes _ _ (link_exec_nil _ PATTERN_WWW_link))
             HW u v E).
  - exact (proj1 (quiet_suffixes _ _ (link_exec_nil _ PATTERN_OLD_NEW_link))
             HO u v E).
Qed.

(** *** The detected links in the text *)

Lemma scan_In r s :
  forall skip m, In m (scan r skip s) ->
    exists pre post, s = pre ++ m ++ post /\ exec r (m ++ post) = Some post.
Proof.
  induction s as [|c s IH]; intros skip m H.
  - cbn [scan] in H. destruct skip; [|destruct H].
    destruct (exec r []) as [rest|] eqn:E; [|destruct H].
    destruct H as [<-|[]]. exists [], []. split; [reflexivity|].
    pose proof (exec_split _ _ E) as Hs.
    symmetry in Hs. apply app_eq_nil in Hs. destruct Hs as [_ ->].
    exact E.
  - cbn [scan] in H. destruct skip as [|n].
    + destruct (exec r (c :: s)) as [rest|] eqn:E.
      * cbv zeta in H. destruct H as [<-|H].
        -- exists [], rest. pose proof (exec_split _ _ E) as Hs.
           cbn [app]. rewrite <- Hs. split; [reflexivity | exact E].
        -- destruct (IH _ _ H) as (pre & post & -> & Hx).
           exists (c :: pre), post. split; [reflexivity | exact Hx].
      * destruct (IH _ _ H) as (pre & post & -> & Hx).
        exists (c :: pre), post. split; [reflexivity | exact Hx].
    + destruct (IH _ _ H) as (pre & post & -> & Hx).
      exists (c :: pre), post. split; [reflexivity | exact Hx].
Qed.

(** X15.  Every link [detectRedditLinks] returns is a piece of the text:
    it stands there, starts with the letter h in either case, holds no
    white space and runs to the end of its word; taken alone it is matched
    as a whole by a pattern of [REDDIT_PATTERNS], and [convertToRxddit]
    changes it. *)
Theorem detectRedditLinks_pieces (content L : jsstring) :
  In L (detectRedditLinks content) ->
  exists pre post P,
    content = pre ++ L ++ post
    /\ boundary post = true
    /\ Forall nonspace L
    /\ hstart L = true
    /\ In P REDDIT_PATTERNS
    /\ exec P (L ++ post) = Some post
    /\ exec P L = Some []
    /\ convertToRxddit L <> L.
Proof.
  rewrite detectRedditLinks_unfold, set_from_In. intros [H _].
  assert (G : exists P, In P REDDIT_PATTERNS /\ link_pattern P
                        /\ In L (matchAll P content)).
  { apply in_app_or in H. destruct H as [H|H].
    - exists PATTERN_WWW. split; [now left|].
      split; [apply PATTERN_WWW_link | exact H].
    - exists PATTERN_OLD_NEW. split; [right; now left|].
      split; [apply PATTERN_OLD_NEW_link | exact H]. }
  destruct G as (P & HP & LP & Hin).
  destruct (scan_In _ _ _ _ Hin) as (pre & post & Hc & Hx).
  destruct (link_exec_some _ _ _ LP Hx) as (Hs & Hne & Hns & Hb & Hh).
  assert (Em : matched (L ++ post) post = L) by apply matched_app.
  rewrite Em in *.
  pose proof (link_exec_alone _ _ _ LP Hx) as Ha. rewrite Em in Ha.
  exists pre, post, P. repeat (split; [assumption|]).
  split; [destruct L; [now destruct Hne | exact Hh]|].
  split; [exact HP|]. split; [exact Hx|]. split; [exact Ha|].
  intros E. destruct (convertToRxddit_quiet L) as [QW QO]. rewrite E in QW, QO.
  destruct L as [|c t]; [now destruct Hne|].
  pose proof (quiet_nil_r _ _ QW c t eq_refl) as XW.
  pose proof (quiet_nil_r _ _ QO c t eq_refl) as XO.
  destruct HP as [<-|[<-|[]]].
  - pose proof (exec_seq_prefix _ _ _ _ Ha) as S. rewrite XW in S.
    discriminate S.
  - pose proof (exec_seq_prefix _ _ _ _ Ha) as S. rewrite XO in S.
    discriminate S.
Qed.

Lemma detectRedditLinks_pieces_sample :
  let content := str "see (https://old.reddit.com/r/a?x=1) there" in
  let L := str "https://old.reddit.com/r/a?x=1)" in
  In L (detectRedditLinks content)
  /\ exists pre post, content = pre ++ L ++ post /\ boundary post = true.
Proof.
  assert (H : In (str "https://old.reddit.com/r/a?x=1)")
                (detectRedditLinks
                   (str "see (https://old.reddit.com/r/a?x=1) there")))
    by (vm_compute; now left).
  split; [exact H|].
  destruct (detectRedditLinks_pieces _ _ H)
    as (pre & post & P & Hc & Hb & _).
  exists pre, post. split; assumption.
Defined.

(** *** Texts word by word *)

Lemma scan_nil_any r n : exec r [] = None -> scan r n [] = [].
Proof. intros H. cbn [scan]. rewrite H. now destruct n. Qed.

(** When no match runs into [v], the matches of [w ++ v] are those of [w]
    and then those of [v]. *)
Lemma scan_split r v :
  exec r [] = None ->
  (forall u, u <> [] ->
     exec r (u ++ v) = option_map (fun t => t ++ v) (exec r u)) ->
  forall w n, n <= length w ->
    scan r n (w ++ v) = scan r n w ++ scan r 0 v.
Proof.
  intros r_nil r_v. induction w as [|c w IH]; intros n Hn.
  - assert (n = 0) as -> by (cbn in Hn; lia).
    now rewrite scan_nil_any.
  - destruct n as [|n]; [|cbn [app scan]; apply IH; cbn in Hn; lia].
    change ((c :: w) ++ v) with (c :: w ++ v).
    cbn [scan].
    change (c :: w ++ v) with ((c :: w) ++ v).
    rewrite (r_v (c :: w)) by discriminate.
    destruct (exec r (c :: w)) as [t|] eqn:E; cbn [option_map].
    + pose proof (exec_split _ _ E) as Hs.
      assert (Em : matched ((c :: w) ++ v) (t ++ v) = matched (c :: w) t).
      { rewrite Hs at 1. rewrite <- app_assoc. now rewrite matched_app. }
      cbv zeta. rewrite Em.
      pose proof (matched_length (c :: w) t) as Hl.
      cbn [app]. f_equal. apply IH. cbn [length] in Hl. lia.
    + apply IH. lia.
Qed.

Lemma link_exec_at_space P c v :
  link_pattern P -> is_space c = true -> exec P (c :: v) = None.
Proof.
  intros HP Hc. destruct (exec P (c :: v)) as [rest|] eqn:E; [|reflexivity].
  destruct (link_exec_some _ _ _ HP E) as (_ & _ & _ & _ & Hh).
  cbn in Hh. rewrite (is_space_not_h _ Hc) in Hh. discriminate.
Qed.

Lemma matchAll_words P w c v :
  link_pattern P -> is_space c = true ->
  matchAll P (w ++ c :: v) = matchAll P w ++ matchAll P v.
Proof.
  intros HP Hc. unfold matchAll.
  rewrite (scan_split P (c :: v)).
  - now rewrite (scan_none P c v (link_exec_at_space P c v HP Hc)).
  - now apply link_exec_nil.
  - intros u _. now apply link_exec_space.
  - lia.
Qed.

Lemma replaceAll_at_space P (f : jsstring -> jsstring) w c v :
  link_pattern P -> is_space c = true ->
  replaceAll P f (w ++ c :: v) = replaceAll P f w ++ c :: replaceAll P f v.
Proof.
  intros HP Hc.
  rewrite (replaceAll_words P f w (c :: v) HP Hc). f_equal.
  unfold replaceAll.
  exact (subst_none P f c v (link_exec_at_space P c v HP Hc)).
Qed.

(** X16.  White space separates: for a text made of two parts with a
    white-space code unit between them, [convertMessageLinks] converts the
    parts on their own and keeps the code unit, and [detectRedditLinks]
    finds the links of the one part and those of the other. *)
Theorem words_on_their_own (w v : jsstring) (c : char16) :
  is_space c = true ->
  convertMessageLinks (w ++ c :: v)
  = convertMessageLinks w ++ c :: convertMessageLinks v
  /\ (forall L, In L (detectRedditLinks (w ++ c :: v))
                <-> In L (detectRedditLinks w) \/ In L (detectRedditLinks v)).
Proof.
  intros Hc. split.
  - rewrite !convertMessageLinks_unfold.
    rewrite (replaceAll_at_space _ _ _ _ _ PATTERN_WWW_link Hc).
    now rewrite (replaceAll_at_space _ _ _ _ _ PATTERN_OLD_NEW_link Hc).
  - intros L. rewrite !detectRedditLinks_unfold, !set_from_In.
    rewrite (matchAll_words _ _ _ _ PATTERN_WWW_link Hc).
    rewrite (matchAll_words _ _ _ _ PATTERN_OLD_NEW_link Hc).
    rewrite !in_app_iff. tauto.
Qed.

Lemma words_on_their_own_sample :
  is_space 10%N = true
  /\ convertMessageLinks
       (str "a https://reddit.com/r/x" ++ 10%N :: str "https://new.reddit.com/r/y b")
     = str "a https://rxddit.com/r/x" ++ 10%N :: str "https://rxddit.com/r/y b".
Proof.
  split; [reflexivity|].
  destruct (words_on_their_own (str "a https://reddit.com/r/x")
              (str "https://new.reddit.com/r/y b") 10%N eq_refl) as [H _].
  etransitivity; [exact H|]. vm_compute. reflexivity.
Defined.

(** *** The converted links in the converted text *)

Lemma nonspace_run_unique (a b c d : jsstring) :
  a ++ b = c ++ d -> Forall nonspace a -> Forall nonspace c ->
  boundary b = true -> boundary d = true -> a = c /\ b = d.
Proof.
  revert c. induction a as [|x a IH]; intros [|y c] E Ha Hc Hb Hd;
    cbn [app] in E.
  - auto.
  - subst b. cbn in Hb. inversion Hc as [|? ? Hy _]; subst.
    unfold nonspace in Hy. congruence.
  - subst d. cbn in Hd. inversion Ha as [|? ? Hx _]; subst.
    unfold nonspace in Hx. congruence.
  - injection E as -> E. inversion Ha; inversion Hc; subst.
    destruct (IH c E) as [-> ->]; auto.
Qed.

Lemma convertMessageLinks_link s rest :
  exec_any s = Some rest ->
  convertMessageLinks s
  = convertToRxddit (matched s rest) ++ convertMessageLinks rest.
Proof.
  intros E. destruct (exec_any_some _ _ E) as (P0 & HP0 & _ & E0).
  destruct (link_exec_some _ _ _ HP0 E0) as (Hs & Hne & _).
  rewrite convertMessageLinks_segments.
  rewrite (segments_some _ _ E Hne Hs). cbn [map concat render].
  now rewrite <- convertMessageLinks_segments.
Qed.

Lemma convertMessageLinks_gap c s :
  exec_any (c :: s) = None ->
  convertMessageLinks (c :: s) = c :: convertMessageLinks s.
Proof.
  intros E. rewrite convertMessageLinks_segments.
  rewrite (segments_none _ _ E). cbn [map concat render app].
  now rewrite <- convertMessageLinks_segments.
Qed.

(** Where a pattern matches in the text, the conversion of the match
    stands in the converted text. *)
Lemma convertMessageLinks_at_match P s :
  In P REDDIT_PATTERNS ->
  forall pre L post,
    s = pre ++ L ++ post -> exec P (L ++ post) = Some post ->
    exists pre',
      convertMessageLinks s
      = pre' ++ convertToRxddit L ++ convertMessageLinks post.
Proof.
  intros HPin.
  assert (HP : link_pattern P).
  { destruct HPin as [<-|[<-|[]]];
      [apply PATTERN_WWW_link | apply PATTERN_OLD_NEW_link]. }
  remember (length s) as n eqn:Hn.
  revert s Hn. induction n as [n IH] using lt_wf_ind.
  intros s Hn pre L post Hs Hx.
  destruct (link_exec_some _ _ _ HP Hx) as (_ & HLne & HLns & Hpb & HLh).
  rewrite matched_app in HLne, HLns.
  assert (HhL : hstart L = true)
    by (destruct L; [now destruct HLne | exact HLh]).
  destruct (exec_any s) as [rest0|] eqn:E.
  - destruct (exec_any_some _ _ E) as (P0 & HP0 & _ & E0).
    destruct (link_exec_some _ _ _ HP0 E0) as (HsM & HMne & HMns & Hrb & _).
    rewrite (convertMessageLinks_link _ _ E).
    set (M := matched s rest0) in *.
    assert (Hlt : length rest0 < n)
      by (subst n; exact (link_rest_shorter _ _ _ HP0 E0)).
    assert (After : forall l, rest0 = l ++ L ++ post ->
              exists pre',
                convertToRxddit M ++ convertMessageLinks rest0
                = pre' ++ convertToRxddit L ++ convertMessageLinks post).
    { intros l El.
      destruct (IH (length rest0) Hlt rest0 eq_refl l L post El Hx)
        as (p & Ep).
      exists (convertToRxddit M ++ p). rewrite Ep.
      now rewrite <- app_assoc. }
    rewrite HsM in Hs. apply app_eq_app in Hs.
    destruct Hs as (l & [[EM El]|[Epre El]]).
    + destruct l as [|x l].
      * rewrite app_nil_r in EM. cbn [app] in El.
        apply (After []). cbn [app]. now symmetry.
      * assert (Hl : Forall nonspace (x :: l)).
        { rewrite EM in HMns. apply Forall_app in HMns. tauto. }
        destruct (nonspace_run_unique _ _ _ _ El HLns Hl Hpb Hrb)
          as [EL Epost].
        exists (convertToRxddit pre). rewrite EM, <- EL, <- Epost.
        rewrite (convertToRxddit_split pre L HhL).
        now rewrite <- app_assoc.
    + now apply (After l).
  - destruct pre as [|c pre].
    + exfalso. cbn [app] in Hs. rewrite <- Hs in Hx. unfold exec_any in E.
      destruct (exec PATTERN_WWW s) eqn:EW; [discriminate|].
      destruct HPin as [<-|[<-|[]]]; congruence.
    + cbn [app] in Hs. subst s. rewrite (convertMessageLinks_gap _ _ E).
      destruct (IH (length (pre ++ L ++ post))) with
        (s := pre ++ L ++ post) (pre := pre) (L := L) (post := post)
        as (p & Ep); [subst n; cbn; lia | reflexivity | reflexivity
                      | exact Hx |].
      exists (c :: p). now rewrite Ep.
Qed.

Lemma convertMessageLinks_whole_link P L :
  In P REDDIT_PATTERNS -> exec P L = Some [] ->
  convertMessageLinks L = convertToRxddit L.
Proof.
  intros HPin Hx.
  destruct (exec PATTERN_WWW L) as [r|] eqn:EW.
  - assert (HP : link_pattern P).
    { destruct HPin as [<-|[<-|[]]];
        [apply PATTERN_WWW_link | apply PATTERN_OLD_NEW_link]. }
    destruct (link_whole _ _ HP Hx) as (Hns & _).
    assert (r = []) as ->.
    { apply (link_exec_word PATTERN_WWW L [] r PATTERN_WWW_link Hns
               eq_refl).
      now rewrite app_nil_r. }
    now apply convertMessageLinks_www.
  - destruct HPin as [<-|[<-|[]]]; [congruence|].
    now apply convertMessageLinks_old_new.
Qed.

(** X22.  The links [detectRedditLinks] returns and the text
    [convertMessageLinks] returns go together: the conversion of every
    detected link stands in the converted text, it is what
    [convertMessageLinks] makes of the link alone, and it holds no link
    itself; and every piece of the text that [convertMessageLinks] replaces
    is a detected link. *)
Theorem converted_links_in_text (content : jsstring) :
  (forall L, In L (detectRedditLinks content) ->
     (exists pre post,
        convertMessageLinks content = pre ++ convertToRxddit L ++ post)
     /\ convertMessageLinks L = convertToRxddit L
     /\ detectRedditLinks (convertToRxddit L) = [])
  /\ (forall M, In (Link M) (segments content) ->
        In M (detectRedditLinks content)).
Proof.
  split.
  - intros L HL.
    rewrite detectRedditLinks_unfold, set_from_In in HL.
    destruct HL as [HL _].
    assert (G : exists P, In P REDDIT_PATTERNS /\ link_pattern P
                          /\ In L (matchAll P content)).
    { apply in_app_or in HL. destruct HL as [H|H].
      - exists PATTERN_WWW. split; [now left|].
        split; [apply PATTERN_WWW_link | exact H].
      - exists PATTERN_OLD_NEW. split; [right; now left|].
        split; [apply PATTERN_OLD_NEW_link | exact H]. }
    destruct G as (P & HPin & HP & Hin).
    destruct (scan_In _ _ _ _ Hin) as (pre & post & Hc & Hx).
    destruct (convertMessageLinks_at_match P content HPin pre L post Hc Hx)
      as (pre' & E).
    pose proof (link_exec_alone _ _ _ HP Hx) as Ha.
    rewrite matched_app in Ha.
    pose proof (convertMessageLinks_whole_link P L HPin Ha) as Ew.
    split; [exists pre', (convertMessageLinks post); exact E|].
    split; [exact Ew|].
    rewrite <- Ew. apply detectRedditLinks_nil_quiet.
    apply convertMessageLinks_quiet.
  - intros M HM. rewrite detectRedditLinks_unfold, set_from_In.
    split; [|intros []]. apply in_or_app.
    exact (segments_links_matched _ _ HM).
Qed.

(** A link of the second pattern that holds a link of the first: both are
    detected, the conversion of each stands in the converted text. *)
Example converted_links_sample :
  let content := str "x https://old.reddit.com/r/ahttps://reddit.com/r/b" in
  detectRedditLinks content
  = [str "https://reddit.com/r/b";
     str "https://old.reddit.com/r/ahttps://reddit.com/r/b"]
  /\ convertMessageLinks content
     = str "x https://rxddit.com/r/ahttps://rxddit.com/r/b"
  /\ segments (str "https://old.reddit.com/r/ahttps://reddit.com/r/b")
     = [Link (str "https://old.reddit.com/r/ahttps://reddit.com/r/b")].
Proof. vm_compute. repeat split; reflexivity. Qed.

End LinkLaws.

(** ** The handlers of [bot.ts] on the ledger *)

Module HandlerLaws.
Import Ledger LinkUtils Bot LedgerTheory LedgerLaws LinkTheory LinkLaws.
Unset Implicit Arguments.



(** What the ledger holds for a message whose conversion was posted. *)
Lemma onMessageCreate_posted message platform now db :
  snd (fst (onMessageCreate message platform now db)) <> [] ->
  exists record,
    getMessage (m_id message) (snd (onMessageCreate message platform now db))
    = Some record
    /\ isReverted record = false
    /\ authorId record = m_author_id message
    /\ originalLinks record
       = Json.stringify (detectRedditLinks (m_content message))
    /\ convertedLinks record
       = Json.stringify
           (map convertToRxddit (detectRedditLinks (m_content message))).
Proof.
  unfold onMessageCreate.
  destruct (m_author_bot message); [intros H; now destruct H|].
  destruct (m_content message) as [|c0 content]; [intros H; now destruct H|].
  destruct (detectRedditLinks (c0 :: content)) as [|l0 links];
    [intros H; now destruct H|].
  destruct (m_guild_id message) as [guild|]; [|intros H; now destruct H].
  destruct (negb (m_channel_text_based message)
            || m_channel_dm_based message); [intros H; now destruct H|].
  destruct (client_user platform) as [bot|]; [|intros H; now destruct H].
  destruct (negb (bot_member_cached platform)
            || negb (can_send_messages platform));
    [intros H; now destruct H|].
  destruct (send_result platform) as [botMessage|];
    [|intros H; now destruct H].
  intros _.
  set (input := {| in_messageId := m_id message;
                   in_channelId := m_channel_id message;
                   in_guildId := guild;
                   in_authorId := m_author_id message;
                   in_authorTag := m_author_tag message;
                   in_originalContent := c0 :: content;
                   in_convertedContent := convertMessageLinks (c0 :: content);
                   in_originalLinks := Json.stringify (l0 :: links);
                   in_convertedLinks :=
                     Json.stringify (map convertToRxddit (l0 :: links));
                   in_botMessageId := botMessage;
                   in_createdAt := now |}).
  exists (row_of_input input). split; [|repeat split].
  destruct (can_add_reactions platform); [destruct (react_ok platform)|];
    cbn [snd]; exact (storeMessage_getMessage input db).
Qed.


(** A message of a guild channel that the bot may answer, and a platform on
    which every call goes through. *)
Example onMessageCreate_sample :
  let message :=
    {| m_id := str "m1"; m_content := str "look: https://reddit.com/r/a";
       m_author_id := str "u1"; m_author_tag := str "U#1";
       m_author_bot := false; m_guild_id := Some (str "g");
       m_channel_id := str "c"; m_channel_text_based := true;
       m_channel_dm_based := false |} in
  let platform :=
    {| client_user := Some (str "bot"); bot_member_cached := true;
       can_send_messages := true; send_result := Some (str "b1");
       can_add_reactions := true; react_ok := true |} in
  let res := onMessageCreate message platform 1000 fresh in
  fst res
  = (Converted,
     [Sent (str "c")
        (str "*<@u1> posted:*" ++ 10%N :: str "look: https://rxddit.com/r/a");
      Reacted (str "m1") ROBOT_EMOJI])
  /\ option_map originalLinks (getMessage (str "m1") (snd res))
     = Some (91%N :: 34%N :: str "https://reddit.com/r/a" ++ [34%N; 93%N])
  /\ option_map convertedLinks (getMessage (str "m1") (snd res))
     = Some (91%N :: 34%N :: str "https://rxddit.com/r/a" ++ [34%N; 93%N]).
Proof. vm_compute. repeat split; reflexivity. Qed.

(** *** The handler that reads [isReverted] first *)

Lemma getMessage_found mid db m :
  getMessage mid db = Some m -> hasMessage mid db = true.
Proof. intros H. apply hasMessage_getMessage. eauto. Qed.

Lemma getMessage_after_reaction mid reaction db :
  getMessage mid (snd (storeReaction reaction db)) = getMessage mid db.
Proof.
  destruct (storeReaction_result reaction db) as [(e & E)|(row & E & _)];
    rewrite E; reflexivity.
Qed.

(** X18.  The handler that reads [isReverted] first: an event for an
    unknown message, or for a message already reverted, changes nothing in
    the ledger.  For a tracked message not yet reverted, a robot reaction of
    a user adds one reaction row, with a new identifier, the user's id as
    [odId] and the time of the event; the row is marked as a revert and the
    record is reverted (once the platform calls went through) exactly when
    the user is the author of the message; its other columns stay as they
    were. *)
Theorem onReactionAdd_checked_flow (reaction : Reaction) (user : User)
    (now : Z) (platform_ok : bool) (db : Db) :
  let mid := message_id reaction in
  let res := onReactionAdd_checked reaction user now platform_ok db in
  (getMessage mid db = None -> res = (Ignored, db))
  /\ (forall m, getMessage mid db = Some m -> isReverted m = true ->
        snd res = db /\ (fst res = Ignored \/ fst res = AlreadyReverted))
  /\ (forall m, getMessage mid db = Some m -> isReverted m = false ->
        user_bot user = false ->
        partial reaction && negb (fetch_ok reaction) = false ->
        is_robot (emoji_name reaction) = true ->
        reactions (snd res)
        = reactions db
          ++ [ {| id := next_id db; r_messageId := mid;
                  odId := user_id user;
                  userTag := or_else (user_tag user) (str "Unknown");
                  emoji := ROBOT_EMOJI; reactedAt := now;
                  isRevertReaction :=
                    JS.eqb (user_id user) (authorId m) |} ]
        /\ (user_id user <> authorId m ->
            fst res = NotAuthor /\ getMessage mid (snd res) = Some m)
        /\ (user_id user = authorId m ->
            fst res = Reverted
            /\ getMessage mid (snd res)
               = Some (if platform_ok then set_reverted m else m)
            /\ exists m',
                 getMessage mid (snd res) = Some m'
                 /\ isReverted m' = platform_ok
                 /\ same_but_flag m' m)).
Proof.
  cbv zeta. unfold onReactionAdd_checked. split; [|split].
  - intros H. rewrite H.
    destruct (user_bot user), (partial reaction && negb (fetch_ok reaction)),
      (negb (is_robot (emoji_name reaction))); reflexivity.
  - intros m H Hrev. rewrite H, Hrev.
    destruct (user_bot user), (partial reaction && negb (fetch_ok reaction)),
      (negb (is_robot (emoji_name reaction))); cbn [fst snd]; auto.
  - intros m H Hrev Hbot Hpart Hrobot.
    rewrite Hbot, Hpart, Hrobot, H, Hrev. cbn [negb].
    unfold storeReaction.
    cbn [o_messageId o_odId o_userTag o_emoji o_reactedAt
         o_isRevertReaction].
    rewrite (getMessage_found _ _ _ H). rewrite andb_false_r.
    set (row := {| id := next_id db; r_messageId := message_id reaction;
                   odId := user_id user;
                   userTag := or_else (user_tag user) (str "Unknown");
                   emoji := ROBOT_EMOJI; reactedAt := now;
                   isRevertReaction :=
                     JS.eqb (user_id user) (authorId m) |}).
    set (db1 := {| messages := messages db;
                   reactions := reactions db ++ [row];
                   reaction_seq := next_id db;
                   foreign_keys := foreign_keys db |}).
    assert (G1 : getMessage (message_id reaction) db1 = Some m) by exact H.
    destruct (JS.eqb (user_id user) (authorId m)) eqn:E; cbn [negb].
    + apply jseqb_eq in E. destruct platform_ok; cbn [fst snd].
      * split; [reflexivity|]. split; [intros Hne; contradiction|].
        assert (G2 : getMessage (message_id reaction)
                       (snd (markAsReverted (message_id reaction) db1))
                     = Some (set_reverted m))
          by (rewrite getMessage_markAsReverted; now rewrite G1).
        intros _. split; [reflexivity|]. split; [exact G2|].
        exists (set_reverted m). split; [exact G2|].
        split; [reflexivity | repeat split].
      * split; [reflexivity|]. split; [intros Hne; contradiction|].
        intros _. split; [reflexivity|]. split; [exact G1|].
        exists m. split; [exact G1|]. split; [exact Hrev | repeat split].
    + apply jseqb_neq in E. cbn [fst snd].
      split; [reflexivity|]. split; [|intros Heq; contradiction].
      intros _. split; [reflexivity | exact G1].
Qed.



(** *** The periodic cleanup *)

(** X20.  [runCleanup] keeps exactly the records that are at most thirty
    days old (2592000000 ms) at the time it runs, removes the others with
    their reactions, does not fail, and logs the number removed when it is
    not zero. *)
Theorem runCleanup_retention (now : Z) (db : Db) :
  let res := runCleanup now db in
  (forall m, In m (messages (snd res)) <->
     In m (messages db) /\ (now - createdAt m <= 2592000000)%Z)
  /\ (forall r, In r (reactions (snd res)) <->
        In r (reactions db)
        /\ forall m, In m (messages db) -> messageId m = r_messageId r ->
                     (now - createdAt m <= 2592000000)%Z)
  /\ exists logged,
       fst res = Ok logged
       /\ (logged = None <->
           forall m, In m (messages db) ->
                     (now - createdAt m <= 2592000000)%Z)
       /\ forall n, logged = Some n ->
            (0 < n)%Z
            /\ Z.to_nat n + length (messages (snd res))
               = length (messages db).
Proof.
  cbv zeta. unfold runCleanup.
  pose proof (cleanupOldMessages_eq now MESSAGE_RETENTION_DAYS db) as E.
  cbv zeta in E. rewrite E. cbn [fst snd messages reactions].
  assert (C : forall m,
            older_than (cutoffTime now MESSAGE_RETENTION_DAYS) m = false
            <-> (now - createdAt m <= 2592000000)%Z).
  { intros m. unfold older_than, cutoffTime, MESSAGE_RETENTION_DAYS.
    rewrite Z.ltb_ge. lia. }
  set (cutoff := cutoffTime now MESSAGE_RETENTION_DAYS) in *.
  split; [|split].
  - intros m. rewrite filter_In, negb_true_iff, C. reflexivity.
  - intros r. rewrite filter_In, survives_true. split.
    + intros [Hr H]. split; [exact Hr|]. intros m Hm Hid. apply C.
      destruct (older_than cutoff m) eqn:F; [|reflexivity].
      destruct (H m Hm F Hid).
    + intros [Hr H]. split; [exact Hr|]. intros m Hm Hold Hid.
      pose proof (proj2 (C m) (H m Hm Hid)) as F. congruence.
  - eexists. split; [reflexivity|].
    pose proof (filter_split_length (older_than cutoff) (messages db)) as HL.
    destruct (filter (older_than cutoff) (messages db)) as [|x l] eqn:F.
    + cbn [length Z.of_nat Z.ltb Z.compare]. split.
      * split; [|reflexivity]. intros _ m Hm. apply C.
        destruct (older_than cutoff m) eqn:G; [|reflexivity].
        assert (Hin : In m (filter (older_than cutoff) (messages db)))
          by (apply filter_In; split; assumption).
        rewrite F in Hin. destruct Hin.
      * intros n Hn. discriminate Hn.
    + assert (P : (0 <? Z.of_nat (length (x :: l)))%Z = true)
        by (apply Z.ltb_lt; cbn [length]; lia).
      rewrite P. split.
      * split; [discriminate|]. intros H. exfalso.
        assert (Hin : In x (filter (older_than cutoff) (messages db)))
          by (rewrite F; now left).
        apply filter_In in Hin. destruct Hin as [Hin Hold].
        pose proof (proj2 (C x) (H x Hin)). congruence.
      * intros n [= <-]. split; [cbn [length]; lia|].
        rewrite <- HL. cbn [length] in *. lia.
Qed.

(** A record of thirty days and one of thirty days and a millisecond. *)
Example runCleanup_sample :
  let db := storeMessage (Sample.message "b" "u" "b2" 999)
              (storeMessage (Sample.message "a" "u" "b1" 1000) fresh) in
  let res := runCleanup (1000 + 2592000000) db in
  fst res = Ok (Some 1%Z)
  /\ map messageId (messages (snd res)) = [str "a"]
  /\ fst (runCleanup (1000 + 2592000000) (snd res)) = Ok None.
Proof. vm_compute. repeat split; reflexivity. Qed.

End HandlerLaws.

(** ** The link lists of a record can be read back *)

Module JsonLaws.
Import Json.
Unset Implicit Arguments.

Lemma hex_value_digit n : (n < 16)%N -> hex_value (hex_digit n) = Some n.
Proof.
  intros H. unfold hex_value, hex_digit.
  destruct (N.ltb_spec n 10).
  - replace ((48 <=? 48 + n) && (48 + n <=? 57))%N with true.
    + f_equal. lia.
    + symmetry. apply andb_true_iff. split; apply N.leb_le; lia.
  - replace ((48 <=? 87 + n) && (87 + n <=? 57))%N with false.
    + replace ((97 <=? 87 + n) && (87 + n <=? 102))%N with true.
      * f_equal. lia.
      * symmetry. apply andb_true_iff. split; apply N.leb_le; lia.
    + symmetry. apply andb_false_iff. right. apply N.leb_gt. lia.
Qed.

Lemma four_digits c :
  (c < 65536)%N ->
  (c / 4096 < 16
   /\ (c / 256) mod 16 < 16 /\ (c / 16) mod 16 < 16 /\ c mod 16 < 16
   /\ 4096 * (c / 4096) + 256 * ((c / 256) mod 16)
      + 16 * ((c / 16) mod 16) + c mod 16 = c)%N.
Proof.
  intros H.
  pose proof (N.div_mod c 16 ltac:(lia)) as E1.
  pose proof (N.div_mod (c / 16) 16 ltac:(lia)) as E2.
  pose proof (N.div_mod (c / 256) 16 ltac:(lia)) as E3.
  pose proof (N.mod_lt c 16 ltac:(lia)) as L1.
  pose proof (N.mod_lt (c / 16) 16 ltac:(lia)) as L2.
  pose proof (N.mod_lt (c / 256) 16 ltac:(lia)) as L3.
  assert (D2 : (c / 16 / 16 = c / 256)%N)
    by (rewrite N.Div0.div_div; reflexivity).
  assert (D3 : (c / 256 / 16 = c / 4096)%N)
    by (rewrite N.Div0.div_div; reflexivity).
  rewrite D2 in E2. rewrite D3 in E3.
  assert (L4 : (c / 4096 < 16)%N)
    by (apply N.Div0.div_lt_upper_bound; lia).
  repeat split; try assumption. lia.
Qed.

Lemma read_unicode_escape c s t rest :
  (c < 65536)%N ->
  read_units s = Some (t, rest) ->
  read_units (unicode_escape c ++ s) = Some (c :: t, rest).
Proof.
  intros Hc Hs. destruct (four_digits c Hc) as (H1 & H2 & H3 & H4 & E).
  unfold unicode_escape. cbn [app read_units].
  change (92 =? 34)%N with false. change (92 =? 92)%N with true.
  change (117 =? 117)%N with true. cbv iota.
  rewrite !hex_value_digit by assumption. rewrite Hs. now rewrite E.
Qed.

Lemma read_two_char e x s t rest :
  unescape e = Some x -> (e =? 117)%N = false ->
  read_units s = Some (t, rest) ->
  read_units (92%N :: e :: s) = Some (x :: t, rest).
Proof.
  intros He Hu Hs. cbn [read_units].
  change (92 =? 34)%N with false. change (92 =? 92)%N with true. cbv iota.
  now rewrite Hu, He, Hs.
Qed.

Lemma read_plain c s t rest :
  (c =? 34)%N = false -> (c =? 92)%N = false ->
  read_units s = Some (t, rest) ->
  read_units (c :: s) = Some (c :: t, rest).
Proof. intros H1 H2 Hs. cbn [read_units]. now rewrite H1, H2, Hs. Qed.

(** What [quote_units] writes is read back, up to the closing quote. *)
Lemma read_quote_units s rest :
  read_units (quote_units s ++ 34%N :: rest) = Some (s, rest).
Proof.
  remember (length s) as n eqn:Hn. revert s Hn.
  induction n as [n IH] using lt_wf_ind. intros s Hn.
  destruct s as [|c s]; [reflexivity|].
  assert (IH1 : read_units (quote_units s ++ 34%N :: rest) = Some (s, rest))
    by (apply (IH (length s)); [subst n; cbn; lia | reflexivity]).
  cbn [quote_units].
  destruct (N.eqb_spec c 8) as [->|N8];
    [exact (read_two_char 98%N 8%N _ _ _ eq_refl eq_refl IH1)|].
  destruct (N.eqb_spec c 9) as [->|N9];
    [exact (read_two_char 116%N 9%N _ _ _ eq_refl eq_refl IH1)|].
  destruct (N.eqb_spec c 10) as [->|N10];
    [exact (read_two_char 110%N 10%N _ _ _ eq_refl eq_refl IH1)|].
  destruct (N.eqb_spec c 12) as [->|N12];
    [exact (read_two_char 102%N 12%N _ _ _ eq_refl eq_refl IH1)|].
  destruct (N.eqb_spec c 13) as [->|N13];
    [exact (read_two_char 114%N 13%N _ _ _ eq_refl eq_refl IH1)|].
  destruct (N.eqb_spec c 34) as [->|N34];
    [exact (read_two_char 34%N 34%N _ _ _ eq_refl eq_refl IH1)|].
  destruct (N.eqb_spec c 92) as [->|N92];
    [exact (read_two_char 92%N 92%N _ _ _ eq_refl eq_refl IH1)|].
  apply N.eqb_neq in N34, N92.
  destruct (N.ltb_spec c 32) as [L32|G32].
  { rewrite <- app_assoc. apply read_unicode_escape; [lia | exact IH1]. }
  unfold is_leading_surrogate, is_trailing_surrogate.
  destruct ((55296 <=? c) && (c <=? 56319))%N eqn:Lead.
  - apply andb_true_iff in Lead. destruct Lead as [La Lb].
    apply N.leb_le in La, Lb.
    destruct s as [|d s'].
    + cbn [app]. rewrite <- (app_nil_r (unicode_escape c)) at 1.
      rewrite <- app_assoc. apply read_unicode_escape; [lia | reflexivity].
    + destruct ((56320 <=? d) && (d <=? 57343))%N eqn:Trail.
      * apply andb_true_iff in Trail. destruct Trail as [Ta Tb].
        apply N.leb_le in Ta, Tb.
        cbn [app]. apply read_plain; [assumption | assumption |].
        apply read_plain; [apply N.eqb_neq; lia | apply N.eqb_neq; lia |].
        apply (IH (length s')); [subst n; cbn; lia | reflexivity].
      * rewrite <- app_assoc. apply read_unicode_escape; [lia | exact IH1].
  - destruct ((56320 <=? c) && (c <=? 57343))%N eqn:Trail.
    + apply andb_true_iff in Trail. destruct Trail as [Ta Tb].
      apply N.leb_le in Ta, Tb.
      rewrite <- app_assoc. apply read_unicode_escape; [lia | exact IH1].
    + cbn [app]. now apply read_plain.
Qed.

Lemma elements_shape x l :
  join_elements (map QuoteJSONString (x :: l)) ++ [93%N]
  = 34%N :: quote_units x
      ++ 34%N :: match l with
                 | [] => [93%N]
                 | _ :: _ =>
                     44%N :: join_elements (map QuoteJSONString l) ++ [93%N]
                 end.
Proof.
  destruct l as [|y l]; cbn [map join_elements]; unfold QuoteJSONString at 1;
    cbn [app]; rewrite <- !app_assoc; reflexivity.
Qed.

Lemma read_elements_written l :
  forall x fuel, length l < fuel ->
    read_elements fuel
      (quote_units x
         ++ 34%N :: match l with
                    | [] => [93%N]
                    | _ :: _ =>
                        44%N :: join_elements (map QuoteJSONString l)
                          ++ [93%N]
                    end)
    = Some (x :: l).
Proof.
  induction l as [|y l IH]; intros x fuel Hf;
    (destruct fuel as [|fuel]; [cbn in Hf; lia|]);
    cbn [read_elements]; rewrite read_quote_units.
  - reflexivity.
  - rewrite elements_shape. rewrite IH by (cbn in Hf; lia). reflexivity.
Qed.

Lemma elements_length l x :
  length l
  < length (quote_units x
              ++ 34%N :: match l with
                         | [] => [93%N]
                         | _ :: _ =>
                             44%N :: join_elements (map QuoteJSONString l)
                               ++ [93%N]
                         end).
Proof.
  revert x. induction l as [|y l IH]; intros x; rewrite length_app;
    [cbn; lia|].
  rewrite elements_shape. specialize (IH y). cbn [length] in *. lia.
Qed.

Lemma read_array_stringify a : read_array (stringify a) = Some a.
Proof.
  destruct a as [|x l]; [reflexivity|].
  unfold stringify. rewrite elements_shape. cbn [read_array].
  apply read_elements_written, elements_length.
Qed.

Import Ledger LinkUtils Bot HandlerLaws.

(** X21.  [JSON.stringify] of a list of strings loses nothing: the list
    is read back from the text, so different lists give different texts.
    The record written for a posted conversion therefore holds, in
    [originalLinks] and [convertedLinks], the links detected in the message
    and their conversions, link for link. *)
Theorem stored_links_read_back (message : Message) (platform : Platform)
    (now : Z) (db : Db) :
  (forall a, read_array (stringify a) = Some a)
  /\ (forall a b, stringify a = stringify b -> a = b)
  /\ (snd (fst (onMessageCreate message platform now db)) <> [] ->
      exists record,
        getMessage (m_id message)
          (snd (onMessageCreate message platform now db)) = Some record
        /\ read_array (originalLinks record)
           = Some (detectRedditLinks (m_content message))
        /\ read_array (convertedLinks record)
           = Some (map convertToRxddit
                     (detectRedditLinks (m_content message)))).
Proof.
  split; [exact read_array_stringify|]. split.
  - intros a b E.
    pose proof (read_array_stringify a) as Ha.
    rewrite E, read_array_stringify in Ha. congruence.
  - intros H.
    destruct (onMessageCreate_posted message platform now db H)
      as (record & G & _ & _ & E1 & E2).
    exists record. split; [exact G|].
    rewrite E1, E2. split; apply read_array_stringify.
Qed.

(** Quotes, backslashes, control characters and a surrogate without its
    partner are escaped and read back. *)
Example stringify_sample :
  stringify [[97; 34; 92; 10; 1; 55357; 56832; 56832]%N; []]
  = (91 :: 34 :: 97 :: 92 :: 34 :: 92 :: 92 :: 92 :: 110
       :: str "\u0001" ++ 55357 :: 56832 :: str "\ude00"
       ++ 34 :: 44 :: 34 :: 34 :: [93])%N
  /\ read_array
       (stringify [[97; 34; 92; 10; 1; 55357; 56832; 56832]%N; []])
     = Some [[97; 34; 92; 10; 1; 55357; 56832; 56832]%N; []].
Proof. vm_compute. split; reflexivity. Qed.

End JsonLaws.
